(** * DREP chain core: a shallow embedding of the repository's Go code

    The development follows the source files one module at a time:

    - [StakeStore]   : chain/store/stakestore.go  (vote credit, candidates,
                       cancellation and liquidation of vote credit);
    - [Store]        : store/storage.go           (balances, nonces and the
                       transaction executor of the early code base);
    - [Database]     : database/db.go             (the journaled key/value
                       transaction over LevelDB and the state tries);
    - [ChainService] : the chain service          (ProcessBlock, acceptBlock,
                       getReorganizeNodes, reorganizeChain, markState).

    Go values are modelled as the code has them: [big.Int] as [Z], [uint64]
    as [N] with the wrap-around at [2^64] written out, [int64] as [Z] with
    the wrap-around at [2^63], byte slices as [string] where they are keys
    and values (a Go [string(key)] is the same sequence of bytes) and as
    [list byte] where they encode a number, Go maps as [gmap], sets as
    [gset].  A call that can panic or end the process returns an outcome
    that says so. *)

From Stdlib Require Import ZArith NArith Lia List Bool Strings.Byte.
From stdpp Require Import gmap strings list fin_maps.

Open Scope Z_scope.

(** ** Machine integers *)

(** [uint64] arithmetic of Go wraps around at [2^64]. *)
Definition uint64_mod : N := (2 ^ 64)%N.

Definition u64 (n : N) : N := (n mod uint64_mod)%N.

(** [int64] arithmetic of Go wraps around at [2^63] (two's complement). *)
Definition int64_min : Z := - 2 ^ 63.
Definition int64_max : Z := 2 ^ 63 - 1.

Definition i64 (z : Z) : Z := (z + 2 ^ 63) mod 2 ^ 64 - 2 ^ 63.

Lemma i64_id (z : Z) : int64_min <= z <= int64_max -> i64 z = z.
Proof.
  unfold i64, int64_min, int64_max. intros Hz.
  rewrite Z.mod_small; lia.
Qed.

Lemma i64_range (z : Z) : int64_min <= i64 z <= int64_max.
Proof.
  unfold i64, int64_min, int64_max.
  pose proof (Z.mod_pos_bound (z + 2 ^ 63) (2 ^ 64)). lia.
Qed.

Lemma u64_id (n : N) : (n < uint64_mod)%N -> u64 n = n.
Proof. intros Hn. unfold u64. now apply N.mod_small. Qed.

(** ** chain/store/stakestore.go *)

Module StakeStore.

(** [crypto.CommonAddress] is a 20-byte array; it is used only as a map key
    and compared for equality, so it is modelled by the number it encodes. *)
Abbreviation CommonAddress := N.

(** The constants of the file. *)
Definition pledgeLimit : Z := 1000000.
Definition drepUnit : Z := 1000000000.
Definition ChangeCycle : N := 100%N.

(** [new(big.Int).Mul(SetUint64(pledgeLimit), SetUint64(drepUnit))]. *)
Definition pledgeThreshold : Z := pledgeLimit * drepUnit.

(** [types.StakeStorage]; the fields [ReceivedVoteCredit] and
    [CancelVoteCredit] carry an [s] in front, the second name being that of
    a method of the store as well.  A Go map field may be [nil]: reading, ranging
    over and deleting from a nil map behave as on the empty map, while an
    assignment [m[k] = v] to a nil map panics.  Only the cancel map is ever
    assigned without a preceding [make], so its nil-ness is kept
    ([None] is the nil map). *)
Record StakeStorage := mkStakeStorage {
  sReceivedVoteCredit : gmap N Z;
  sCancelVoteCredit : option (gmap N Z)
}.

(** [&types.StakeStorage{}]: both maps nil. *)
Definition newStakeStorage : StakeStorage :=
  {| sReceivedVoteCredit := ∅; sCancelVoteCredit := None |}.

(** The cancel map as it is read ([range], [delete], [len]). *)
Definition cancelMap (s : StakeStorage) : gmap N Z :=
  default ∅ (sCancelVoteCredit s).

(** The store behind [stakeStoreInterface].  The byte store is keyed by
    [Keccak256("stakeStorage" ++ addr.Hex())] for the stake record of an
    address and by ["candidateAddrs"] for the candidate set; the model keeps
    the two families of keys apart and holds the marshalled values as the
    records they encode.  The store itself does not fail. *)
Record trieStakeStore := mkStore {
  stakes : gmap N StakeStorage;
  candidates : option (gset N)
}.

Definition emptyStore : trieStakeStore :=
  {| stakes := ∅; candidates := None |}.

(** [binary.Unmarshal] of a marshalled record.  The codec writes a map as
    its length followed by the entries and the decoder allocates the map
    before reading the entries, so a decoded map is never nil. *)
Definition unmarshal (s : StakeStorage) : StakeStorage :=
  {| sReceivedVoteCredit := sReceivedVoteCredit s;
     sCancelVoteCredit := Some (cancelMap s) |}.

Definition GetStakeStorage (addr : N) (st : trieStakeStore) : option StakeStorage :=
  unmarshal <$> stakes st !! addr.

Definition PutStakeStorage (addr : N) (storage : StakeStorage)
    (st : trieStakeStore) : trieStakeStore :=
  {| stakes := <[addr := storage]> (stakes st); candidates := candidates st |}.

Definition DelStakeStorage (addr : N) (st : trieStakeStore) : trieStakeStore :=
  {| stakes := delete addr (stakes st); candidates := candidates st |}.

(** [GetCandidateAddrs]: [nil] when the key is absent. *)
Definition GetCandidateAddrs (st : trieStakeStore) : option (gset N) :=
  candidates st.

Definition putCandidates (addrs : gset N) (st : trieStakeStore) : trieStakeStore :=
  {| stakes := stakes st; candidates := Some addrs |}.

Definition UpdateCandidateAddr (addr : N) (add : bool)
    (st : trieStakeStore) : trieStakeStore :=
  let addrs := default ∅ (GetCandidateAddrs st) in
  if add then
    if decide (0 < size addrs)%nat then
      if decide (addr ∈ addrs) then st
      else putCandidates ({[addr]} ∪ addrs) st
    else putCandidates {[addr]} st
  else
    if decide (size addrs = 0%nat) then st
    else putCandidates (addrs ∖ {[addr]}) st.

Definition AddCandidateAddr (addr : N) : trieStakeStore -> trieStakeStore :=
  UpdateCandidateAddr addr true.

Definition DelCandidateAddr (addr : N) : trieStakeStore -> trieStakeStore :=
  UpdateCandidateAddr addr false.

(** Membership in the persisted candidate set. *)
Definition isCandidate (addr : N) (st : trieStakeStore) : Prop :=
  addr ∈ default ∅ (GetCandidateAddrs st).

(** The credit [addr] has voted to itself, as stored. *)
Definition selfStake (addr : N) (st : trieStakeStore) : Z :=
  match GetStakeStorage addr st with
  | Some s => default 0 (sReceivedVoteCredit s !! addr)
  | None => 0
  end.

(** [VoteCredit].  [toAddr = None] is the nil pointer.  In the branch of a
    non-empty credit map the source declares a second [totalBalance], so
    the outer one, which the pledge test reads, stays zero there. *)
Definition VoteCredit (fromAddr : N) (toAddr : option N) (addBalance : Z)
    (st : trieStakeStore) : trieStakeStore :=
  let toAddr := default fromAddr toAddr in
  let storage := default newStakeStorage (GetStakeStorage toAddr st) in
  let '(received, st1, totalBalance) :=
    if decide (size (sReceivedVoteCredit storage) = 0%nat) then
      (({[fromAddr := addBalance]} : gmap N Z), AddCandidateAddr toAddr st, addBalance)
    else
      match sReceivedVoteCredit storage !! fromAddr with
      | Some v =>
          (<[fromAddr := addBalance + v]> (sReceivedVoteCredit storage), st, 0)
      | None =>
          (<[fromAddr := addBalance]> (sReceivedVoteCredit storage),
           AddCandidateAddr toAddr st, 0)
      end in
  let storage' :=
    {| sReceivedVoteCredit := received;
       sCancelVoteCredit := sCancelVoteCredit storage |} in
  let st2 :=
    if decide (toAddr = fromAddr) then
      if pledgeThreshold <=? totalBalance then AddCandidateAddr toAddr st1 else st1
    else st1 in
  PutStakeStorage toAddr storage' st2.

(** What a call leaves behind: a returned error (or nil), or a panic. *)
Inductive outcome :=
  | Returned (err : option string) (st : trieStakeStore)
  | Panicked (st : trieStakeStore).

Definition stateOf (o : outcome) : trieStakeStore :=
  match o with Returned _ st => st | Panicked st => st end.

(** [storage.CancelVoteCredit[height] = *cancelBalance]: panics on nil. *)
Definition setCancel (height : N) (cancelBalance : Z)
    (s : StakeStorage) : option StakeStorage :=
  match sCancelVoteCredit s with
  | None => None
  | Some m =>
      Some {| sReceivedVoteCredit := sReceivedVoteCredit s;
              sCancelVoteCredit := Some (<[height := cancelBalance]> m) |}
  end.

(** [CancelVoteCredit].  In the branch [toAddr <> fromAddr] the source
    declares an inner [storage] for the record of [fromAddr]; the entry is
    written to that inner record, and the final [PutStakeStorage] stores the
    outer one. *)
Definition CancelVoteCredit (fromAddr : N) (toAddr : option N)
    (cancelBalance : Z) (height : N) (st : trieStakeStore) : outcome :=
  let toAddr := default fromAddr toAddr in
  let storage := default newStakeStorage (GetStakeStorage toAddr st) in
  if decide (size (sReceivedVoteCredit storage) = 0%nat) then
    Returned (Some "not exist vote credit"%string) st
  else
    match sReceivedVoteCredit storage !! fromAddr with
    | None => Returned (Some "not exist vote credit"%string) st
    | Some v =>
        if v <? cancelBalance then
          Returned (Some "vote credit not enough"%string) st
        else
          let '(received, resultBalance) :=
            if cancelBalance <? v then
              (<[fromAddr := v - cancelBalance]> (sReceivedVoteCredit storage),
               v - cancelBalance)
            else (delete fromAddr (sReceivedVoteCredit storage), 0) in
          let storage' :=
            {| sReceivedVoteCredit := received;
               sCancelVoteCredit := sCancelVoteCredit storage |} in
          let st1 :=
            if decide (toAddr = fromAddr) then
              if resultBalance <? pledgeThreshold then DelCandidateAddr toAddr st
              else st
            else st in
          let st2 := PutStakeStorage toAddr storage' st1 in
          if decide (toAddr = fromAddr) then
            match setCancel height cancelBalance storage' with
            | None => Panicked st2
            | Some storage'' =>
                Returned None (PutStakeStorage fromAddr storage'' st2)
            end
          else
            let inner := default newStakeStorage (GetStakeStorage fromAddr st2) in
            match setCancel height cancelBalance inner with
            | None => Panicked st2
            | Some _ => Returned None (PutStakeStorage fromAddr storage' st2)
            end
    end.

(** [height >= cancelHeight+ChangeCycle], in [uint64]. *)
Definition matured (height cancelHeight : N) : bool :=
  (u64 (cancelHeight + ChangeCycle) <=? height)%N.

(** [GetCancelVoteCreditForBalance]: the loop adds the matured entries. *)
Definition GetCancelVoteCreditForBalance (addr : N) (height : N)
    (st : trieStakeStore) : Z :=
  match GetStakeStorage addr st with
  | None => 0
  | Some storage =>
      map_fold (fun cancelHeight balance total =>
                  if matured height cancelHeight then total + balance else total)
               0 (cancelMap storage)
  end.

(** One iteration of the loop of [CancelVoteCreditToBalance]: the running
    total and the map the loop deletes from. *)
Definition liquidateStep (height : N) (cancelHeight : N) (balance : Z)
    (acc : Z * gmap N Z) : Z * gmap N Z :=
  if matured height cancelHeight
  then (fst acc + balance, delete cancelHeight (snd acc))
  else acc.

Definition liquidate (height : N) (m : gmap N Z) : Z * gmap N Z :=
  map_fold (liquidateStep height) (0, m) m.

(** [CancelVoteCreditToBalance]: the total and the store afterwards (the
    error is always nil). *)
Definition CancelVoteCreditToBalance (addr : N) (height : N)
    (st : trieStakeStore) : Z * trieStakeStore :=
  match GetStakeStorage addr st with
  | None => (0, st)
  | Some storage =>
      let '(total, m) := liquidate height (cancelMap storage) in
      (total,
       PutStakeStorage addr
         {| sReceivedVoteCredit := sReceivedVoteCredit storage;
            sCancelVoteCredit := Some m |} st)
  end.

(** [GetVoteCredit]. *)
Definition GetVoteCredit (addr : N) (st : trieStakeStore) : Z :=
  match GetStakeStorage addr st with
  | None => 0
  | Some storage =>
      map_fold (fun _ value total => total + value) 0 (sReceivedVoteCredit storage)
  end.

(** The loop of [GetCancelVoteCreditForBalance] on a cancel map. *)
Definition sumMatured (height : N) (m : gmap N Z) : Z :=
  map_fold (fun cancelHeight balance total =>
              if matured height cancelHeight then total + balance else total) 0 m.

(** The pending cancel map stored for an address. *)
Definition pendingCancel (addr : N) (st : trieStakeStore) : gmap N Z :=
  match GetStakeStorage addr st with
  | Some s => cancelMap s
  | None => ∅
  end.

(** The store in which the cancel entry of height [h] of [addr] is absent. *)
Definition withoutCancel (addr : N) (h : N) (st : trieStakeStore) : trieStakeStore :=
  match stakes st !! addr with
  | Some s =>
      PutStakeStorage addr
        {| sReceivedVoteCredit := sReceivedVoteCredit s;
           sCancelVoteCredit := Some (delete h (cancelMap s)) |} st
  | None => st
  end.

(** The entry of height [h] is left out of the total of a liquidation at
    height [q] and stays pending. *)
Definition excludedAt (addr h : N) (amt : Z) (q : N) (st : trieStakeStore) : Prop :=
  fst (CancelVoteCreditToBalance addr q st)
    = fst (CancelVoteCreditToBalance addr q (withoutCancel addr h st))
  /\ pendingCancel addr (snd (CancelVoteCreditToBalance addr q st)) !! h = Some amt.

(** The entry of height [h] is part of the total of a liquidation at height
    [q] and is no longer pending afterwards. *)
Definition includedAt (addr h : N) (amt : Z) (q : N) (st : trieStakeStore) : Prop :=
  fst (CancelVoteCreditToBalance addr q st)
    = amt + fst (CancelVoteCreditToBalance addr q (withoutCancel addr h st))
  /\ pendingCancel addr (snd (CancelVoteCreditToBalance addr q st)) !! h = None.

(** *** Basic facts *)

Lemma GetStakeStorage_Put_eq addr s st :
  GetStakeStorage addr (PutStakeStorage addr s st) = Some (unmarshal s).
Proof. unfold GetStakeStorage, PutStakeStorage; simpl. now rewrite lookup_insert_eq. Qed.

Lemma GetStakeStorage_Put_ne a b s st :
  a <> b -> GetStakeStorage b (PutStakeStorage a s st) = GetStakeStorage b st.
Proof.
  intros Hab. unfold GetStakeStorage, PutStakeStorage; simpl.
  now rewrite lookup_insert_ne.
Qed.

Lemma cancelMap_unmarshal s : cancelMap (unmarshal s) = cancelMap s.
Proof. reflexivity. Qed.

Lemma matured_no_wrap (q h : N) :
  (h + ChangeCycle < uint64_mod)%N ->
  matured q h = true <-> (h + ChangeCycle <= q)%N.
Proof.
  intros Hh. unfold matured. rewrite u64_id by exact Hh.
  apply N.leb_le.
Qed.

Lemma AddCandidateAddr_in addr st : isCandidate addr (AddCandidateAddr addr st).
Proof.
  unfold isCandidate, AddCandidateAddr, UpdateCandidateAddr, GetCandidateAddrs.
  repeat case_decide; simpl; try set_solver.
Qed.

Lemma isCandidate_Put a addr s st :
  isCandidate a (PutStakeStorage addr s st) <-> isCandidate a st.
Proof. reflexivity. Qed.

(** *** The liquidation loop *)

Lemma sumMatured_insert q (m : gmap N Z) h amt :
  m !! h = None ->
  sumMatured q (<[h := amt]> m)
    = (if matured q h then amt else 0) + sumMatured q m.
Proof.
  intros Hh. unfold sumMatured.
  rewrite map_fold_insert_L; [ | | exact Hh].
  - destruct (matured q h); lia.
  - intros j1 j2 z1 z2 y _ _ _.
    destruct (matured q j1), (matured q j2); lia.
Qed.

Lemma sumMatured_delete q (m : gmap N Z) h amt :
  m !! h = Some amt ->
  sumMatured q m = (if matured q h then amt else 0) + sumMatured q (delete h m).
Proof.
  intros Hh. rewrite <- (insert_delete_id m h amt Hh) at 1.
  apply sumMatured_insert. apply lookup_delete_eq.
Qed.

(** The loop over any part [m'] of the map, started on the whole map [M]:
    the total is that of the matured entries of [m'] and the keys deleted
    from [M] are the matured keys of [m']. *)
Lemma liquidate_fold q (M m' : gmap N Z) :
  let r := map_fold (liquidateStep q) (0, M) m' in
  fst r = sumMatured q m'
  /\ forall k, snd r !! k =
       if matured q k then (if m' !! k is Some _ then None else M !! k) else M !! k.
Proof.
  apply (map_fold_weak_ind
           (fun r m' => fst r = sumMatured q m'
              /\ forall k, snd r !! k =
                   if matured q k then (if m' !! k is Some _ then None else M !! k)
                   else M !! k)).
  - split.
    + unfold sumMatured. now rewrite map_fold_empty.
    + intros k. rewrite lookup_empty. now destruct (matured q k).
  - intros i x m r Hi [Ht Hm]. split.
    + rewrite sumMatured_insert by exact Hi.
      unfold liquidateStep. destruct (matured q i); simpl; lia.
    + intros k. unfold liquidateStep.
      destruct (matured q i) eqn:Ei; simpl.
      * destruct (decide (i = k)) as [->|Hne].
        -- rewrite lookup_delete_eq, lookup_insert_eq, Ei. reflexivity.
        -- rewrite lookup_delete_ne, lookup_insert_ne by exact Hne. apply Hm.
      * destruct (decide (i = k)) as [->|Hne].
        -- rewrite Hm, Ei. reflexivity.
        -- rewrite lookup_insert_ne by exact Hne. apply Hm.
Qed.

Lemma liquidate_total q (m : gmap N Z) : fst (liquidate q m) = sumMatured q m.
Proof. apply (liquidate_fold q m m). Qed.

Lemma liquidate_lookup q (m : gmap N Z) k :
  snd (liquidate q m) !! k = if matured q k then None else m !! k.
Proof.
  destruct (liquidate_fold q m m) as [_ H]. unfold liquidate. rewrite H.
  destruct (matured q k); [ | reflexivity]. now destruct (m !! k).
Qed.

(** The read-only query returns the total the liquidation returns. *)
Lemma GetCancelVoteCreditForBalance_total addr q st :
  GetCancelVoteCreditForBalance addr q st = fst (CancelVoteCreditToBalance addr q st).
Proof.
  unfold GetCancelVoteCreditForBalance, CancelVoteCreditToBalance.
  destruct (GetStakeStorage addr st) as [s|]; [ | reflexivity].
  pose proof (liquidate_total q (cancelMap s)) as Ht.
  destruct (liquidate q (cancelMap s)) as [t m]. simpl in *.
  rewrite Ht. reflexivity.
Qed.

Lemma CancelVoteCreditToBalance_total addr q st s :
  stakes st !! addr = Some s ->
  fst (CancelVoteCreditToBalance addr q st) = sumMatured q (cancelMap s).
Proof.
  intros Hs. unfold CancelVoteCreditToBalance, GetStakeStorage. rewrite Hs; simpl.
  pose proof (liquidate_total q (cancelMap (unmarshal s))) as Ht.
  destruct (liquidate q (cancelMap (unmarshal s))) as [t m]. simpl in *.
  exact Ht.
Qed.

Lemma CancelVoteCreditToBalance_pending addr q st s k :
  stakes st !! addr = Some s ->
  pendingCancel addr (snd (CancelVoteCreditToBalance addr q st)) !! k
    = if matured q k then None else cancelMap s !! k.
Proof.
  intros Hs. unfold CancelVoteCreditToBalance, GetStakeStorage. rewrite Hs; simpl.
  pose proof (liquidate_lookup q (cancelMap (unmarshal s)) k) as Hl.
  destruct (liquidate q (cancelMap (unmarshal s))) as [t m]. simpl in *.
  unfold pendingCancel. rewrite GetStakeStorage_Put_eq. exact Hl.
Qed.

Lemma withoutCancel_total addr q h st s :
  stakes st !! addr = Some s ->
  fst (CancelVoteCreditToBalance addr q (withoutCancel addr h st))
    = sumMatured q (delete h (cancelMap s)).
Proof.
  intros Hs. unfold withoutCancel. rewrite Hs.
  rewrite (CancelVoteCreditToBalance_total addr q _
             {| sReceivedVoteCredit := sReceivedVoteCredit s;
                sCancelVoteCredit := Some (delete h (cancelMap s)) |}).
  - reflexivity.
  - unfold PutStakeStorage; simpl. apply lookup_insert_eq.
Qed.

(** *** Candidates and vote credit *)

Lemma selfStake_Put addr s st :
  selfStake addr (PutStakeStorage addr s st)
    = default 0 (sReceivedVoteCredit s !! addr).
Proof. unfold selfStake. now rewrite GetStakeStorage_Put_eq. Qed.

(** C4.  [VoteCredit] puts [toAddr] into the candidate set as soon as it
    receives the first credit of a voter, whatever the amount: afterwards
    [toAddr] is a candidate, and its self-stake is the amount when it voted
    for itself and is what it was before when somebody else voted. *)
Theorem VoteCredit_first_vote_adds_candidate
    (fromAddr toAddr : N) (addBalance : Z) (st : trieStakeStore) :
  (forall s, GetStakeStorage toAddr st = Some s ->
             sReceivedVoteCredit s !! fromAddr = None) ->
  let st' := VoteCredit fromAddr (Some toAddr) addBalance st in
  isCandidate toAddr st'
  /\ selfStake toAddr st'
     = if decide (toAddr = fromAddr) then addBalance else selfStake toAddr st.
Proof.
  intros Hnew. cbv zeta. unfold VoteCredit. simpl.
  assert (Hself : selfStake toAddr st
                  = default 0 (sReceivedVoteCredit
                      (default newStakeStorage (GetStakeStorage toAddr st)) !! toAddr)).
  { unfold selfStake. now destruct (GetStakeStorage toAddr st). }
  destruct (GetStakeStorage toAddr st) as [s|] eqn:Hs; simpl in *.
  - rewrite (Hnew s eq_refl).
    destruct (decide (size (sReceivedVoteCredit s) = 0%nat)) as [Hz|Hz].
    + apply map_size_empty_inv in Hz.
      split.
      * rewrite isCandidate_Put.
        destruct (decide (toAddr = fromAddr));
          [destruct (pledgeThreshold <=? addBalance) | ];
          auto using AddCandidateAddr_in.
      * rewrite selfStake_Put; simpl.
        destruct (decide (toAddr = fromAddr)) as [->|Hne].
        -- now rewrite lookup_singleton_eq.
        -- rewrite lookup_singleton_ne by congruence.
           rewrite Hself, Hz. reflexivity.
    + split.
      * rewrite isCandidate_Put.
        destruct (decide (toAddr = fromAddr));
          [destruct (pledgeThreshold <=? 0) | ];
          auto using AddCandidateAddr_in.
      * rewrite selfStake_Put; simpl.
        destruct (decide (toAddr = fromAddr)) as [->|Hne].
        -- now rewrite lookup_insert_eq.
        -- rewrite lookup_insert_ne by congruence. now rewrite Hself.
  - rewrite map_size_empty.
    destruct (decide (0%nat = 0%nat)) as [_|Hz]; [ | congruence].
    split.
    + rewrite isCandidate_Put.
      destruct (decide (toAddr = fromAddr));
        [destruct (pledgeThreshold <=? addBalance) | ];
        auto using AddCandidateAddr_in.
    + rewrite selfStake_Put; simpl.
      destruct (decide (toAddr = fromAddr)) as [->|Hne].
      * now rewrite lookup_singleton_eq.
      * rewrite lookup_singleton_ne by congruence. now rewrite Hself.
Qed.

(** On the empty store, one unit of credit voted by address [2] to address
    [1] makes [1] a candidate with no self-stake at all. *)
Lemma VoteCredit_first_vote_adds_candidate_witness :
  isCandidate 1%N (VoteCredit 2%N (Some 1%N) 1 emptyStore)
  /\ selfStake 1%N (VoteCredit 2%N (Some 1%N) 1 emptyStore) = 0
  /\ 0 < pledgeThreshold.
Proof.
  destruct (VoteCredit_first_vote_adds_candidate 2%N 1%N 1 emptyStore)
    as [Hc Hs].
  - intros s Hs. vm_compute in Hs. discriminate.
  - split; [exact Hc | split; [exact Hs | reflexivity]].
Defined.

(** *** Cancelling credit voted to another address *)





(** *** Liquidation of matured cancellations *)

(** C6 (as amended).  A cancel entry recorded at a height [h] whose
    [h + ChangeCycle] is a [uint64], that is [h < 2^64 - 100], is left out
    of the total of [CancelVoteCreditToBalance] and stays pending at every
    query height below [h + ChangeCycle]; at every query height from
    [h + ChangeCycle] on it is part of the total and removed from the
    pending cancel map. *)
Theorem liquidation_maturity (addr h q : N) (amt : Z) (st : trieStakeStore) :
  pendingCancel addr st !! h = Some amt ->
  (h + ChangeCycle < uint64_mod)%N ->
  ((q < h + ChangeCycle)%N -> excludedAt addr h amt q st)
  /\ ((h + ChangeCycle <= q)%N -> includedAt addr h amt q st).
Proof.
  intros Hp Hh. unfold pendingCancel, GetStakeStorage in Hp.
  destruct (stakes st !! addr) as [s|] eqn:Hs; simpl in Hp;
    [ | now rewrite lookup_empty in Hp].
  pose proof (matured_no_wrap q h Hh) as Hm.
  unfold excludedAt, includedAt.
  rewrite (CancelVoteCreditToBalance_total addr q st s Hs).
  rewrite (withoutCancel_total addr q h st s Hs).
  rewrite (CancelVoteCreditToBalance_pending addr q st s h Hs).
  rewrite (sumMatured_delete q (cancelMap s) h amt Hp).
  split; intros Hq.
  - destruct (matured q h); [ | split; [lia | exact Hp]].
    assert (h + ChangeCycle <= q)%N by now apply Hm. lia.
  - destruct (matured q h) eqn:E; [split; [lia | reflexivity] | ].
    assert (false = true) by now apply Hm. discriminate.
Qed.

(** The store used in the examples of the liquidation: address [1] has one
    pending cancel entry [h |-> amt]. *)
Definition onePending (h : N) (amt : Z) : trieStakeStore :=
  PutStakeStorage 1%N
    {| sReceivedVoteCredit := ∅; sCancelVoteCredit := Some {[h := amt]} |}
    emptyStore.

Lemma liquidation_maturity_witness :
  excludedAt 1%N 7%N 500 106%N (onePending 7%N 500)
  /\ includedAt 1%N 7%N 500 107%N (onePending 7%N 500).
Proof.
  split.
  - apply (liquidation_maturity 1%N 7%N 106%N 500 (onePending 7%N 500));
      [reflexivity | reflexivity | reflexivity].
  - apply (liquidation_maturity 1%N 7%N 107%N 500 (onePending 7%N 500));
      [reflexivity | reflexivity | discriminate].
Defined.

(** The greatest [uint64]. *)
Definition maxHeight : N := (2 ^ 64 - 1)%N.

(** C6 (as stated) fails where [cancelHeight + ChangeCycle] wraps around:
    for an entry recorded at height [2^64 - 1] the sum is [99] in [uint64],
    so the liquidation at height [99], which is below [h + ChangeCycle],
    does not leave the entry out: it pays it out and removes it. *)
Lemma liquidation_maturity_wraps :
  (99 < maxHeight + ChangeCycle)%N
  /\ ~ excludedAt 1%N maxHeight 500 99%N (onePending maxHeight 500)
  /\ fst (CancelVoteCreditToBalance 1%N 99%N (onePending maxHeight 500)) = 500
  /\ pendingCancel 1%N
       (snd (CancelVoteCreditToBalance 1%N 99%N (onePending maxHeight 500)))
       !! maxHeight = None.
Proof.
  assert (Hp : pendingCancel 1%N
                 (snd (CancelVoteCreditToBalance 1%N 99%N
                         (onePending maxHeight 500))) !! maxHeight = None)
    by (vm_compute; reflexivity).
  split; [reflexivity | ]. split; [ | split; [vm_compute; reflexivity | exact Hp]].
  intros [_ H]. rewrite Hp in H. discriminate.
Qed.

(** *** More on the candidate set *)

(** After [UpdateCandidateAddr] the candidates are the former ones with the
    address added, or with it removed; the stake records are left alone. *)
Theorem UpdateCandidateAddr_members (addr other : N) (add : bool)
    (st : trieStakeStore) :
  (isCandidate other (UpdateCandidateAddr addr add st)
   <-> if add then other = addr \/ isCandidate other st
       else other <> addr /\ isCandidate other st)
  /\ stakes (UpdateCandidateAddr addr add st) = stakes st.
Proof.
  unfold UpdateCandidateAddr, isCandidate, GetCandidateAddrs.
  destruct add.
  - destruct (decide (0 < size (default ∅ (candidates st)))%nat) as [Hpos|Hzero].
    + destruct (decide (addr ∈ default ∅ (candidates st))); simpl;
        (split; [set_solver | reflexivity]).
    + assert (Hempty : default ∅ (candidates st) = ∅).
      { apply leibniz_equiv, size_empty_inv. lia. }
      simpl. rewrite Hempty. split; [set_solver | reflexivity].
  - destruct (decide (size (default ∅ (candidates st)) = 0%nat)) as [Hzero|Hpos].
    + assert (Hempty : default ∅ (candidates st) = ∅).
      { apply leibniz_equiv, size_empty_inv. exact Hzero. }
      rewrite Hempty. split; [set_solver | reflexivity].
    + simpl. split; [set_solver | reflexivity].
Qed.

(** *** Errors of [CancelVoteCredit] *)

(** X1.  [CancelVoteCredit] returns an error and leaves the store as it is when
    the target has no credit from the caller, and when the credit is less
    than the amount to cancel. *)
Theorem CancelVoteCredit_errors
    (fromAddr : N) (toAddr : option N) (cancelBalance : Z) (height : N)
    (st : trieStakeStore) :
  let target := default fromAddr toAddr in
  let credit := GetStakeStorage target st ≫= fun s => sReceivedVoteCredit s !! fromAddr in
  (credit = None ->
   CancelVoteCredit fromAddr toAddr cancelBalance height st
   = Returned (Some "not exist vote credit"%string) st)
  /\ (forall v, credit = Some v -> v < cancelBalance ->
      CancelVoteCredit fromAddr toAddr cancelBalance height st
      = Returned (Some "vote credit not enough"%string) st).
Proof.
  cbv zeta. unfold CancelVoteCredit.
  destruct (GetStakeStorage (default fromAddr toAddr) st) as [s|]; simpl.
  - split.
    + intros Hnone. rewrite Hnone. now destruct (decide _).
    + intros v Hv Hlt. rewrite Hv.
      destruct (decide (size (sReceivedVoteCredit s) = 0%nat)) as [Hz|_].
      { apply map_size_empty_inv in Hz. rewrite Hz, lookup_empty in Hv. discriminate. }
      apply Z.ltb_lt in Hlt. now rewrite Hlt.
  - split; [ | discriminate]. intros _.
    rewrite map_size_empty. now destruct (decide _).
Qed.

Lemma CancelVoteCredit_errors_witness :
  CancelVoteCredit 2%N (Some 1%N) 11 50%N (VoteCredit 2%N (Some 1%N) 10 emptyStore)
  = Returned (Some "vote credit not enough"%string)
             (VoteCredit 2%N (Some 1%N) 10 emptyStore)
  /\ CancelVoteCredit 3%N (Some 1%N) 1 50%N (VoteCredit 2%N (Some 1%N) 10 emptyStore)
     = Returned (Some "not exist vote credit"%string)
                (VoteCredit 2%N (Some 1%N) 10 emptyStore).
Proof.
  split.
  - destruct (CancelVoteCredit_errors 2%N (Some 1%N) 11 50%N
                (VoteCredit 2%N (Some 1%N) 10 emptyStore)) as [_ H].
    apply (H 10); [reflexivity | lia].
  - destruct (CancelVoteCredit_errors 3%N (Some 1%N) 1 50%N
                (VoteCredit 2%N (Some 1%N) 10 emptyStore)) as [H _].
    apply H. reflexivity.
Defined.

(** *** Cancelling credit voted to oneself *)

Lemma CancelVoteCredit_own_credit
    (addr height : N) (cancelBalance v : Z) (s : StakeStorage)
    (st : trieStakeStore) :
  GetStakeStorage addr st = Some s ->
  sReceivedVoteCredit s !! addr = Some v ->
  cancelBalance <= v ->
  exists st',
    CancelVoteCredit addr None cancelBalance height st = Returned None st'
    /\ selfStake addr st' = v - cancelBalance
    /\ pendingCancel addr st' = <[height := cancelBalance]> (pendingCancel addr st)
    /\ (v - cancelBalance < pledgeThreshold -> ~ isCandidate addr st')
    /\ (pledgeThreshold <= v - cancelBalance -> candidates st' = candidates st).
Proof.
  intros Hget Hv Hle.
  assert (Hcm : exists m, sCancelVoteCredit s = Some m /\ cancelMap s = m).
  { unfold GetStakeStorage in Hget. destruct (stakes st !! addr); [ | discriminate].
    inversion Hget; subst. simpl. eauto. }
  destruct Hcm as (m & Hm & Hcm).
  assert (Hpend : pendingCancel addr st = m).
  { unfold pendingCancel. now rewrite Hget. }
  unfold CancelVoteCredit. simpl. rewrite Hget. simpl. rewrite Hv.
  destruct (decide (size (sReceivedVoteCredit s) = 0%nat)) as [Hz|_].
  { apply map_size_empty_inv in Hz. rewrite Hz, lookup_empty in Hv. discriminate. }
  destruct (v <? cancelBalance) eqn:Hlt; [apply Z.ltb_lt in Hlt; lia | ].
  destruct (decide (addr = addr)) as [_|Hne]; [ | congruence].
  destruct (cancelBalance <? v) eqn:Hlt2.
  - unfold setCancel. simpl. rewrite Hm.
    eexists. split; [reflexivity | ].
    split; [rewrite selfStake_Put; simpl; now rewrite lookup_insert_eq | ].
    split; [rewrite Hpend; unfold pendingCancel; rewrite GetStakeStorage_Put_eq; reflexivity | ].
    split.
    + intros Hbelow. apply Z.ltb_lt in Hbelow. rewrite Hbelow.
      rewrite !isCandidate_Put.
      pose proof (UpdateCandidateAddr_members addr addr false st) as [Hmem _].
      intros Hc. apply Hmem in Hc. destruct Hc as [Hc _]. congruence.
    + intros Habove. apply Z.ltb_ge in Habove. rewrite Habove. reflexivity.
  - apply Z.ltb_ge in Hlt2. assert (v = cancelBalance) by lia. subst v.
    unfold setCancel. simpl. rewrite Hm.
    eexists. split; [reflexivity | ].
    split; [rewrite selfStake_Put; simpl; rewrite lookup_delete_eq; simpl; lia | ].
    split; [rewrite Hpend; unfold pendingCancel; rewrite GetStakeStorage_Put_eq; reflexivity | ].
    rewrite Z.sub_diag. split.
    + intros _. rewrite !isCandidate_Put.
      pose proof (UpdateCandidateAddr_members addr addr false st) as [Hmem _].
      intros Hc. apply Hmem in Hc. destruct Hc as [Hc _]. congruence.
    + intros Habove. unfold pledgeThreshold, pledgeLimit, drepUnit in Habove. lia.
Qed.

(** X2.  When an address takes back [cancelBalance] of the credit [v] it voted
    to itself, the call returns nil; the self-stake is [v - cancelBalance];
    the pending cancel map gets [height |-> cancelBalance], in the place of
    whatever was pending at that height; and the address is out of the
    candidate set when what is left is below the pledge, while the
    candidate set is untouched otherwise. *)
Theorem CancelVoteCredit_self
    (addr height : N) (cancelBalance v : Z) (s : StakeStorage)
    (st : trieStakeStore) :
  GetStakeStorage addr st = Some s ->
  sReceivedVoteCredit s !! addr = Some v ->
  cancelBalance <= v ->
  exists st',
    CancelVoteCredit addr None cancelBalance height st = Returned None st'
    /\ selfStake addr st' = v - cancelBalance
    /\ pendingCancel addr st' = <[height := cancelBalance]> (pendingCancel addr st)
    /\ (v - cancelBalance < pledgeThreshold -> ~ isCandidate addr st')
    /\ (pledgeThreshold <= v - cancelBalance -> candidates st' = candidates st).
Proof. exact (CancelVoteCredit_own_credit addr height cancelBalance v s st). Qed.

(** Address [7] votes [30] to itself and takes back [10] at height [5], and
    then [4] more at the same height: [4] is pending, the first [10] are no
    longer recorded. *)
Lemma CancelVoteCredit_self_witness :
  exists st1 st2,
    CancelVoteCredit 7%N None 10 5%N (VoteCredit 7%N None 30 emptyStore)
      = Returned None st1
    /\ pendingCancel 7%N st1 = {[5%N := 10]}
    /\ CancelVoteCredit 7%N None 4 5%N st1 = Returned None st2
    /\ selfStake 7%N st2 = 16
    /\ pendingCancel 7%N st2 = {[5%N := 4]}.
Proof.
  destruct (CancelVoteCredit_self 7%N 5%N 10 30
              {| sReceivedVoteCredit := {[7%N := 30]}; sCancelVoteCredit := Some ∅ |}
              (VoteCredit 7%N None 30 emptyStore))
    as (st1 & H1 & Hs1 & Hp1 & _); [reflexivity | reflexivity | lia | ].
  assert (Hst1 : st1 = stateOf (CancelVoteCredit 7%N None 10 5%N
                                  (VoteCredit 7%N None 30 emptyStore)))
    by (rewrite H1; reflexivity).
  destruct (CancelVoteCredit_self 7%N 5%N 4 20
              {| sReceivedVoteCredit := {[7%N := 20]};
                 sCancelVoteCredit := Some {[5%N := 10]} |} st1)
    as (st2 & H2 & Hs2 & Hp2 & _).
  - rewrite Hst1. reflexivity.
  - reflexivity.
  - lia.
  - exists st1, st2. split; [exact H1 | ].
    split; [rewrite Hp1; reflexivity | ].
    split; [exact H2 | ]. split; [exact Hs2 | ].
    rewrite Hp2, Hp1. reflexivity.
Defined.

(** *** The credit an address has received *)

(** The loop of [GetVoteCredit] on a credit map. *)
Definition sumCredits (m : gmap N Z) : Z :=
  map_fold (fun _ value total => total + value) 0 m.

Lemma sumCredits_insert_fresh (m : gmap N Z) k x :
  m !! k = None -> sumCredits (<[k := x]> m) = sumCredits m + x.
Proof.
  intros Hk. unfold sumCredits.
  rewrite map_fold_insert_L; [reflexivity | | exact Hk].
  intros; lia.
Qed.

Lemma sumCredits_insert (m : gmap N Z) k x :
  sumCredits (<[k := x]> m) = sumCredits m - default 0 (m !! k) + x.
Proof.
  destruct (m !! k) as [v|] eqn:Hk; simpl.
  - rewrite <- (insert_delete_id m k v Hk) at 2.
    rewrite <- insert_delete_eq.
    rewrite !sumCredits_insert_fresh by apply lookup_delete_eq. lia.
  - rewrite sumCredits_insert_fresh by exact Hk. lia.
Qed.

Lemma GetVoteCredit_Put addr s st :
  GetVoteCredit addr (PutStakeStorage addr s st) = sumCredits (sReceivedVoteCredit s).
Proof. unfold GetVoteCredit. now rewrite GetStakeStorage_Put_eq. Qed.

(** X3.  [VoteCredit] raises the total credit of its target by the amount voted
    and leaves the total of every other address as it is. *)
Theorem VoteCredit_total
    (fromAddr : N) (toAddr : option N) (addBalance : Z) (st : trieStakeStore) :
  let target := default fromAddr toAddr in
  GetVoteCredit target (VoteCredit fromAddr toAddr addBalance st)
    = GetVoteCredit target st + addBalance
  /\ forall other, other <> target ->
       GetVoteCredit other (VoteCredit fromAddr toAddr addBalance st)
       = GetVoteCredit other st.
Proof.
  cbv zeta. split.
  - unfold VoteCredit.
    assert (Hbefore : GetVoteCredit (default fromAddr toAddr) st
              = sumCredits (sReceivedVoteCredit
                  (default newStakeStorage
                     (GetStakeStorage (default fromAddr toAddr) st)))).
    { unfold GetVoteCredit. destruct (GetStakeStorage _ st); reflexivity. }
    rewrite Hbefore.
    set (storage := default newStakeStorage
                      (GetStakeStorage (default fromAddr toAddr) st)).
    destruct (decide (size (sReceivedVoteCredit storage) = 0%nat)) as [Hz|Hz].
    + apply map_size_empty_inv in Hz. rewrite GetVoteCredit_Put. simpl.
      rewrite Hz. unfold sumCredits.
      rewrite map_fold_singleton, map_fold_empty. lia.
    + destruct (sReceivedVoteCredit storage !! fromAddr) as [v|] eqn:Hv;
        rewrite GetVoteCredit_Put; simpl;
        rewrite sumCredits_insert, Hv; simpl; lia.
  - intros other Hne.
    assert (Hst : forall a st0,
              GetStakeStorage other (AddCandidateAddr a st0)
              = GetStakeStorage other st0).
    { intros a st0. unfold GetStakeStorage, AddCandidateAddr, UpdateCandidateAddr.
      repeat case_decide; reflexivity. }
    unfold VoteCredit, GetVoteCredit.
    set (storage := default newStakeStorage
                      (GetStakeStorage (default fromAddr toAddr) st)).
    destruct (decide (size (sReceivedVoteCredit storage) = 0%nat));
      [ | destruct (sReceivedVoteCredit storage !! fromAddr)];
      rewrite GetStakeStorage_Put_ne by congruence;
      repeat case_decide; repeat (destruct (_ <=? _)); rewrite ?Hst; reflexivity.
Qed.

(** *** Liquidation pays once *)

Lemma sumMatured_none q (m : gmap N Z) :
  (forall k v, m !! k = Some v -> matured q k = false) -> sumMatured q m = 0.
Proof.
  induction m as [|k v m Hk IH] using map_ind; intros Hall.
  - unfold sumMatured. apply map_fold_empty.
  - rewrite sumMatured_insert by exact Hk.
    rewrite (Hall k v) by apply lookup_insert_eq.
    rewrite IH; [reflexivity | ].
    intros k' v' Hk'. apply (Hall k' v').
    rewrite lookup_insert_ne; [exact Hk' | ]. intros ->. congruence.
Qed.

(** X4.  What [CancelVoteCreditToBalance] returns is what the query
    [GetCancelVoteCreditForBalance] announced for the same height, and
    afterwards both return zero for that height: nothing is paid twice. *)
Theorem liquidation_pays_once (addr q : N) (st : trieStakeStore) :
  let r := CancelVoteCreditToBalance addr q st in
  fst r = GetCancelVoteCreditForBalance addr q st
  /\ GetCancelVoteCreditForBalance addr q (snd r) = 0
  /\ fst (CancelVoteCreditToBalance addr q (snd r)) = 0.
Proof.
  cbv zeta. split; [symmetry; apply GetCancelVoteCreditForBalance_total | ].
  assert (Hzero : fst (CancelVoteCreditToBalance addr q
                         (snd (CancelVoteCreditToBalance addr q st))) = 0).
  { destruct (stakes st !! addr) as [s|] eqn:Hs.
    - pose proof (fun k => CancelVoteCreditToBalance_pending addr q st s k Hs) as Hp.
      set (st' := snd (CancelVoteCreditToBalance addr q st)) in *.
      destruct (stakes st' !! addr) as [s'|] eqn:Hs'.
      + rewrite (CancelVoteCreditToBalance_total addr q st' s' Hs').
        apply sumMatured_none. intros k v Hk.
        specialize (Hp k). unfold pendingCancel, GetStakeStorage in Hp.
        rewrite Hs' in Hp. simpl in Hp. rewrite cancelMap_unmarshal, Hk in Hp.
        destruct (matured q k); [discriminate | reflexivity].
      + unfold CancelVoteCreditToBalance, GetStakeStorage. now rewrite Hs'.
    - unfold CancelVoteCreditToBalance at 2. unfold GetStakeStorage. rewrite Hs. simpl.
      unfold CancelVoteCreditToBalance, GetStakeStorage. now rewrite Hs. }
  split; [ | exact Hzero].
  rewrite GetCancelVoteCreditForBalance_total. exact Hzero.
Qed.

(** *** A self-vote, its cancellation and its liquidation *)

Lemma sumMatured_singleton q h y :
  sumMatured q {[h := y]} = if matured q h then y else 0.
Proof.
  unfold sumMatured. rewrite map_fold_singleton. destruct (matured q h); lia.
Qed.

Lemma pendingCancel_stored addr st m :
  pendingCancel addr st = m -> m <> ∅ ->
  exists s, stakes st !! addr = Some s /\ cancelMap s = m.
Proof.
  unfold pendingCancel, GetStakeStorage. intros Hp Hne.
  destruct (stakes st !! addr) as [s|]; simpl in Hp; [ | congruence].
  exists s. split; [reflexivity | exact Hp].
Qed.

(** X5.  An address without a stake record votes [x] to itself and takes [y]
    of it back at height [h].  Its self-stake is then [x - y]; a liquidation
    below height [h + ChangeCycle] returns nothing and leaves [y] pending,
    and a liquidation from that height on returns [y] and leaves nothing
    pending. *)
Theorem stake_round_trip (addr h : N) (x y : Z) (st : trieStakeStore) :
  stakes st !! addr = None ->
  y <= x ->
  (h + ChangeCycle < uint64_mod)%N ->
  exists st2,
    CancelVoteCredit addr None y h (VoteCredit addr None x st) = Returned None st2
    /\ selfStake addr st2 = x - y
    /\ (forall q, (q < h + ChangeCycle)%N ->
          fst (CancelVoteCreditToBalance addr q st2) = 0
          /\ pendingCancel addr (snd (CancelVoteCreditToBalance addr q st2))
             = {[h := y]})
    /\ (forall q, (h + ChangeCycle <= q)%N ->
          fst (CancelVoteCreditToBalance addr q st2) = y
          /\ pendingCancel addr (snd (CancelVoteCreditToBalance addr q st2)) = ∅).
Proof.
  intros Hnone Hle Hh.
  assert (Hget : GetStakeStorage addr (VoteCredit addr None x st)
                 = Some {| sReceivedVoteCredit := {[addr := x]};
                           sCancelVoteCredit := Some ∅ |}).
  { assert (Hg : GetStakeStorage addr st = None).
    { unfold GetStakeStorage. now rewrite Hnone. }
    unfold VoteCredit. cbv zeta. simpl default. rewrite Hg. simpl default.
    simpl sReceivedVoteCredit. rewrite map_size_empty.
    destruct (decide (0%nat = 0%nat)) as [_|Hc]; [ | congruence].
    rewrite GetStakeStorage_Put_eq. reflexivity. }
  destruct (CancelVoteCredit_own_credit addr h y x _ _ Hget) as (st2 & Hret & Hself & Hpend & _);
    [apply lookup_singleton_eq | exact Hle | ].
  exists st2. split; [exact Hret | ]. split; [exact Hself | ].
  assert (Hp : pendingCancel addr st2 = {[h := y]}).
  { rewrite Hpend. unfold pendingCancel. rewrite Hget. reflexivity. }
  destruct (pendingCancel_stored addr st2 _ Hp) as (s & Hs & Hcm).
  { intros Hempty. apply (f_equal (fun m => m !! h)) in Hempty.
    rewrite lookup_singleton_eq, lookup_empty in Hempty. discriminate. }
  pose proof (matured_no_wrap) as Hm.
  split; intros q Hq.
  - assert (Hmq : matured q h = false).
    { destruct (matured q h) eqn:E; [ | reflexivity].
      apply (Hm q h Hh) in E. lia. }
    split.
    + rewrite (CancelVoteCreditToBalance_total addr q st2 s Hs), Hcm.
      now rewrite sumMatured_singleton, Hmq.
    + apply map_eq. intros k.
      rewrite (CancelVoteCreditToBalance_pending addr q st2 s k Hs), Hcm.
      destruct (decide (k = h)) as [->|Hne].
      * now rewrite Hmq.
      * rewrite lookup_singleton_ne by congruence. now destruct (matured q k).
  - assert (Hmq : matured q h = true) by now apply (Hm q h Hh).
    split.
    + rewrite (CancelVoteCreditToBalance_total addr q st2 s Hs), Hcm.
      now rewrite sumMatured_singleton, Hmq.
    + apply map_eq. intros k.
      rewrite (CancelVoteCreditToBalance_pending addr q st2 s k Hs), Hcm.
      rewrite lookup_empty.
      destruct (decide (k = h)) as [->|Hne].
      * now rewrite Hmq.
      * rewrite lookup_singleton_ne by congruence. now destruct (matured q k).
Qed.

Lemma stake_round_trip_witness :
  exists st2,
    CancelVoteCredit 7%N None 500 40%N (VoteCredit 7%N None 500 emptyStore)
      = Returned None st2
    /\ selfStake 7%N st2 = 0
    /\ fst (CancelVoteCreditToBalance 7%N 139%N st2) = 0
    /\ fst (CancelVoteCreditToBalance 7%N 140%N st2) = 500.
Proof.
  destruct (stake_round_trip 7%N 40%N 500 500 emptyStore)
    as (st2 & Hret & Hself & Hbefore & Hafter);
    [reflexivity | lia | reflexivity | ].
  exists st2. split; [exact Hret | ]. split; [exact Hself | ].
  split.
  - apply (Hbefore 139%N). reflexivity.
  - apply (Hafter 140%N). discriminate.
Defined.

End StakeStore.

(** ** store/storage.go *)

Module Store.

(** [bean.Address] is a string (the hex form of an address). *)
Abbreviation Address := string.

(** [big.NewInt(0).SetBytes(b)]: the bytes read as a big-endian natural
    number. *)
Definition SetBytes (b : list byte) : Z :=
  fold_left (fun acc x => acc * 256 + Z.of_N (Byte.to_N x)) b 0.

(** [bean.TransactionData], the fields the executor reads ([TxType] is the
    field [Type]), and
    [bean.Transaction]; [tAddr] is the sender [t.Addr()], which the source
    derives from the public key of the transaction. *)
Record TransactionData := mkTransactionData {
  Nonce : Z;
  GasPrice : list byte;
  GasLimit : list byte;
  Amount : list byte;
  TxType : Z;
  To : Address;
  Data : string
}.

Record Transaction := mkTransaction {
  tData : TransactionData;
  tAddr : Address
}.

Record BlockHeader := mkBlockHeader { Height : Z }.

Record BlockData := mkBlockData { TxList : option (list Transaction) }.

Record Block := mkBlock {
  Header : option BlockHeader;
  bData : option BlockData
}.

(** The state the file works on: its package variables [balances] and
    [nonces], and what it keeps through package [database]. *)
Record State := mkState {
  balances : gmap string Z;
  nonces : gmap string Z;
  dbBalances : gmap string Z;
  dbNonces : gmap string Z;
  dbMaxHeight : Z;
  dbBlocks : list Block;
  miners : list Address
}.

(** A map from addresses to [*big.Int] holds one cell per entry and hands
    out the pointer to it; nothing else shares a cell, so a [Sub] or [Add]
    through the pointer is an update of the entry.  Reading an absent entry
    creates the cell, with value zero. *)
Definition getCell (addr : Address) (m : gmap string Z) : Z * gmap string Z :=
  match m !! addr with
  | Some balance => (balance, m)
  | None => (0, <[addr := 0]> m)
  end.

Definition withBalances (m : gmap string Z) (st : State) : State :=
  {| balances := m; nonces := nonces st; dbBalances := dbBalances st;
     dbNonces := dbNonces st; dbMaxHeight := dbMaxHeight st;
     dbBlocks := dbBlocks st; miners := miners st |}.

Definition withNonces (m : gmap string Z) (st : State) : State :=
  {| balances := balances st; nonces := m; dbBalances := dbBalances st;
     dbNonces := dbNonces st; dbMaxHeight := dbMaxHeight st;
     dbBlocks := dbBlocks st; miners := miners st |}.

Definition withDbBalances (m : gmap string Z) (st : State) : State :=
  {| balances := balances st; nonces := nonces st; dbBalances := m;
     dbNonces := dbNonces st; dbMaxHeight := dbMaxHeight st;
     dbBlocks := dbBlocks st; miners := miners st |}.

Definition withDbNonces (m : gmap string Z) (st : State) : State :=
  {| balances := balances st; nonces := nonces st; dbBalances := dbBalances st;
     dbNonces := m; dbMaxHeight := dbMaxHeight st;
     dbBlocks := dbBlocks st; miners := miners st |}.

(** [GetBalance]. *)
Definition GetBalance (addr : Address) (st : State) : Z * State :=
  match balances st !! addr with
  | Some balance => (balance, st)
  | None => (0, withBalances (<[addr := 0]> (balances st)) st)
  end.

(** [GetNonce]: the zero value of the map for an absent address. *)
Definition GetNonce (addr : Address) (st : State) : Z :=
  default 0 (nonces st !! addr).

(** [addNonce]. *)
Definition addNonce (addr : Address) (st : State) : State :=
  match nonces st !! addr with
  | Some value =>
      if 0 <=? value
      then withNonces (<[addr := i64 (value + 1)]> (nonces st)) st
      else withNonces (<[addr := 1]> (nonces st)) st
  | None => withNonces (<[addr := 1]> (nonces st)) st
  end.

(** Modelled from the spec: [database.GetNonce], [database.PutNonce] and
    [database.GetBalance], which [execute] calls, are not among the source
    files.  Following the state view of section 4.C ([get_nonce],
    [set_nonce], [get_balance]) an account that was never written has nonce
    zero and balance zero; [database.GetBalance] hands out the balance cell
    of the account, as [GetBalance] of this file does, which is what makes
    the [Sub] and [Add] of [execute] changes of the account. *)
Definition dbGetNonce (addr : Address) (st : State) : Z :=
  default 0 (dbNonces st !! addr).

Definition dbPutNonce (addr : Address) (n : Z) (st : State) : State :=
  withDbNonces (<[addr := n]> (dbNonces st)) st.

Definition dbGetBalance (addr : Address) (st : State) : Z * State :=
  let '(balance, m) := getCell addr (dbBalances st) in
  (balance, withDbBalances m st).

(** The value of the balance cell of an account, without creating it. *)
Definition balanceOf (addr : Address) (st : State) : Z :=
  default 0 (dbBalances st !! addr).

(** A write through the pointer [database.GetBalance] returned. *)
Definition setCell (addr : Address) (v : Z) (st : State) : State :=
  withDbBalances (<[addr := v]> (dbBalances st)) st.

(** Modelled from the spec: [AddMiner] is not among the source files; it
    records the address as a miner. *)
Definition AddMiner (addr : Address) (st : State) : State :=
  {| balances := balances st; nonces := nonces st; dbBalances := dbBalances st;
     dbNonces := dbNonces st; dbMaxHeight := dbMaxHeight st;
     dbBlocks := dbBlocks st; miners := miners st ++ [addr] |}.

(** What a call of [execute] leaves behind: [nil] for a nonce that does not
    fit, the end of the process at [log.Fatal], or the gas fee. *)
Inductive result :=
  | Rejected (st : State)
  | Fatal (st : State)
  | Charged (gasFee : Z) (st : State).

Definition stateOf (r : result) : State :=
  match r with Rejected st => st | Fatal st => st | Charged _ st => st end.

Section Executor.

(** The transaction types and gas amounts are package variables declared
    in files that are not among the sources. *)
Variables (TransferType MinerType : Z) (TransferGas MinerGas : Z).

(** [execute]. *)
Definition execute (t : Transaction) (st : State) : result :=
  let addr := tAddr t in
  let nonce := Nonce (tData t) in
  let curN := dbGetNonce addr st in
  if negb (i64 (curN + 1) =? nonce) then Rejected st
  else
    let st := dbPutNonce addr (i64 (curN + 1)) st in
    let gasPrice := SetBytes (GasPrice (tData t)) in
    let gasLimit := SetBytes (GasLimit (tData t)) in
    let gasFee := gasLimit * gasPrice in
    let '(balance, st) := dbGetBalance addr st in
    if balance <? gasFee then Fatal st
    else if TxType (tData t) =? TransferType then
      if gasLimit <? TransferGas then
        Charged gasFee (setCell addr (balance - gasFee) st)
      else
        let amount := SetBytes (Amount (tData t)) in
        let total := amount + gasFee in
        if total <=? balance then
          let st := setCell addr (balance - total) st in
          let '(balance2, st) := dbGetBalance (To (tData t)) st in
          Charged gasFee (setCell (To (tData t)) (balance2 + amount) st)
        else
          Charged gasFee (setCell addr (balance - gasFee) st)
    else if TxType (tData t) =? MinerType then
      if gasLimit <? MinerGas then
        Charged gasFee (setCell addr (balance - gasFee) st)
      else
        Charged gasFee (AddMiner (Data (tData t)) (setCell addr (balance - gasFee) st))
    else Charged gasFee st.

(** A run of the executor: the fees added up, the state reached, and
    whether [log.Fatal] ended the process.  [runAccepted] lists the
    transactions for which [execute] returned a fee, in the order of their
    execution; the code does not compute it, it is there to state
    properties of a run. *)
Record run := mkRun {
  runAccepted : list Transaction;
  runTotal : Z;
  runState : State;
  runFatal : bool
}.

(** The loop of [ExecuteTransactions] over the transactions of a block. *)
Fixpoint executeList (txs : list Transaction) (st : State) : run :=
  match txs with
  | [] => mkRun [] 0 st false
  | t :: rest =>
      match execute t st with
      | Rejected st' => executeList rest st'
      | Fatal st' => mkRun [] 0 st' true
      | Charged gasFee st' =>
          let r := executeList rest st' in
          mkRun (t :: runAccepted r) (gasFee + runTotal r) (runState r) (runFatal r)
      end
  end.

(** Modelled from the spec: [database.GetMaxHeight], [database.PutMaxHeight]
    and [database.PutBlock] are not among the source files; the block store
    of section 4.D keeps the blocks and the greatest height.  The removal of
    an executed transaction from the pool leaves the state of this file
    alone. *)
Definition dbPutBlock (height : Z) (b : Block) (st : State) : State :=
  {| balances := balances st; nonces := nonces st; dbBalances := dbBalances st;
     dbNonces := dbNonces st; dbMaxHeight := height;
     dbBlocks := dbBlocks st ++ [b]; miners := miners st |}.

(** [ExecuteTransactions]: [None] in [runTotal]'s place is the nil result,
    which the run records as a total of zero with nothing accepted. *)
Definition ExecuteTransactions (b : option Block) (st : State) : option Z * run :=
  match b with
  | None => (None, mkRun [] 0 st false)
  | Some blk =>
      match Header blk with
      | None => (None, mkRun [] 0 st false)
      | Some header =>
          if negb (i64 (dbMaxHeight st + 1) =? Height header)
          then (None, mkRun [] 0 st false)
          else
            let st := dbPutBlock (Height header) blk st in
            match bData blk with
            | None => (Some 0, mkRun [] 0 st false)
            | Some data =>
                match TxList data with
                | None => (Some 0, mkRun [] 0 st false)
                | Some txs =>
                    let r := executeList txs st in
                    (Some (runTotal r), r)
                end
            end
      end
  end.

(** The blocks of a chain executed one after the other, as long as the
    process lives. *)
Fixpoint executeChain (blocks : list Block) (st : State) : run :=
  match blocks with
  | [] => mkRun [] 0 st false
  | b :: rest =>
      let r := snd (ExecuteTransactions (Some b) st) in
      if runFatal r then r
      else
        let r' := executeChain rest (runState r) in
        mkRun (runAccepted r ++ runAccepted r') (runTotal r + runTotal r')
              (runState r') (runFatal r')
  end.

(** The nonces of the transactions of a sender among a list. *)
Definition noncesOf (sender : Address) (txs : list Transaction) : list Z :=
  map (fun t => Nonce (tData t))
      (filter (fun t => tAddr t = sender) txs).

(** What the recipient of a transaction gained between two states (zero
    when the sender is the recipient), and what the sender lost beyond
    that: the charge for gas. *)
Definition received (t : Transaction) (st st' : State) : Z :=
  if decide (To (tData t) = tAddr t) then 0
  else balanceOf (To (tData t)) st' - balanceOf (To (tData t)) st.

Definition gasCharge (t : Transaction) (st st' : State) : Z :=
  balanceOf (tAddr t) st - balanceOf (tAddr t) st' - received t st st'.

(** [params.Coin], [1e18]. *)
Definition UNIT : Z := 1000000000000000000.

(** The number of transactions in the blocks of a chain. *)
Definition txCount (blocks : list Block) : nat :=
  length (concat (map (fun b =>
    match bData b with
    | Some data => default [] (TxList data)
    | None => []
    end) blocks)).

(** [countFrom n k] is [n + 1; n + 2; ...; n + k]. *)
Fixpoint countFrom (n : Z) (k : nat) : list Z :=
  match k with
  | O => []
  | S k' => (n + 1) :: countFrom (n + 1) k'
  end.

(** *** The nonce gate of [execute] *)

Lemma dbGetNonce_dbGetBalance a b st :
  dbGetNonce a (snd (dbGetBalance b st)) = dbGetNonce a st.
Proof. unfold dbGetBalance, getCell. now destruct (dbBalances st !! b). Qed.

Lemma dbNonces_dbGetBalance b st :
  dbNonces (snd (dbGetBalance b st)) = dbNonces st.
Proof. unfold dbGetBalance, getCell. now destruct (dbBalances st !! b). Qed.

(** [execute] writes the nonce of the sender when the nonce of the
    transaction fits and writes no nonce otherwise. *)
Lemma execute_dbNonces t st :
  dbNonces (stateOf (execute t st))
  = if i64 (dbGetNonce (tAddr t) st + 1) =? Nonce (tData t)
    then <[tAddr t := Nonce (tData t)]> (dbNonces st)
    else dbNonces st.
Proof.
  unfold execute.
  destruct (i64 (dbGetNonce (tAddr t) st + 1) =? Nonce (tData t)) eqn:Hg;
    simpl; [ | reflexivity].
  apply Z.eqb_eq in Hg. rewrite Hg.
  pose proof (dbNonces_dbGetBalance (tAddr t)
                (dbPutNonce (tAddr t) (Nonce (tData t)) st)) as Hn.
  destruct (dbGetBalance (tAddr t) (dbPutNonce (tAddr t) (Nonce (tData t)) st))
    as [balance st1]. simpl in Hn.
  repeat match goal with
         | |- context [if ?c then _ else _] => destruct c
         end; simpl; try exact Hn.
  pose proof (dbNonces_dbGetBalance (To (tData t))
                (setCell (tAddr t)
                   (balance - (SetBytes (Amount (tData t))
                               + SetBytes (GasLimit (tData t))
                                 * SetBytes (GasPrice (tData t)))) st1)) as Hn2.
  destruct (dbGetBalance (To (tData t)) _) as [balance2 st2].
  simpl in *. rewrite Hn2. exact Hn.
Qed.

Lemma execute_rejected t st :
  (i64 (dbGetNonce (tAddr t) st + 1) =? Nonce (tData t)) = false ->
  execute t st = Rejected st.
Proof. intros Hg. unfold execute. now rewrite Hg. Qed.

Lemma execute_not_rejected t st st' :
  (i64 (dbGetNonce (tAddr t) st + 1) =? Nonce (tData t)) = true ->
  execute t st <> Rejected st'.
Proof.
  intros Hg. unfold execute. rewrite Hg. simpl.
  destruct (dbGetBalance (tAddr t) _) as [balance st1].
  repeat match goal with
         | |- context [if ?c then _ else _] => destruct c
         end; try discriminate.
  destruct (dbGetBalance (To (tData t)) _). discriminate.
Qed.

Lemma dbGetNonce_execute_sender t st :
  (i64 (dbGetNonce (tAddr t) st + 1) =? Nonce (tData t)) = true ->
  dbGetNonce (tAddr t) (stateOf (execute t st)) = Nonce (tData t).
Proof.
  intros Hg. unfold dbGetNonce at 1. rewrite execute_dbNonces, Hg.
  now rewrite lookup_insert_eq.
Qed.

Lemma dbGetNonce_execute_other t st S :
  tAddr t <> S ->
  dbGetNonce S (stateOf (execute t st)) = dbGetNonce S st.
Proof.
  intros Hne. unfold dbGetNonce. rewrite execute_dbNonces.
  destruct (_ =? _); [ | reflexivity]. now rewrite lookup_insert_ne.
Qed.

(** *** The nonces of the transactions a run accepts *)

Lemma noncesOf_cons_eq t acc :
  noncesOf (tAddr t) (t :: acc) = Nonce (tData t) :: noncesOf (tAddr t) acc.
Proof.
  unfold noncesOf. now rewrite filter_cons_True.
Qed.

Lemma noncesOf_cons_ne S t acc :
  tAddr t <> S -> noncesOf S (t :: acc) = noncesOf S acc.
Proof.
  intros Hne. unfold noncesOf. now rewrite filter_cons_False.
Qed.

Lemma noncesOf_app S l1 l2 :
  noncesOf S (l1 ++ l2) = noncesOf S l1 ++ noncesOf S l2.
Proof. unfold noncesOf. now rewrite filter_app, map_app. Qed.

Lemma countFrom_app n k1 k2 :
  countFrom n (k1 + k2) = countFrom n k1 ++ countFrom (n + Z.of_nat k1) k2.
Proof.
  revert n. induction k1 as [|k1 IH]; intros n; simpl.
  - f_equal. lia.
  - rewrite IH. do 3 f_equal. lia.
Qed.

Lemma countFrom_length n k : length (countFrom n k) = k.
Proof. revert n. induction k; intros; simpl; auto. Qed.

Lemma countFrom_lookup n k (i : nat) :
  (i < k)%nat -> countFrom n k !! i = Some (n + Z.of_nat i + 1).
Proof.
  revert n i. induction k as [|k IH]; intros n i Hi; [lia | ].
  destruct i as [|i]; simpl.
  - f_equal. lia.
  - rewrite IH by lia. f_equal. lia.
Qed.

(** From a state in which the sender has nonce [n], a run over [txs]
    accepts of that sender the nonces [n + 1, n + 2, ...] in this order,
    and leaves the nonce at the last of them unless the process ended. *)
Lemma executeList_nonces S txs : forall st n,
  dbGetNonce S st = n -> 0 <= n ->
  n + Z.of_nat (length txs) <= int64_max ->
  let r := executeList txs st in
  let k := length (noncesOf S (runAccepted r)) in
  noncesOf S (runAccepted r) = countFrom n k
  /\ (k <= length txs)%nat
  /\ (runFatal r = false -> dbGetNonce S (runState r) = n + Z.of_nat k).
Proof.
  induction txs as [|t txs IH]; intros st n Hn Hn0 Hb; cbv zeta.
  - simpl. repeat split; [lia | intros _; lia].
  - simpl in Hb. simpl executeList.
    destruct (i64 (dbGetNonce (tAddr t) st + 1) =? Nonce (tData t)) eqn:Hg.
    + pose proof (dbGetNonce_execute_sender t st Hg) as Hs.
      pose proof (fun S' H => dbGetNonce_execute_other t st S' H) as Ho.
      pose proof (fun st' => execute_not_rejected t st st' Hg) as Hnr.
      destruct (execute t st) as [st'|st'|fee st'] eqn:He; simpl in *.
      * now destruct (Hnr st').
      * repeat split; [lia | discriminate].
      * destruct (decide (tAddr t = S)) as [<-|Hne].
        -- apply Z.eqb_eq in Hg. rewrite Hn in Hg.
           rewrite i64_id in Hg by (unfold int64_min, int64_max in *; lia).
           destruct (IH st' (n + 1)) as (Hacc & Hk & Hfin);
             [congruence | lia | lia | ].
           rewrite noncesOf_cons_eq. simpl. rewrite <- Hg.
           repeat split.
           ++ f_equal. exact Hacc.
           ++ lia.
           ++ intros Hf. rewrite (Hfin Hf). lia.
        -- destruct (IH st' n) as (Hacc & Hk & Hfin);
             [rewrite Ho by exact Hne; exact Hn | lia | lia | ].
           rewrite noncesOf_cons_ne by exact Hne.
           repeat split; [exact Hacc | lia | exact Hfin].
    + rewrite (execute_rejected t st Hg).
      destruct (IH st n) as (Hacc & Hk & Hfin); [exact Hn | lia | lia | ].
      repeat split; [exact Hacc | simpl; lia | exact Hfin].
Qed.

Lemma ExecuteTransactions_nonces S blk st n :
  dbGetNonce S st = n -> 0 <= n ->
  n + Z.of_nat (txCount [blk]) <= int64_max ->
  let r := snd (ExecuteTransactions (Some blk) st) in
  let k := length (noncesOf S (runAccepted r)) in
  noncesOf S (runAccepted r) = countFrom n k
  /\ (k <= txCount [blk])%nat
  /\ (runFatal r = false -> dbGetNonce S (runState r) = n + Z.of_nat k).
Proof.
  intros Hn Hn0 Hb. cbv zeta. unfold ExecuteTransactions.
  unfold txCount in *. simpl in Hb. rewrite app_nil_r in Hb.
  simpl concat. rewrite app_nil_r.
  assert (Htriv : forall st0, dbGetNonce S st0 = n ->
            noncesOf S [] = countFrom n 0
            /\ (0 <= length (match bData blk with
                             | Some data => default [] (TxList data)
                             | None => []
                             end))%nat
            /\ (false = false -> dbGetNonce S st0 = n + Z.of_nat 0)).
  { intros st0 H0. repeat split; [lia | intros _; lia]. }
  destruct (Header blk) as [header|]; [ | apply Htriv, Hn].
  destruct (negb _); [apply Htriv, Hn | ].
  destruct (bData blk) as [data|]; [ | apply Htriv, Hn].
  destruct (TxList data) as [txs|]; [ | apply Htriv, Hn].
  simpl in *. apply executeList_nonces; [exact Hn | exact Hn0 | exact Hb].
Qed.

Lemma txCount_cons b blocks :
  txCount (b :: blocks) = (txCount [b] + txCount blocks)%nat.
Proof. unfold txCount. simpl. rewrite app_nil_r. apply length_app. Qed.

Lemma executeChain_cons b blocks st :
  executeChain (b :: blocks) st
  = let r := snd (ExecuteTransactions (Some b) st) in
    if runFatal r then r
    else
      let r' := executeChain blocks (runState r) in
      mkRun (runAccepted r ++ runAccepted r') (runTotal r + runTotal r')
            (runState r') (runFatal r').
Proof. reflexivity. Qed.

Lemma executeChain_nonces S blocks : forall st n,
  dbGetNonce S st = n -> 0 <= n ->
  n + Z.of_nat (txCount blocks) <= int64_max ->
  let r := executeChain blocks st in
  let k := length (noncesOf S (runAccepted r)) in
  noncesOf S (runAccepted r) = countFrom n k
  /\ (k <= txCount blocks)%nat
  /\ (runFatal r = false -> dbGetNonce S (runState r) = n + Z.of_nat k).
Proof.
  induction blocks as [|b blocks IH]; intros st n Hn Hn0 Hb; cbv zeta.
  - simpl. repeat split; [lia | intros _; lia].
  - rewrite txCount_cons in *. rewrite executeChain_cons. cbv zeta.
    destruct (ExecuteTransactions_nonces S b st n Hn Hn0) as (Hacc & Hk & Hfin);
      [lia | ].
    destruct (runFatal (snd (ExecuteTransactions (Some b) st))) eqn:Hf.
    + repeat split; [exact Hacc | lia | ]. rewrite Hf. discriminate.
    + specialize (Hfin eq_refl).
      destruct (IH (runState (snd (ExecuteTransactions (Some b) st)))
                   (n + Z.of_nat (length (noncesOf S
                      (runAccepted (snd (ExecuteTransactions (Some b) st)))))))
        as (Hacc' & Hk' & Hfin'); [exact Hfin | lia | lia | ].
      cbn [runAccepted runState runFatal].
      rewrite noncesOf_app, length_app.
      repeat split.
      * rewrite countFrom_app. rewrite <- Hacc, <- Hacc'. reflexivity.
      * lia.
      * intros Hf'. rewrite (Hfin' Hf'). lia.
Qed.

(** C3.  [execute] leaves the state alone and returns nil unless the nonce
    of the transaction is the stored nonce of its sender plus one (the
    [curN + 1] of the source, an [int64] sum, which is the sum of the
    integers below the greatest [int64]), and when it is, the stored nonce
    of the sender becomes the nonce of the transaction; so along a chain
    executed from a state in which a sender has nonce zero, the nonces of
    the accepted transactions of that sender are [1; 2; ...; k], in this
    order.  (The chain has fewer than [2^63] transactions.) *)
Theorem nonce_discipline :
  (forall t st,
     (Nonce (tData t) <> i64 (dbGetNonce (tAddr t) st + 1) /\
      execute t st = Rejected st)
     \/ (Nonce (tData t) = i64 (dbGetNonce (tAddr t) st + 1) /\
         (forall st', execute t st <> Rejected st') /\
         dbGetNonce (tAddr t) (stateOf (execute t st)) = Nonce (tData t)))
  /\ (forall n, int64_min <= n < int64_max -> i64 (n + 1) = n + 1)
  /\ (forall blocks S st,
        dbGetNonce S st = 0 ->
        Z.of_nat (txCount blocks) <= int64_max ->
        let acc := noncesOf S (runAccepted (executeChain blocks st)) in
        acc = countFrom 0 (length acc)
        /\ forall i : nat, (i < length acc)%nat -> acc !! i = Some (Z.of_nat i + 1)).
Proof.
  split; [ | split].
  - intros t st.
    destruct (i64 (dbGetNonce (tAddr t) st + 1) =? Nonce (tData t)) eqn:Hg.
    + right. split; [ | split].
      * apply Z.eqb_eq in Hg. congruence.
      * intros st'. now apply execute_not_rejected.
      * now apply dbGetNonce_execute_sender.
    + left. split; [ | now apply execute_rejected].
      apply Z.eqb_neq in Hg. congruence.
  - intros n Hn. apply i64_id. unfold int64_min, int64_max in *. lia.
  - intros blocks S st Hn Hb. cbv zeta.
    destruct (executeChain_nonces S blocks st 0 Hn) as (Hacc & _ & _);
      [lia | lia | ].
    split; [exact Hacc | ].
    intros i Hi. rewrite Hacc. rewrite countFrom_lookup.
    + f_equal; lia.
    + exact Hi.
Qed.

(** *** The charge for gas *)

Ltac case_cell :=
  match goal with
  | |- context [getCell ?a ?m] =>
      unfold getCell at 1; destruct (m !! a) eqn:?; simpl
  | H : context [getCell ?a ?m] |- _ =>
      unfold getCell in H at 1; destruct (m !! a) eqn:?; simpl in H
  end.

Ltac case_if H :=
  match type of H with
  | context [if ?c then _ else _] => destruct c eqn:?; simpl in H
  end.

(** A charged transfer or miner transaction costs its sender the whole of
    [gasLimit * gasPrice]. *)
Lemma execute_charge t st gasFee st' :
  execute t st = Charged gasFee st' ->
  gasFee = SetBytes (GasLimit (tData t)) * SetBytes (GasPrice (tData t))
  /\ (TxType (tData t) = TransferType \/ TxType (tData t) = MinerType ->
      gasCharge t st st' = gasFee).
Proof.
  unfold execute, dbGetBalance. intros He.
  case_if He; [discriminate | ].
  case_cell; (case_if He; [discriminate | ]).
  all: unfold gasCharge, received, balanceOf.
  all: repeat (first [case_if He | case_cell]).
  all: inversion He; subst; clear He.
  all: split; [reflexivity | intros [Hty|Hty]].
  all: repeat match goal with
              | H : (_ =? _) = true |- _ => apply Z.eqb_eq in H
              | H : (_ =? _) = false |- _ => apply Z.eqb_neq in H
              end; try congruence.
  all: unfold setCell, dbPutNonce, AddMiner, withDbBalances, withDbNonces in *;
       simpl in *.
  all: case_decide;
       try match goal with H : To _ = tAddr _ |- _ => rewrite H in * end;
       simplify_map_eq; try lia.
Qed.

(** A transaction of any other type is not debited at all. *)
Lemma execute_other_type t st gasFee st' :
  execute t st = Charged gasFee st' ->
  TxType (tData t) <> TransferType -> TxType (tData t) <> MinerType ->
  balanceOf (tAddr t) st' = balanceOf (tAddr t) st.
Proof.
  unfold execute, dbGetBalance. intros He Ht Hm.
  apply Z.eqb_neq in Ht, Hm. rewrite Ht, Hm in He.
  case_if He; [discriminate | ].
  case_cell; (case_if He; [discriminate | ]); inversion He; subst;
    unfold balanceOf, dbPutNonce; simpl; simplify_map_eq; reflexivity.
Qed.

(** The transfer of scenario E1. *)
Lemma execute_E1 (A B : Address) t st :
  A <> B ->
  tAddr t = A -> To (tData t) = B -> TxType (tData t) = TransferType ->
  Nonce (tData t) = 1 ->
  SetBytes (GasPrice (tData t)) = 1 ->
  SetBytes (GasLimit (tData t)) = 21000 ->
  SetBytes (Amount (tData t)) = 100 * UNIT ->
  TransferGas <= 21000 ->
  balanceOf A st = 1000 * UNIT -> balanceOf B st = 0 -> dbGetNonce A st = 0 ->
  exists st', execute t st = Charged 21000 st'
    /\ balanceOf A st' = 1000 * UNIT - 100 * UNIT - 21000
    /\ balanceOf B st' = 100 * UNIT
    /\ dbGetNonce A st' = 1.
Proof.
  intros Hne HA HB Hty Hn Hp Hl Ha Hg HbA HbB HnA.
  unfold execute, dbGetBalance, getCell.
  rewrite HA, HB, Hty, Hn, Hp, Hl, Ha, HnA. simpl.
  rewrite Z.eqb_refl. unfold balanceOf, dbGetNonce, UNIT in *.
  destruct (dbBalances st !! A) as [bA|] eqn:EA; simpl in HbA;
    [subst bA | discriminate].
  assert (Hlt : (21000 <? TransferGas) = false) by (apply Z.ltb_ge; lia).
  cbn [negb]. cbn iota. rewrite Hlt. cbn [dbBalances withDbBalances setCell].
  rewrite lookup_insert_ne by exact Hne.
  destruct (dbBalances st !! B) as [bB|] eqn:EB; simpl in HbB;
    [subst bB | ]; cbn iota.
  all: eexists; split; [reflexivity | ].
  all: cbn [dbBalances dbNonces withDbBalances withDbNonces setCell dbPutNonce].
  all: simplify_map_eq; repeat split; reflexivity.
Qed.

(** C5 (as amended).  [execute] refunds nothing: every charged transfer or
    miner transaction costs its sender the full [gasLimit * gasPrice], which
    is the fee [execute] returns, and a transaction of another type is not
    debited.  In scenario E1 (gas price [1], gas limit
    [21000], a transfer gas of at most [21000]) the sender ends with
    [1000 UNIT - 100 UNIT - 21000], the recipient with [100 UNIT], and the
    nonce of the sender is [1]. *)
Theorem gas_charged_in_full :
  (forall t st gasFee st',
     execute t st = Charged gasFee st' ->
     TxType (tData t) = TransferType \/ TxType (tData t) = MinerType ->
     gasFee = SetBytes (GasLimit (tData t)) * SetBytes (GasPrice (tData t))
     /\ gasCharge t st st'
        = SetBytes (GasLimit (tData t)) * SetBytes (GasPrice (tData t)))
  /\ (forall t st gasFee st',
        execute t st = Charged gasFee st' ->
        TxType (tData t) <> TransferType -> TxType (tData t) <> MinerType ->
        balanceOf (tAddr t) st' = balanceOf (tAddr t) st)
  /\ (forall (A B : Address) t st,
        A <> B ->
        tAddr t = A -> To (tData t) = B -> TxType (tData t) = TransferType ->
        Nonce (tData t) = 1 ->
        SetBytes (GasPrice (tData t)) = 1 ->
        SetBytes (GasLimit (tData t)) = 21000 ->
        SetBytes (Amount (tData t)) = 100 * UNIT ->
        TransferGas <= 21000 ->
        balanceOf A st = 1000 * UNIT -> balanceOf B st = 0 ->
        dbGetNonce A st = 0 ->
        exists st', execute t st = Charged 21000 st'
          /\ balanceOf A st' = 1000 * UNIT - 100 * UNIT - 21000
          /\ balanceOf B st' = 100 * UNIT
          /\ dbGetNonce A st' = 1).
Proof.
  split; [ | split].
  - intros t st gasFee st' He Hty.
    destruct (execute_charge t st gasFee st' He) as [Hfee Hcharge].
    split; [exact Hfee | ]. rewrite <- Hfee. now apply Hcharge.
  - apply execute_other_type.
  - apply execute_E1.
Qed.

(** *** What a transaction does to the balances *)

(** The fee of a transaction, [gasLimit * gasPrice], and its amount. *)
Definition gasFeeOf (t : Transaction) : Z :=
  SetBytes (GasLimit (tData t)) * SetBytes (GasPrice (tData t)).

Definition amountOf (t : Transaction) : Z := SetBytes (Amount (tData t)).

(** Whether a transfer moves its amount: the gas limit reaches
    [TransferGas] and the sender owns the amount and the fee. *)
Definition pays (t : Transaction) (st : State) : bool :=
  (TransferGas <=? SetBytes (GasLimit (tData t)))
  && (amountOf t + gasFeeOf t <=? balanceOf (tAddr t) st).

Lemma SetBytes_nonneg (b : list byte) : 0 <= SetBytes b.
Proof.
  unfold SetBytes.
  assert (H : forall acc, 0 <= acc ->
            0 <= fold_left (fun acc x => acc * 256 + Z.of_N (Byte.to_N x)) b acc).
  { induction b as [|x b IH]; intros acc Hacc; simpl; [exact Hacc | ].
    apply IH. lia. }
  apply H. lia.
Qed.

Lemma execute_transfer_balances t st :
  i64 (dbGetNonce (tAddr t) st + 1) = Nonce (tData t) ->
  TxType (tData t) = TransferType ->
  gasFeeOf t <= balanceOf (tAddr t) st ->
  exists st',
    execute t st = Charged (gasFeeOf t) st'
    /\ forall a,
         balanceOf a st'
         = balanceOf a st
           - (if decide (a = tAddr t)
              then gasFeeOf t + (if pays t st then amountOf t else 0) else 0)
           + (if decide (a = To (tData t))
              then (if pays t st then amountOf t else 0) else 0).
Proof.
  intros Hn Hty Hfee.
  unfold execute, dbGetBalance, pays, gasFeeOf, amountOf, balanceOf in *.
  rewrite Hn, Z.eqb_refl, Hty, Z.eqb_refl. cbn [negb].
  unfold getCell at 1. cbn [dbBalances dbPutNonce withDbNonces].
  destruct (dbBalances st !! tAddr t) as [bal|] eqn:Eb;
    cbn [default from_option id] in *.
  all: match goal with
       | |- context [if ?b <? ?f then Fatal _ else _] =>
           destruct (Z.ltb_spec b f) as [Hlt|Hge]; [lia | ]
       end.
  all: destruct (Z.ltb_spec (SetBytes (GasLimit (tData t))) TransferGas) as [Hl|Hl];
       [ assert (Hp : (TransferGas <=? SetBytes (GasLimit (tData t))) = false)
           by (apply Z.leb_gt; lia)
       | assert (Hp : (TransferGas <=? SetBytes (GasLimit (tData t))) = true)
           by (apply Z.leb_le; lia) ];
       rewrite Hp; cbn [andb].
  all: try match goal with
       | |- context [?x <=? ?y] => destruct (Z.leb_spec x y)
       end.
  all: try (unfold getCell; cbn [dbBalances setCell withDbBalances];
            destruct (decide (To (tData t) = tAddr t)) as [Ht|Ht];
            [ rewrite Ht, lookup_insert_eq
            | rewrite !lookup_insert_ne by congruence;
              destruct (dbBalances st !! To (tData t)) eqn:Et ]).
  all: eexists; split; [reflexivity | ].
  all: intros a; cbn [dbBalances setCell withDbBalances dbPutNonce withDbNonces].
  all: repeat case_decide; subst; simplify_map_eq; try lia; try congruence.
Qed.

(** X7.  For a transfer whose nonce fits and whose sender owns the fee,
    [execute] returns the fee; the sender loses the fee; and the amount
    moves from the sender to the recipient when the gas limit reaches
    [TransferGas] and the sender owns amount and fee, and does not move
    otherwise.  No other balance changes. *)
Theorem execute_transfer t st :
  i64 (dbGetNonce (tAddr t) st + 1) = Nonce (tData t) ->
  TxType (tData t) = TransferType ->
  gasFeeOf t <= balanceOf (tAddr t) st ->
  exists st',
    execute t st = Charged (gasFeeOf t) st'
    /\ forall a,
         balanceOf a st'
         = balanceOf a st
           - (if decide (a = tAddr t)
              then gasFeeOf t + (if pays t st then amountOf t else 0) else 0)
           + (if decide (a = To (tData t))
              then (if pays t st then amountOf t else 0) else 0).
Proof. exact (execute_transfer_balances t st). Qed.

(** *** The three outcomes of [execute] *)

Lemma execute_cases t st :
  match execute t st with
  | Rejected st' =>
      i64 (dbGetNonce (tAddr t) st + 1) <> Nonce (tData t) /\ st' = st
  | Fatal st' =>
      i64 (dbGetNonce (tAddr t) st + 1) = Nonce (tData t)
      /\ balanceOf (tAddr t) st < gasFeeOf t
      /\ dbGetNonce (tAddr t) st' = Nonce (tData t)
      /\ (forall a, balanceOf a st' = balanceOf a st)
      /\ miners st' = miners st
  | Charged gasFee st' =>
      i64 (dbGetNonce (tAddr t) st + 1) = Nonce (tData t)
      /\ gasFeeOf t <= balanceOf (tAddr t) st
      /\ gasFee = gasFeeOf t
      /\ dbGetNonce (tAddr t) st' = Nonce (tData t)
  end.
Proof.
  destruct (Z.eqb_spec (i64 (dbGetNonce (tAddr t) st + 1)) (Nonce (tData t)))
    as [Hn|Hn];
    [ | rewrite execute_rejected by (now apply Z.eqb_neq); now split].
  pose proof (dbGetNonce_execute_sender t st) as Hs.
  pose proof (fun st' => execute_not_rejected t st st') as Hnr.
  rewrite Hn, Z.eqb_refl in Hs, Hnr. specialize (Hs eq_refl).
  destruct (execute t st) as [st'|st'|fee st'] eqn:He; cbn [stateOf] in Hs.
  - now destruct (Hnr st' eq_refl).
  - split; [exact Hn | ].
    unfold execute, dbGetBalance in He. rewrite Hn, Z.eqb_refl in He.
    cbn [negb] in He. unfold gasFeeOf, balanceOf.
    unfold getCell in He at 1. cbn [dbBalances dbPutNonce withDbNonces] in He.
    destruct (dbBalances st !! tAddr t) as [bal|] eqn:Eb;
      cbn [default from_option id].
    all: match type of He with
         | context [if ?b <? ?f then Fatal _ else _] =>
             destruct (Z.ltb_spec b f) as [Hlt|Hge]
         end.
    all: try (inversion He; subst st'; repeat split; try assumption;
              intros a; cbn [dbBalances withDbBalances];
              destruct (decide (a = tAddr t)) as [->|Hne];
              simplify_map_eq; reflexivity).
    all: repeat case_if He; try discriminate.
    all: destruct (getCell _ _); discriminate.
  - split; [exact Hn | ].
    destruct (execute_charge t st fee st' He) as [Hfee _].
    split; [ | split; [exact Hfee | exact Hs]].
    unfold execute, dbGetBalance in He. rewrite Hn, Z.eqb_refl in He.
    cbn [negb] in He. unfold gasFeeOf, balanceOf.
    unfold getCell in He at 1. cbn [dbBalances dbPutNonce withDbNonces] in He.
    destruct (dbBalances st !! tAddr t) as [bal|] eqn:Eb;
      cbn [default from_option id].
    all: match type of He with
         | context [if ?b <? ?f then Fatal _ else _] =>
             destruct (Z.ltb_spec b f) as [Hlt|Hge]
         end; [discriminate | lia].
Qed.

(** X6.  [execute] returns nil without a change when the nonce does not fit.
    When it fits, the nonce of the sender is written first; then the process
    ends when the sender owns less than the fee, with no balance changed,
    and otherwise the fee [gasLimit * gasPrice] is returned. *)
Theorem execute_outcome t st :
  match execute t st with
  | Rejected st' =>
      i64 (dbGetNonce (tAddr t) st + 1) <> Nonce (tData t) /\ st' = st
  | Fatal st' =>
      i64 (dbGetNonce (tAddr t) st + 1) = Nonce (tData t)
      /\ balanceOf (tAddr t) st < gasFeeOf t
      /\ dbGetNonce (tAddr t) st' = Nonce (tData t)
      /\ (forall a, balanceOf a st' = balanceOf a st)
      /\ miners st' = miners st
  | Charged gasFee st' =>
      i64 (dbGetNonce (tAddr t) st + 1) = Nonce (tData t)
      /\ gasFeeOf t <= balanceOf (tAddr t) st
      /\ gasFee = gasFeeOf t
      /\ dbGetNonce (tAddr t) st' = Nonce (tData t)
  end.
Proof. exact (execute_cases t st). Qed.

(** *** Balances never go below zero *)

(** Every account owns at least zero. *)
Definition solvent (st : State) : Prop := forall a, 0 <= balanceOf a st.

Lemma execute_solvent t st : solvent st -> solvent (stateOf (execute t st)).
Proof.
  intros Hs.
  pose proof (SetBytes_nonneg (Amount (tData t))) as Ha.
  destruct (Z.eqb_spec (i64 (dbGetNonce (tAddr t) st + 1)) (Nonce (tData t)))
    as [Hn|Hn]; [ | rewrite execute_rejected by (now apply Z.eqb_neq); exact Hs].
  destruct (Z.lt_ge_cases (balanceOf (tAddr t) st) (gasFeeOf t)) as [Hlt|Hge].
  - pose proof (execute_cases t st) as Ho.
    destruct (execute t st) as [st'|st'|fee st']; cbn [stateOf].
    + destruct Ho as [Ho _]. contradiction.
    + destruct Ho as (_ & _ & _ & Hb & _). intros a. rewrite Hb. apply Hs.
    + destruct Ho as (_ & Ho & _). lia.
  - destruct (Z.eqb_spec (TxType (tData t)) TransferType) as [Hty|Hty].
    + destruct (execute_transfer_balances t st Hn Hty Hge) as (st' & He & Hb).
      rewrite He. cbn [stateOf]. intros a. rewrite Hb.
      pose proof (Hs a) as Hsa. unfold pays, amountOf in *.
      destruct (TransferGas <=? _); cbn [andb].
      * destruct (Z.leb_spec (SetBytes (Amount (tData t)) + gasFeeOf t)
                    (balanceOf (tAddr t) st));
          repeat case_decide; subst; lia.
      * repeat case_decide; subst; lia.
    + revert Hge. unfold execute, dbGetBalance, gasFeeOf.
      rewrite Hn, Z.eqb_refl. cbn [negb].
      apply Z.eqb_neq in Hty. rewrite Hty.
      intros Hge a. pose proof (Hs a) as Hsa. revert Hge Hsa.
      unfold balanceOf, getCell. cbn [dbBalances dbPutNonce withDbNonces].
      destruct (dbBalances st !! tAddr t) as [bal|] eqn:Eb;
        cbn [default from_option id]; intros Hge Hsa.
      all: match goal with
           | |- context [if ?b <? ?f then Fatal _ else _] =>
               destruct (Z.ltb_spec b f) as [Hlt|_]; [lia | ]
           end.
      all: repeat match goal with
             | |- context [if ?c then _ else _] => destruct c
             end.
      all: cbn [stateOf dbBalances setCell AddMiner withDbBalances].
      all: destruct (decide (a = tAddr t)) as [->|Hne];
           simplify_map_eq; cbn [default from_option id]; lia.
Qed.

Lemma executeList_solvent txs : forall st,
  solvent st -> solvent (runState (executeList txs st)).
Proof.
  induction txs as [|t txs IH]; intros st Hs; cbn [executeList]; [exact Hs | ].
  pose proof (execute_solvent t st Hs) as Ht.
  destruct (execute t st) as [st'|st'|fee st']; cbn [stateOf runState] in *;
    [now apply IH | exact Ht | now apply IH].
Qed.

Lemma ExecuteTransactions_solvent b st :
  solvent st -> solvent (runState (snd (ExecuteTransactions b st))).
Proof.
  intros Hs. unfold ExecuteTransactions.
  destruct b as [blk|]; [ | exact Hs].
  destruct (Header blk) as [header|]; [ | exact Hs].
  destruct (negb _); [exact Hs | ].
  assert (Hp : solvent (dbPutBlock (Height header) blk st)) by exact Hs.
  destruct (bData blk) as [data|]; [ | exact Hp].
  destruct (TxList data) as [txs|]; [ | exact Hp].
  now apply executeList_solvent.
Qed.

(** X8.  When no account is below zero, none is after a chain of blocks was
    executed, whatever the transactions are and whether or not the process
    ended on the way. *)
Theorem balances_stay_nonnegative blocks : forall st,
  solvent st -> solvent (runState (executeChain blocks st)).
Proof.
  induction blocks as [|b blocks IH]; intros st Hs; [exact Hs | ].
  rewrite executeChain_cons.
  pose proof (ExecuteTransactions_solvent (Some b) st Hs) as Hb.
  cbv zeta.
  destruct (runFatal (snd (ExecuteTransactions (Some b) st))); [exact Hb | ].
  cbn [runState]. now apply IH.
Qed.

(** *** The fees and the money supply *)

(** The sum of all balances. *)
Definition totalSupply (st : State) : Z :=
  map_fold (fun _ balance total => total + balance) 0 (dbBalances st).

Lemma supply_insert_fresh (m : gmap string Z) k x :
  m !! k = None ->
  map_fold (fun _ balance total => total + balance) 0 (<[k := x]> m)
  = map_fold (fun _ balance total => total + balance) 0 m + x.
Proof.
  intros Hk. rewrite map_fold_insert_L; [reflexivity | | exact Hk].
  intros; lia.
Qed.

Lemma supply_insert (m : gmap string Z) k x :
  map_fold (fun _ balance total => total + balance) 0 (<[k := x]> m)
  = map_fold (fun _ balance total => total + balance) 0 m
    - default 0 (m !! k) + x.
Proof.
  destruct (m !! k) as [v|] eqn:Hk; simpl.
  - rewrite <- (insert_delete_id m k v Hk) at 2.
    rewrite <- insert_delete_eq.
    rewrite !supply_insert_fresh by apply lookup_delete_eq. lia.
  - rewrite supply_insert_fresh by exact Hk. lia.
Qed.

(** The types [execute] knows. *)
Definition known (t : Transaction) : Prop :=
  TxType (tData t) = TransferType \/ TxType (tData t) = MinerType.

Lemma execute_supply t st :
  known t ->
  totalSupply (stateOf (execute t st))
  = totalSupply st
    - match execute t st with Charged gasFee _ => gasFee | _ => 0 end.
Proof.
  intros Hk. remember (execute t st) as r eqn:He.
  unfold execute, dbGetBalance in He.
  case_if He; [subst r; cbn [stateOf]; lia | ].
  case_cell; case_if He.
  all: try (subst r; cbn [stateOf]; unfold totalSupply;
            cbn [dbBalances withDbBalances dbPutNonce withDbNonces];
            rewrite ?supply_insert; simplify_map_eq;
            cbn [default from_option id]; lia).
  all: repeat (first [case_if He | case_cell]).
  all: repeat match goal with
              | H : (_ =? _) = true |- _ => apply Z.eqb_eq in H
              | H : (_ =? _) = false |- _ => apply Z.eqb_neq in H
              end.
  all: try (destruct Hk; congruence).
  all: subst r; cbn [stateOf]; unfold totalSupply.
  all: unfold setCell, dbPutNonce, AddMiner, withDbBalances, withDbNonces in *;
       cbn [dbBalances] in *.
  all: rewrite ?supply_insert; simplify_map_eq; cbn [default from_option id];
       try lia.
Qed.

Lemma executeList_supply txs : forall st,
  Forall known txs ->
  totalSupply (runState (executeList txs st))
  = totalSupply st - runTotal (executeList txs st).
Proof.
  induction txs as [|t txs IH]; intros st Hall; cbn [executeList].
  - cbn [runState runTotal]. lia.
  - inversion Hall as [|? ? Hk Hks]; subst.
    pose proof (execute_supply t st Hk) as Hs.
    destruct (execute t st) as [st'|st'|fee st']; cbn [stateOf] in Hs.
    + rewrite IH by exact Hks. lia.
    + cbn [runState runTotal]. lia.
    + cbn [runState runTotal]. rewrite IH by exact Hks. lia.
Qed.

(** The transactions of a block. *)
Definition txsOf (b : Block) : list Transaction :=
  match bData b with
  | Some data => default [] (TxList data)
  | None => []
  end.

(** X9.  When every transaction of a block is a transfer or a miner
    transaction, the sum of all balances falls by exactly the total that
    [ExecuteTransactions] adds up: the fees leave the accounts, and nothing
    else enters or leaves. *)
Theorem fees_leave_the_supply (b : Block) (st : State) :
  Forall known (txsOf b) ->
  let r := snd (ExecuteTransactions (Some b) st) in
  totalSupply (runState r) = totalSupply st - runTotal r.
Proof.
  intros Hall. cbv zeta. unfold ExecuteTransactions, txsOf in *.
  destruct (Header b) as [header|]; [ | cbn; lia].
  destruct (negb _); [cbn; lia | ].
  destruct (bData b) as [data|]; [ | cbn; unfold totalSupply; cbn; lia].
  destruct (TxList data) as [txs|]; [ | cbn; unfold totalSupply; cbn; lia].
  cbn [snd default from_option id] in *.
  rewrite executeList_supply by exact Hall. reflexivity.
Qed.

(** The total of a run is the sum of [gasLimit * gasPrice] over the
    transactions it accepted. *)
Lemma executeList_total txs : forall st,
  runTotal (executeList txs st)
  = fold_right Z.add 0 (map gasFeeOf (runAccepted (executeList txs st))).
Proof.
  induction txs as [|t txs IH]; intros st; cbn [executeList]; [reflexivity | ].
  pose proof (execute_cases t st) as Ho.
  destruct (execute t st) as [st'|st'|fee st'].
  - apply IH.
  - reflexivity.
  - destruct Ho as (_ & _ & -> & _).
    cbn [runTotal runAccepted map fold_right]. now rewrite IH.
Qed.

(** *** Blocks and heights *)

Lemma execute_block_store t st :
  dbMaxHeight (stateOf (execute t st)) = dbMaxHeight st
  /\ dbBlocks (stateOf (execute t st)) = dbBlocks st
  /\ balances (stateOf (execute t st)) = balances st
  /\ nonces (stateOf (execute t st)) = nonces st.
Proof.
  remember (execute t st) as r eqn:He.
  unfold execute, dbGetBalance in He.
  repeat (first [case_if He | case_cell]).
  all: subst r; repeat split; reflexivity.
Qed.

Lemma executeList_block_store txs : forall st,
  dbMaxHeight (runState (executeList txs st)) = dbMaxHeight st
  /\ dbBlocks (runState (executeList txs st)) = dbBlocks st
  /\ balances (runState (executeList txs st)) = balances st
  /\ nonces (runState (executeList txs st)) = nonces st.
Proof.
  induction txs as [|t txs IH]; intros st; cbn [executeList]; [now repeat split | ].
  pose proof (execute_block_store t st) as (Hh & Hb & Hbal & Hn).
  destruct (execute t st) as [st'|st'|fee st']; cbn [stateOf runState] in *.
  - destruct (IH st') as (-> & -> & -> & ->). now repeat split.
  - now repeat split.
  - destruct (IH st') as (-> & -> & -> & ->). now repeat split.
Qed.

Lemma ExecuteTransactions_accepts blk header st :
  Header blk = Some header ->
  i64 (dbMaxHeight st + 1) = Height header ->
  let r := snd (ExecuteTransactions (Some blk) st) in
  fst (ExecuteTransactions (Some blk) st) = Some (runTotal r)
  /\ runTotal r = fold_right Z.add 0 (map gasFeeOf (runAccepted r))
  /\ dbMaxHeight (runState r) = Height header
  /\ dbBlocks (runState r) = dbBlocks st ++ [blk]
  /\ balances (runState r) = balances st
  /\ nonces (runState r) = nonces st.
Proof.
  intros Hh Hfit. cbv zeta. unfold ExecuteTransactions.
  rewrite Hh, Hfit, Z.eqb_refl. cbn [negb].
  destruct (bData blk) as [data|]; [ | now repeat split].
  destruct (TxList data) as [txs|]; [ | now repeat split].
  cbn [fst snd].
  destruct (executeList_block_store txs (dbPutBlock (Height header) blk st))
    as (-> & -> & -> & ->).
  split; [reflexivity | ]. split; [apply executeList_total | ].
  now repeat split.
Qed.

(** X10.  A block whose height is the greatest height plus one is stored and the
    greatest height becomes its height, before its transactions are run and
    whatever becomes of them; the total returned is the sum of
    [gasLimit * gasPrice] over the accepted transactions; the package maps
    [balances] and [nonces] are not used. *)
Theorem ExecuteTransactions_stores_block blk header st :
  Header blk = Some header ->
  i64 (dbMaxHeight st + 1) = Height header ->
  let r := snd (ExecuteTransactions (Some blk) st) in
  fst (ExecuteTransactions (Some blk) st) = Some (runTotal r)
  /\ runTotal r = fold_right Z.add 0 (map gasFeeOf (runAccepted r))
  /\ dbMaxHeight (runState r) = Height header
  /\ dbBlocks (runState r) = dbBlocks st ++ [blk]
  /\ balances (runState r) = balances st
  /\ nonces (runState r) = nonces st.
Proof. exact (ExecuteTransactions_accepts blk header st). Qed.

Lemma i64_succ_ne (z : Z) : i64 (i64 z + 1) <> i64 z.
Proof.
  pose proof (i64_range z) as Hr. unfold int64_min, int64_max in Hr.
  destruct (Z.eq_dec (i64 z) (2 ^ 63 - 1)) as [Hmax|Hmax].
  - rewrite Hmax. unfold i64. cbv. discriminate.
  - rewrite (i64_id (i64 z + 1)) by (unfold int64_min, int64_max; lia). lia.
Qed.

(** X11.  [ExecuteTransactions] returns nil, and changes nothing, for a nil
    block, a block without header and a block whose height is not the
    greatest height plus one; in particular a block that was executed is
    refused when it is given again. *)
Theorem ExecuteTransactions_refuses (b : option Block) (st : State) :
  (fst (ExecuteTransactions b st) = None <->
   match b ≫= Header with
   | Some header => i64 (dbMaxHeight st + 1) <> Height header
   | None => True
   end)
  /\ (fst (ExecuteTransactions b st) = None ->
      snd (ExecuteTransactions b st) = mkRun [] 0 st false)
  /\ (fst (ExecuteTransactions b st) <> None ->
      ExecuteTransactions b (runState (snd (ExecuteTransactions b st)))
      = (None, mkRun [] 0 (runState (snd (ExecuteTransactions b st))) false)).
Proof.
  destruct b as [blk|]; [ | cbn; repeat split; congruence].
  cbn [mbind option_bind].
  destruct (Header blk) as [header|] eqn:Hh;
    [ | unfold ExecuteTransactions; rewrite Hh; cbn; repeat split; congruence].
  destruct (Z.eq_dec (i64 (dbMaxHeight st + 1)) (Height header)) as [Hfit|Hfit].
  - destruct (ExecuteTransactions_accepts blk header st Hh Hfit)
      as (Hfst & _ & Hmax & _).
    split; [rewrite Hfst; split; [discriminate | contradiction] | ].
    split; [rewrite Hfst; discriminate | ]. intros _.
    set (st' := runState (snd (ExecuteTransactions (Some blk) st))) in *.
    unfold ExecuteTransactions at 1. rewrite Hh, Hmax, <- Hfit.
    pose proof (i64_succ_ne (dbMaxHeight st + 1)) as Hne.
    apply Z.eqb_neq in Hne. rewrite Hne. reflexivity.
  - assert (He : ExecuteTransactions (Some blk) st = (None, mkRun [] 0 st false)).
    { unfold ExecuteTransactions. rewrite Hh.
      apply Z.eqb_neq in Hfit. now rewrite Hfit. }
    rewrite He. cbn [fst snd]. repeat split; congruence.
Qed.

End Executor.

(** *** Reading a balance *)

(** C8 (as amended).  [GetBalance] of an address without an entry returns
    zero and creates the entry with balance zero; the entries of the other
    addresses and the rest of the state stay as they are, and reading the
    same address again returns zero and changes nothing. *)
Theorem GetBalance_absent (addr : Address) (st : State) :
  balances st !! addr = None ->
  fst (GetBalance addr st) = 0
  /\ snd (GetBalance addr st) = withBalances (<[addr := 0]> (balances st)) st
  /\ balances (snd (GetBalance addr st)) !! addr = Some 0
  /\ (forall a, a <> addr ->
        balances (snd (GetBalance addr st)) !! a = balances st !! a)
  /\ GetBalance addr (snd (GetBalance addr st)) = (0, snd (GetBalance addr st)).
Proof.
  intros Habs. unfold GetBalance. rewrite Habs. simpl.
  rewrite lookup_insert_eq. repeat split.
  intros a Ha. now rewrite lookup_insert_ne.
Qed.

(** The state before anything was written. *)
Definition emptyState : State :=
  {| balances := ∅; nonces := ∅; dbBalances := ∅; dbNonces := ∅;
     dbMaxHeight := 0; dbBlocks := []; miners := [] |}.

Lemma GetBalance_absent_witness :
  fst (GetBalance "a" emptyState) = 0
  /\ balances (snd (GetBalance "a" emptyState)) !! "a" = Some 0.
Proof.
  destruct (GetBalance_absent "a" emptyState) as (H0 & _ & H1 & _).
  - reflexivity.
  - split; [exact H0 | exact H1].
Defined.

(** C8 (as stated) fails: after the balance of the absent address ["a"] was
    read, the state is not the state before the read; it holds a zero
    account for ["a"]. *)
Lemma GetBalance_materializes :
  balances emptyState !! "a" = None
  /\ ~ (fst (GetBalance "a" emptyState) = 0
        /\ snd (GetBalance "a" emptyState) = emptyState).
Proof.
  split; [reflexivity | ].
  intros [_ H]. apply (f_equal (fun s => balances s !! "a")) in H.
  vm_compute in H. discriminate.
Qed.

(** *** Examples for the executor *)

(** The values taken for the constants the source files do not have: the
    two transaction types, and [21000], the [TxGas] of package params, for
    the two gas amounts. *)
Definition exTransferType : Z := 0.
Definition exMinerType : Z := 1.
Definition exTransferGas : Z := 21000.
Definition exMinerGas : Z := 21000.

Definition exExecute : Transaction -> State -> result :=
  execute exTransferType exMinerType exTransferGas exMinerGas.

(** A transfer from ["a"] to ["b"]. *)
Definition transferAB (nonce : Z) (gasPrice gasLimit amount : list byte)
    : Transaction :=
  {| tData := {| Nonce := nonce; GasPrice := gasPrice; GasLimit := gasLimit;
                 Amount := amount; TxType := exTransferType; To := "b";
                 Data := EmptyString |};
     tAddr := "a" |}.

(** A state in which ["a"] owns [balance] and nothing else is there. *)
Definition funded (balance : Z) : State :=
  {| balances := ∅; nonces := ∅; dbBalances := {["a" := balance]};
     dbNonces := ∅; dbMaxHeight := 0; dbBlocks := []; miners := [] |}.

(** The transfer of E1: price [1], limit [21000 = 0x5208], amount
    [100 UNIT = 0x056bc75e2d63100000]. *)
Definition txE1 : Transaction :=
  transferAB 1 [x01] [x52; x08] [x05; x6b; xc7; x5e; x2d; x63; x10; x00; x00].

(** A block of three transactions of ["a"] with nonces [1], [3] and [2]. *)
Definition blockE1 : Block :=
  {| Header := Some {| Height := 1 |};
     bData := Some {| TxList := Some [txE1;
                                     transferAB 3 [x01] [x52; x08] [x64];
                                     transferAB 2 [x01] [x52; x08] [x64]] |} |}.

Lemma nonce_discipline_witness :
  exExecute txE1 (funded (1000 * UNIT)) <> Rejected (funded (1000 * UNIT))
  /\ dbGetNonce "a" (stateOf (exExecute txE1 (funded (1000 * UNIT)))) = 1
  /\ noncesOf "a"
       (runAccepted (executeChain exTransferType exMinerType exTransferGas
                       exMinerGas [blockE1] (funded (1000 * UNIT))))
     = [1; 2].
Proof.
  destruct (nonce_discipline exTransferType exMinerType exTransferGas exMinerGas)
    as (Hgate & _ & Hseq).
  destruct (Hgate txE1 (funded (1000 * UNIT))) as [[Hne _] | (_ & Hnr & Hn)].
  - exfalso. apply Hne. reflexivity.
  - split; [apply Hnr | ]. split; [exact Hn | ].
    destruct (Hseq [blockE1] "a" (funded (1000 * UNIT))) as [Hacc _].
    + reflexivity.
    + vm_compute. discriminate.
    + rewrite Hacc. vm_compute. reflexivity.
Defined.

Lemma gas_charged_in_full_witness :
  exists st', exExecute txE1 (funded (1000 * UNIT)) = Charged 21000 st'
    /\ gasCharge txE1 (funded (1000 * UNIT)) st' = 21000
    /\ balanceOf "a" st' = 1000 * UNIT - 100 * UNIT - 21000
    /\ balanceOf "b" st' = 100 * UNIT
    /\ dbGetNonce "a" st' = 1.
Proof.
  destruct (gas_charged_in_full exTransferType exMinerType exTransferGas exMinerGas)
    as (Hfull & _ & HE1).
  destruct (HE1 "a" "b" txE1 (funded (1000 * UNIT)))
    as (st' & He & HA & HB & Hn);
    try reflexivity; try discriminate.
  exists st'. split; [exact He | ].
  destruct (Hfull txE1 (funded (1000 * UNIT)) 21000 st' He) as [_ Hc].
  - left. reflexivity.
  - split; [exact Hc | ]. split; [exact HA | ]. split; [exact HB | exact Hn].
Defined.

(** The gas a plain transfer uses according to the spec: its intrinsic gas
    [TxGas], there being no payload. *)
Definition specGasUsed : Z := 21000.

(** C5 (as stated) fails: a transfer of [100] with gas price [2] and gas
    limit [50000 = 0xc350] costs its sender [50000 * 2] for gas, the full
    limit at the gas price, and not the gas used at the gas price, nor any
    amount of gas below the limit at the gas price. *)
Lemma gas_not_refunded :
  let t := transferAB 1 [x02] [xc3; x50] [x64] in
  let st := funded 1000000 in
  let st' := stateOf (exExecute t st) in
  exExecute t st = Charged 100000 st'
  /\ gasCharge t st st' = 50000 * 2
  /\ gasCharge t st st' <> specGasUsed * 2
  /\ (forall gasUsed, 0 <= gasUsed < 50000 -> gasCharge t st st' <> gasUsed * 2)
  /\ balanceOf "a" st' = 1000000 - 100 - 50000 * 2
  /\ balanceOf "b" st' = 100.
Proof.
  cbv zeta.
  assert (Hc : gasCharge (transferAB 1 [x02] [xc3; x50] [x64]) (funded 1000000)
                 (stateOf (exExecute (transferAB 1 [x02] [xc3; x50] [x64])
                             (funded 1000000))) = 100000)
    by (vm_compute; reflexivity).
  rewrite Hc. repeat split; try (vm_compute; congruence).
  intros gasUsed Hu. lia.
Qed.

(** *** The examples, executed *)

Lemma execute_transfer_witness :
  exists st',
    exExecute txE1 (funded (1000 * UNIT)) = Charged 21000 st'
    /\ balanceOf "a" st' = 1000 * UNIT - 21000 - 100 * UNIT
    /\ balanceOf "b" st' = 100 * UNIT.
Proof.
  destruct (execute_transfer exTransferType exMinerType exTransferGas exMinerGas
              txE1 (funded (1000 * UNIT))) as (st' & He & Hb);
    [reflexivity | reflexivity | vm_compute; discriminate | ].
  exists st'. split; [exact He | ].
  split; rewrite Hb; vm_compute; reflexivity.
Defined.

Lemma funded_solvent (balance : Z) : 0 <= balance -> solvent (funded balance).
Proof.
  intros Hb a. unfold balanceOf, funded. cbn [dbBalances].
  destruct (decide (a = "a")) as [->|Hne].
  - now rewrite lookup_singleton_eq.
  - rewrite lookup_singleton_ne by congruence. reflexivity.
Defined.

Lemma balances_stay_nonnegative_witness :
  0 <= balanceOf "a"
         (runState (executeChain exTransferType exMinerType exTransferGas
                      exMinerGas [blockE1] (funded 30000))).
Proof.
  apply (balances_stay_nonnegative exTransferType exMinerType exTransferGas
           exMinerGas [blockE1] (funded 30000)).
  apply funded_solvent. lia.
Defined.

Lemma fees_leave_the_supply_witness :
  totalSupply
    (runState (snd (ExecuteTransactions exTransferType exMinerType exTransferGas
                      exMinerGas (Some blockE1) (funded (1000 * UNIT)))))
  = 1000 * UNIT - 42000.
Proof.
  rewrite (fees_leave_the_supply exTransferType exMinerType exTransferGas
             exMinerGas blockE1 (funded (1000 * UNIT))).
  - vm_compute. reflexivity.
  - repeat constructor.
Defined.

Lemma ExecuteTransactions_stores_block_witness :
  let r := snd (ExecuteTransactions exTransferType exMinerType exTransferGas
                  exMinerGas (Some blockE1) (funded (1000 * UNIT))) in
  dbMaxHeight (runState r) = 1 /\ dbBlocks (runState r) = [blockE1].
Proof.
  destruct (ExecuteTransactions_stores_block exTransferType exMinerType
              exTransferGas exMinerGas blockE1 {| Height := 1 |}
              (funded (1000 * UNIT))) as (_ & _ & Hh & Hb & _);
    [reflexivity | reflexivity | ].
  split; [exact Hh | exact Hb].
Defined.

(** *** The nonce counter of the package *)

Lemma GetNonce_addNonce addr st :
  GetNonce addr (addNonce addr st)
  = if 0 <=? GetNonce addr st then i64 (GetNonce addr st + 1) else 1.
Proof.
  unfold GetNonce, addNonce.
  destruct (nonces st !! addr) as [value|]; cbn [default from_option id].
  - destruct (0 <=? value); cbn [nonces withNonces];
      now rewrite lookup_insert_eq.
  - cbn [nonces withNonces]. now rewrite lookup_insert_eq.
Qed.

Lemma GetNonce_addNonce_ne addr other st :
  other <> addr -> GetNonce other (addNonce addr st) = GetNonce other st.
Proof.
  intros Hne. unfold GetNonce, addNonce.
  destruct (nonces st !! addr) as [value|]; [destruct (0 <=? value) | ];
    cbn [nonces withNonces]; now rewrite lookup_insert_ne.
Qed.

(** X12.  From a nonce that is not negative, [k] calls of [addNonce] raise the
    nonce of the address by [k], as long as that stays an [int64]; an
    address without an entry counts from zero.  The nonces of the other
    addresses stay as they are. *)
Theorem addNonce_counts (addr : Address) (k : nat) (st : State) :
  0 <= GetNonce addr st ->
  GetNonce addr st + Z.of_nat k <= int64_max ->
  GetNonce addr (Nat.iter k (addNonce addr) st) = GetNonce addr st + Z.of_nat k
  /\ forall other, other <> addr ->
       GetNonce other (Nat.iter k (addNonce addr) st) = GetNonce other st.
Proof.
  intros H0. induction k as [|k IH]; intros Hmax;
    [ | rewrite Nat.iter_succ].
  - cbn. split; [lia | reflexivity].
  - destruct IH as [IHa IHo]; [lia | ]. split.
    + rewrite GetNonce_addNonce, IHa.
      destruct (Z.leb_spec 0 (GetNonce addr st + Z.of_nat k)); [ | lia].
      rewrite i64_id by (unfold int64_min, int64_max in *; lia). lia.
    + intros other Hne. rewrite GetNonce_addNonce_ne by exact Hne.
      now apply IHo.
Qed.

Lemma addNonce_counts_witness :
  GetNonce "a" (Nat.iter 3 (addNonce "a") emptyState) = 3.
Proof.
  destruct (addNonce_counts "a" 3 emptyState) as [H _].
  - vm_compute. discriminate.
  - vm_compute. discriminate.
  - exact H.
Defined.

(** [addNonce] sets a negative nonce to one.  At the greatest [int64] the
    increment wraps to the least [int64], which the next call sets to
    one. *)
Theorem addNonce_restarts (addr : Address) (st : State) :
  (GetNonce addr st < 0 -> GetNonce addr (addNonce addr st) = 1)
  /\ (GetNonce addr st = int64_max ->
      GetNonce addr (addNonce addr st) = int64_min
      /\ GetNonce addr (addNonce addr (addNonce addr st)) = 1).
Proof.
  split.
  - intros Hneg. rewrite GetNonce_addNonce.
    destruct (Z.leb_spec 0 (GetNonce addr st)); [lia | reflexivity].
  - intros Hmax.
    assert (H1 : GetNonce addr (addNonce addr st) = int64_min).
    { rewrite GetNonce_addNonce, Hmax. reflexivity. }
    split; [exact H1 | ]. rewrite GetNonce_addNonce, H1. reflexivity.
Qed.

Lemma addNonce_restarts_witness :
  GetNonce "a" (addNonce "a" (withNonces {["a" := -5]} emptyState)) = 1
  /\ GetNonce "a" (addNonce "a" (addNonce "a"
       (withNonces {["a" := int64_max]} emptyState))) = 1.
Proof.
  split.
  - destruct (addNonce_restarts "a" (withNonces {["a" := -5]} emptyState))
      as [H _].
    apply H. vm_compute. reflexivity.
  - destruct (addNonce_restarts "a" (withNonces {["a" := int64_max]} emptyState))
      as [_ H].
    apply H. vm_compute. reflexivity.
Defined.

(** *** Reading the block store *)

(** [GetCurrentBlockHeight]. *)
Definition GetCurrentBlockHeight (st : State) : Z :=
  let height := dbMaxHeight st in
  if negb (height =? -1) then height else -1.

(** What [GetBlocks] leaves behind: the blocks, or the panic of an index
    out of range; [OutOfFuel] is not an outcome of the code. *)
Inductive fetched :=
  | Blocks (r : list Block)
  | IndexOutOfRange
  | OutOfFuel.

(** The loop [for i := from; i < l && i <= end; i++] of [GetBlocks]; the
    increment does not overflow, [i] being below the length. *)
Fixpoint blocksLoop (fuel : nat) (bs : list Block) (l end_ i : Z)
    (r : list Block) : fetched :=
  match fuel with
  | O => OutOfFuel
  | S fuel =>
      if (i <? l) && (i <=? end_) then
        if i <? 0 then IndexOutOfRange
        else
          match bs !! Z.to_nat i with
          | Some b => blocksLoop fuel bs l end_ (i + 1) (r ++ [b])
          | None => IndexOutOfRange
          end
      else Blocks r
  end.

(** [GetBlocks]; [database.GetAllBlocks] gives the stored blocks. *)
Definition GetBlocks (from number : Z) (st : State) : fetched :=
  let bs := dbBlocks st in
  let l := Z.of_nat (length bs) in
  if l - 1 <? from then Blocks []
  else
    let end_ := i64 (from + number - 1) in
    blocksLoop (S (length bs)) bs l end_ from [].

Lemma blocksLoop_slice (bs : list Block) (end_ : Z) : forall fuel i r,
  0 <= i ->
  (length bs - Z.to_nat i < fuel)%nat ->
  blocksLoop fuel bs (Z.of_nat (length bs)) end_ i r
  = Blocks (r ++ take (Z.to_nat (end_ - i + 1)) (drop (Z.to_nat i) bs)).
Proof.
  induction fuel as [|fuel IH]; intros i r Hi Hfuel; cbn [blocksLoop].
  - lia.
  - destruct (Z.ltb_spec i (Z.of_nat (length bs))) as [Hl|Hl]; cbn [andb].
    + destruct (Z.leb_spec i end_) as [He|He].
      * destruct (Z.ltb_spec i 0); [lia | ].
        destruct (lookup_lt_is_Some_2 bs (Z.to_nat i)) as [b Hb]; [lia | ].
        rewrite Hb. rewrite IH by lia.
        f_equal. rewrite <- app_assoc. f_equal.
        rewrite (drop_S bs b (Z.to_nat i) Hb).
        replace (Z.to_nat (end_ - i + 1)) with (S (Z.to_nat (end_ - (i + 1) + 1)))
          by lia.
        cbn [take app]. do 2 f_equal. f_equal. lia.
      * replace (Z.to_nat (end_ - i + 1)) with 0%nat by lia.
        now rewrite take_0, app_nil_r.
    + rewrite drop_ge by lia. now rewrite take_nil, app_nil_r.
Qed.

(** X13.  For a start that is not negative, [GetBlocks] returns the stored blocks
    from index [from] on, at most [number] of them, provided
    [from + number - 1] is an [int64]; none when [number] is zero or
    less, or when [from] is beyond the last block. *)
Theorem GetBlocks_slice (from number : Z) (st : State) :
  0 <= from ->
  int64_min <= from + number - 1 <= int64_max ->
  GetBlocks from number st
  = Blocks (take (Z.to_nat number) (drop (Z.to_nat from) (dbBlocks st))).
Proof.
  intros Hfrom Hend. unfold GetBlocks. cbv zeta.
  destruct (Z.ltb_spec (Z.of_nat (length (dbBlocks st)) - 1) from) as [Hl|Hl].
  - rewrite drop_ge by lia. now rewrite take_nil.
  - rewrite i64_id by exact Hend.
    rewrite blocksLoop_slice by lia. cbn [app].
    do 2 f_equal. lia.
Qed.

Lemma GetBlocks_slice_witness :
  GetBlocks 1 2 (dbPutBlock 3 blockE1
                   (dbPutBlock 2 (mkBlock None None)
                      (dbPutBlock 1 blockE1 emptyState)))
  = Blocks [mkBlock None None; blockE1].
Proof.
  rewrite (GetBlocks_slice 1 2).
  - reflexivity.
  - lia.
  - vm_compute. split; discriminate.
Defined.

(** X14.  For a negative start and a number of at least one, [GetBlocks] panics
    on its first index, whatever is stored. *)
Theorem GetBlocks_negative_start (from number : Z) (st : State) :
  int64_min <= from < 0 ->
  1 <= number <= int64_max ->
  GetBlocks from number st = IndexOutOfRange.
Proof.
  intros Hfrom Hnumber. unfold GetBlocks. cbv zeta.
  unfold int64_min, int64_max in *.
  destruct (Z.ltb_spec (Z.of_nat (length (dbBlocks st)) - 1) from) as [Hl|Hl];
    [lia | ].
  rewrite i64_id by (unfold int64_min, int64_max; lia).
  cbn [blocksLoop].
  destruct (Z.ltb_spec from (Z.of_nat (length (dbBlocks st)))); [ | lia].
  destruct (Z.leb_spec from (from + number - 1)); [ | lia].
  cbn [andb]. destruct (Z.ltb_spec from 0); [reflexivity | lia].
Qed.

Lemma GetBlocks_negative_start_witness :
  GetBlocks (-1) 1 emptyState = IndexOutOfRange.
Proof.
  apply GetBlocks_negative_start; unfold int64_min, int64_max; lia.
Defined.

(** When [from + number - 1] is beyond the greatest [int64], the end of the
    range wraps below zero and [GetBlocks] returns no block, although
    blocks from [from] on are stored. *)
Theorem GetBlocks_overflow (from number : Z) (st : State) :
  0 <= from < Z.of_nat (length (dbBlocks st)) ->
  Z.of_nat (length (dbBlocks st)) <= int64_max ->
  number <= int64_max ->
  int64_max < from + number - 1 ->
  GetBlocks from number st = Blocks [].
Proof.
  intros Hfrom Hlen Hnumber Hwrap. unfold GetBlocks. cbv zeta.
  unfold int64_max in *.
  destruct (Z.ltb_spec (Z.of_nat (length (dbBlocks st)) - 1) from) as [Hl|Hl];
    [reflexivity | ].
  assert (Hend : i64 (from + number - 1) = from + number - 1 - 2 ^ 64).
  { unfold i64.
    replace (from + number - 1 + 2 ^ 63)
      with ((from + number - 1 - 2 ^ 63) + 1 * 2 ^ 64) by lia.
    rewrite Z.mod_add by lia. rewrite Z.mod_small by lia. lia. }
  rewrite Hend. cbn [blocksLoop].
  destruct (Z.leb_spec from (from + number - 1 - 2 ^ 64)); [lia | ].
  now rewrite andb_false_r.
Qed.

Lemma GetBlocks_overflow_witness :
  GetBlocks 2 int64_max
    (dbPutBlock 3 blockE1 (dbPutBlock 2 blockE1 (dbPutBlock 1 blockE1 emptyState)))
  = Blocks [].
Proof.
  apply GetBlocks_overflow; unfold int64_max; cbn [length dbBlocks dbPutBlock emptyState app];
    lia.
Defined.

End Store.

(** ** database/db.go *)

Module Database.

(** Keys and values are byte slices.  A [nil] slice and an empty one are
    both the empty string: LevelDB stores the same for either. *)
Abbreviation bytes := string.

(** [leveldb.DB], as far as the file uses it: the stored pairs, and whether
    the handle was closed, after which every operation on it returns
    [leveldb.ErrClosed]. *)
Record LevelDB := mkLevelDB {
  ldbData : gmap string string;
  ldbClosed : bool
}.

(** [leveldb.Snapshot]: the pairs stored when it was taken. *)
Abbreviation Snapshot := (gmap string string).

(** [snapshot.Get(key, nil)]: the value, or [leveldb.ErrNotFound]. *)
Definition snapshotGet (s : Snapshot) (key : bytes) : option bytes := s !! key.

(** Modelled from the spec: [trie.StateTrie] is not among the source files;
    by section 4.B it is a keyed map with [insert], [delete] and [get]
    whose root is determined by its contents, so it is modelled by its
    contents. *)
Abbreviation StateTrie := (gmap string string).

Definition NewStateTrie : StateTrie := ∅.

(** The constants [del] and [put] of the file. *)
Inductive Action := del | put.

Record journal := mkJournal {
  chainId : Z;
  action : Action;
  key : bytes;
  value : bytes
}.

Record Database := mkDatabase {
  db : LevelDB;
  runningChain : Z;
  tries : gmap Z StateTrie
}.

(** [Transaction]; the field [database] is a pointer to the database the
    transaction was begun on, so the methods below take that database and
    return it with the changes they made through the pointer. *)
Record Transaction := mkTransaction {
  snapshot : Snapshot;
  finished : bool;
  journals : list journal;
  values : gmap string string
}.

(** [if tries[chainId] == nil { tries[chainId] = trie.NewStateTrie() }]
    followed by an update of that trie. *)
Definition updateTrie (chain : Z) (f : StateTrie -> StateTrie)
    (d : Database) : Database :=
  {| db := db d; runningChain := runningChain d;
     tries := <[chain := f (default NewStateTrie (tries d !! chain))]> (tries d) |}.

Definition trieInsert (k v : bytes) (tr : StateTrie) : StateTrie := <[k := v]> tr.
Definition trieDelete (k : bytes) (tr : StateTrie) : StateTrie := delete k tr.

(** The value of a key in the trie of a chain; [None] when the key, or the
    trie, is absent. *)
Definition trieGet (chain : Z) (k : bytes) (d : Database) : option bytes :=
  tries d !! chain ≫= fun tr => tr !! k.

(** [Put].  The journal entry is built without its [chainId] field, which
    is therefore zero. *)
Definition Put (k v : bytes) (chain : Z) (t : Transaction) (d : Database)
    : Transaction * Database :=
  if finished t then (t, d)
  else
    ({| snapshot := snapshot t; finished := finished t;
        journals := journals t ++ [{| chainId := 0; action := put; key := k; value := v |}];
        values := <[k := v]> (values t) |},
     updateTrie chain (trieInsert k v) d).

(** [Get]: [None] is the nil result. *)
Definition Get (k : bytes) (t : Transaction) : option bytes :=
  if finished t then None
  else
    match values t !! k with
    | Some v => Some v
    | None => snapshotGet (snapshot t) k
    end.

(** [Delete].  The journal entry is built without [chainId] and [value]. *)
Definition Delete (k : bytes) (chain : Z) (t : Transaction) (d : Database)
    : Transaction * Database :=
  if finished t then (t, d)
  else
    ({| snapshot := snapshot t; finished := finished t;
        journals := journals t ++ [{| chainId := 0; action := del; key := k; value := EmptyString |}];
        values := delete k (values t) |},
     updateTrie chain (trieDelete k) d).

(** One journal entry applied to the LevelDB transaction of [Commit]. *)
Definition applyJournal (data : gmap string string) (j : journal)
    : gmap string string :=
  match action j with
  | del => delete (key j) data
  | put => <[key j := value j]> data
  end.

(** [Commit].  [OpenTransaction] fails on a closed handle; otherwise the
    entries are applied in the order of the journal and committed at once. *)
Definition Commit (t : Transaction) (d : Database) : Transaction * Database :=
  if finished t then (t, d)
  else
    let t' := {| snapshot := snapshot t; finished := true;
                 journals := journals t; values := values t |} in
    if ldbClosed (db d) then (t', d)
    else
      (t',
       {| db := {| ldbData := fold_left applyJournal (journals t) (ldbData (db d));
                   ldbClosed := false |};
          runningChain := runningChain d; tries := tries d |}).

(** One journal entry undone by [Discard]: the trie of the chain of the
    entry gets the value of the snapshot back; after a [put] of a key the
    snapshot does not have, the key is deleted. *)
Definition undoJournal (s : Snapshot) (d : Database) (j : journal) : Database :=
  match action j with
  | del =>
      match snapshotGet s (key j) with
      | Some v => updateTrie (chainId j) (trieInsert (key j) v) d
      | None => updateTrie (chainId j) id d
      end
  | put =>
      match snapshotGet s (key j) with
      | Some v => updateTrie (chainId j) (trieInsert (key j) v) d
      | None => updateTrie (chainId j) (trieDelete (key j)) d
      end
  end.

(** [Discard]: the loop runs over the journal from its first entry. *)
Definition Discard (t : Transaction) (d : Database) : Transaction * Database :=
  if finished t then (t, d)
  else
    ({| snapshot := snapshot t; finished := true;
        journals := journals t; values := values t |},
     fold_left (undoJournal (snapshot t)) (journals t) d).

(** [NewDatabase], for a store that opens empty; [chain] is
    [config.GetChainId()]. *)
Definition NewDatabase (chain : Z) : Database :=
  {| db := {| ldbData := ∅; ldbClosed := false |};
     runningChain := chain;
     tries := {[chain := NewStateTrie]} |}.

(** [BeginTransaction]: nil when the snapshot cannot be taken. *)
Definition BeginTransaction (d : Database) : option Transaction :=
  if ldbClosed (db d) then None
  else Some {| snapshot := ldbData (db d); finished := false;
               journals := []; values := ∅ |}.

(** [put] of the database: the pair is written to LevelDB and, when that
    succeeded, to the trie of the chain; the result is the error. *)
Definition dbPut (k v : bytes) (chain : Z) (d : Database) : bool * Database :=
  if ldbClosed (db d) then (false, d)
  else
    (true,
     updateTrie chain (trieInsert k v)
       {| db := {| ldbData := <[k := v]> (ldbData (db d)); ldbClosed := false |};
          runningChain := runningChain d; tries := tries d |}).

(** [get] of the database. *)
Definition dbGet (k : bytes) (d : Database) : option bytes :=
  if ldbClosed (db d) then None else ldbData (db d) !! k.

(** The writes of a transaction, to state properties of any sequence of
    them. *)
Inductive write :=
  | WPut (k v : bytes) (chain : Z)
  | WDelete (k : bytes) (chain : Z).

Definition doWrite (td : Transaction * Database) (w : write)
    : Transaction * Database :=
  match w with
  | WPut k v chain => Put k v chain (fst td) (snd td)
  | WDelete k chain => Delete k chain (fst td) (snd td)
  end.

Definition doWrites (ws : list write) (td : Transaction * Database)
    : Transaction * Database :=
  fold_left doWrite ws td.

(** The journal entry a write leaves. *)
Definition journalOf (w : write) : journal :=
  match w with
  | WPut k v _ => {| chainId := 0; action := put; key := k; value := v |}
  | WDelete k _ => {| chainId := 0; action := del; key := k; value := EmptyString |}
  end.

(** *** The journal of a transaction *)

Lemma doWrite_unfinished t d w :
  finished t = false ->
  finished (fst (doWrite (t, d) w)) = false
  /\ snapshot (fst (doWrite (t, d) w)) = snapshot t
  /\ journals (fst (doWrite (t, d) w)) = journals t ++ [journalOf w].
Proof.
  intros Hf. destruct w; simpl; unfold Put, Delete; rewrite Hf; simpl; auto.
Qed.

(** The journal holds the writes in the order in which they were made. *)
Lemma doWrites_journal ws : forall t d,
  finished t = false ->
  finished (fst (doWrites ws (t, d))) = false
  /\ snapshot (fst (doWrites ws (t, d))) = snapshot t
  /\ journals (fst (doWrites ws (t, d))) = journals t ++ map journalOf ws.
Proof.
  induction ws as [|w ws IH]; intros t d Hf; simpl.
  - now rewrite app_nil_r.
  - destruct (doWrite_unfinished t d w Hf) as (Hf' & Hs & Hj).
    destruct (doWrite (t, d) w) as [t' d'] eqn:Hw. simpl in *.
    destruct (IH t' d' Hf') as (Hf'' & Hs' & Hj').
    unfold doWrites in *. repeat split; [exact Hf'' | congruence | ].
    rewrite Hj', Hj, <- app_assoc. reflexivity.
Qed.

(** [Commit] applies the journal to LevelDB from its first entry to its
    last. *)
Lemma Commit_in_order t d :
  finished t = false -> ldbClosed (db d) = false ->
  ldbData (db (snd (Commit t d)))
  = fold_left applyJournal (journals t) (ldbData (db d)).
Proof. intros Hf Hc. unfold Commit. now rewrite Hf, Hc. Qed.

(** *** [Discard] and the tries *)

Lemma tries_updateTrie_ne c c' f d :
  c <> c' -> tries (updateTrie c f d) !! c' = tries d !! c'.
Proof. intros Hne. unfold updateTrie; simpl. now rewrite lookup_insert_ne. Qed.

Lemma undoJournal_other_chain s d j c :
  chainId j <> c -> tries (undoJournal s d j) !! c = tries d !! c.
Proof.
  intros Hne. unfold undoJournal.
  destruct (action j), (snapshotGet s (key j));
    now rewrite tries_updateTrie_ne.
Qed.

(** Undoing a journal whose entries all name chain [0] leaves the tries of
    the other chains alone. *)
Lemma undo_other_chain s js : forall d c,
  Forall (fun j => chainId j = 0) js -> c <> 0 ->
  tries (fold_left (undoJournal s) js d) !! c = tries d !! c.
Proof.
  induction js as [|j js IH]; intros d c Hall Hc; simpl; [reflexivity | ].
  inversion Hall as [|? ? Hj Hjs]; subst.
  rewrite IH by assumption.
  apply undoJournal_other_chain. congruence.
Qed.

Lemma journalOf_chain0 ws : Forall (fun j => chainId j = 0) (map journalOf ws).
Proof.
  induction ws as [|w ws IH]; simpl; constructor; [now destruct w | exact IH].
Qed.

(** The entries of a journal that put the key [k]. *)
Definition putsKey (k : bytes) (j : journal) : Prop :=
  key j = k /\ action j = put.

#[local] Instance Action_eq_dec : EqDecision Action.
Proof. solve_decision. Defined.

#[local] Instance putsKey_dec k j : Decision (putsKey k j).
Proof. unfold putsKey. apply _. Defined.

Lemma trieGet_updateTrie c f d k :
  trieGet c k (updateTrie c f d) = f (default NewStateTrie (tries d !! c)) !! k.
Proof. unfold trieGet, updateTrie; simpl. now rewrite lookup_insert_eq. Qed.

Lemma trieGet_default c d k :
  default NewStateTrie (tries d !! c) !! k = trieGet c k d.
Proof.
  unfold trieGet. destruct (tries d !! c); simpl; [reflexivity | ].
  apply lookup_empty.
Qed.

(** In the trie of chain [0], undoing an entry of chain [0] gives its key
    the value of the snapshot, except that a deletion of a key the snapshot
    does not have is not undone at all; the other keys are left alone. *)
Lemma undoJournal_chain0 s d j k :
  chainId j = 0 ->
  trieGet 0 k (undoJournal s d j)
  = if decide (key j = k) then
      match s !! k with
      | Some v => Some v
      | None => match action j with put => None | del => trieGet 0 k d end
      end
    else trieGet 0 k d.
Proof.
  intros Hj. unfold undoJournal, snapshotGet. rewrite Hj.
  destruct (decide (key j = k)) as [<-|Hne].
  - destruct (action j), (s !! key j); rewrite trieGet_updateTrie;
      unfold trieInsert, trieDelete, id;
      rewrite ?lookup_insert_eq, ?lookup_delete_eq, ?trieGet_default;
      reflexivity.
  - destruct (action j), (s !! key j); rewrite trieGet_updateTrie;
      unfold trieInsert, trieDelete, id;
      rewrite ?lookup_insert_ne, ?lookup_delete_ne by exact Hne;
      apply trieGet_default.
Qed.

Lemma undo_chain0 s js : forall d k,
  Forall (fun j => chainId j = 0) js ->
  trieGet 0 k (fold_left (undoJournal s) js d)
  = match s !! k with
    | Some v => if decide (k ∈ map key js) then Some v else trieGet 0 k d
    | None => if decide (Exists (putsKey k) js) then None else trieGet 0 k d
    end.
Proof.
  induction js as [|j js IH]; intros d k Hall; cbn [fold_left].
  - destruct (s !! k).
    + rewrite decide_False; [reflexivity | apply not_elem_of_nil].
    + rewrite decide_False; [reflexivity | ]. intros H; inversion H.
  - inversion Hall as [|? ? Hj Hjs]; subst.
    rewrite IH by assumption. rewrite undoJournal_chain0 by assumption.
    destruct (s !! k) as [v|] eqn:Hs.
    + destruct (decide (k ∈ map key js)) as [Hin|Hnin].
      * rewrite decide_True; [reflexivity | apply elem_of_cons; now right].
      * destruct (decide (key j = k)) as [<-|Hne].
        -- rewrite decide_True; [reflexivity | apply elem_of_cons; now left].
        -- rewrite decide_False; [reflexivity | ].
           intros Hin. apply elem_of_cons in Hin. destruct Hin; [congruence | contradiction].
    + destruct (decide (Exists (putsKey k) js)) as [Hex|Hnex].
      * rewrite decide_True; [reflexivity | now apply Exists_cons_tl].
      * destruct (decide (key j = k)) as [Hk|Hne].
        -- destruct (action j) eqn:Ha.
           ++ rewrite decide_False; [reflexivity | ].
              intros Hex. inversion Hex as [? ? [_ Hp]|]; subst; [congruence | tauto].
           ++ rewrite decide_True; [reflexivity | ].
              apply Exists_cons_hd. now split.
        -- rewrite decide_False; [reflexivity | ].
           intros Hex. inversion Hex as [? ? [Hk' _]|]; subst; [congruence | tauto].
Qed.

Lemma putsKey_elem_of k js : Exists (putsKey k) js -> k ∈ map key js.
Proof.
  induction 1 as [j js [Hk _]|j js _ IH]; simpl; apply elem_of_cons.
  - left. congruence.
  - now right.
Qed.

(** The order in which the entries are undone does not matter: undoing
    them from the last to the first gives every key the value that undoing
    them from the first to the last gives it. *)
Lemma undo_order_irrelevant s js d k :
  Forall (fun j => chainId j = 0) js ->
  trieGet 0 k (fold_left (undoJournal s) (rev js) d)
  = trieGet 0 k (fold_left (undoJournal s) js d).
Proof.
  intros Hall.
  rewrite !undo_chain0 by (try apply Forall_rev; exact Hall).
  destruct (s !! k).
  - destruct (decide (k ∈ map key js)) as [Hin|Hnin].
    + rewrite decide_True; [reflexivity | ].
      rewrite map_rev. apply list_elem_of_In, in_rev.
      rewrite rev_involutive. now apply list_elem_of_In.
    + rewrite decide_False; [reflexivity | ].
      rewrite map_rev. intros Hin. apply list_elem_of_In, in_rev in Hin.
      apply Hnin. now apply list_elem_of_In.
  - destruct (decide (Exists (putsKey k) js)) as [Hex|Hnex].
    + rewrite decide_True; [reflexivity | now apply Exists_rev].
    + rewrite decide_False; [reflexivity | ].
      intros Hex. apply Exists_rev in Hex. rewrite rev_involutive in Hex.
      contradiction.
Qed.

(** The chain a write names. *)
Definition chainOf (w : write) : Z :=
  match w with WPut _ _ c => c | WDelete _ c => c end.

Lemma doWrite_trie0 t d w k :
  finished t = false -> chainOf w = 0 ->
  trieGet 0 k (snd (doWrite (t, d) w))
  = if decide (key (journalOf w) = k)
    then match w with WPut _ v _ => Some v | WDelete _ _ => None end
    else trieGet 0 k d.
Proof.
  intros Hf Hc. destruct w as [k' v c|k' c]; simpl in *; subst c;
    unfold Put, Delete; rewrite Hf; simpl; rewrite trieGet_updateTrie;
    unfold trieInsert, trieDelete;
    (destruct (decide (k' = k)) as [<-|Hne];
     [rewrite ?lookup_insert_eq, ?lookup_delete_eq; reflexivity
     |rewrite ?lookup_insert_ne, ?lookup_delete_ne by exact Hne;
      apply trieGet_default]).
Qed.

(** Writes to chain [0] none of which puts [k] leave [k] absent from the
    trie of chain [0] when it was absent, or when one of them deletes it. *)
Lemma doWrites_no_put k ws : forall t d,
  finished t = false ->
  Forall (fun w => chainOf w = 0) ws ->
  ~ Exists (putsKey k) (map journalOf ws) ->
  trieGet 0 k d = None \/ k ∈ map key (map journalOf ws) ->
  trieGet 0 k (snd (doWrites ws (t, d))) = None.
Proof.
  induction ws as [|w ws IH]; intros t d Hf Hall Hnp Hk; simpl in *.
  - destruct Hk as [Hk|Hk]; [exact Hk | ]. now apply elem_of_nil in Hk.
  - inversion Hall as [|? ? Hw Hws]; subst.
    destruct (doWrite_unfinished t d w Hf) as (Hf' & _ & _).
    pose proof (doWrite_trie0 t d w k Hf Hw) as Hget.
    destruct (doWrite (t, d) w) as [t' d'] eqn:Ew. simpl in *.
    apply (IH t' d' Hf' Hws).
    + intros Hex. apply Hnp. now apply Exists_cons_tl.
    + destruct (decide (key (journalOf w) = k)) as [Hkw|Hne].
      * left. rewrite Hget. destruct w as [k' v c|k' c]; [ | reflexivity].
        exfalso. apply Hnp. apply Exists_cons_hd. now split.
      * destruct Hk as [Hk|Hk].
        -- left. now rewrite Hget.
        -- apply elem_of_cons in Hk. destruct Hk as [Hk|Hk]; [congruence | ].
           now right.
Qed.

(** Where all the writes of a transaction go to chain [0], [Discard] gives
    every key that was written the value the snapshot has for it (or none)
    in the trie of chain [0], and leaves the keys that were not written as
    they are. *)
Lemma Discard_restores_chain0 (d : Database) (t0 : Transaction)
    (ws : list write) (k : bytes) :
  BeginTransaction d = Some t0 ->
  Forall (fun w => chainOf w = 0) ws ->
  let td := doWrites ws (t0, d) in
  trieGet 0 k (snd (Discard (fst td) (snd td)))
  = if decide (k ∈ map key (map journalOf ws))
    then snapshotGet (snapshot t0) k
    else trieGet 0 k (snd td).
Proof.
  intros Hb Hall. cbv zeta.
  assert (Hf0 : finished t0 = false /\ journals t0 = []).
  { unfold BeginTransaction in Hb. destruct (ldbClosed (db d)); [discriminate | ].
    inversion Hb; subst. now split. }
  destruct Hf0 as [Hf0 Hj0].
  destruct (doWrites_journal ws t0 d Hf0) as (Hf & Hs & Hj).
  unfold Discard. rewrite Hf. simpl. rewrite Hj, Hj0, Hs. simpl.
  rewrite undo_chain0 by apply journalOf_chain0.
  unfold snapshotGet.
  destruct (snapshot t0 !! k) as [v|] eqn:Hsk; [reflexivity | ].
  destruct (decide (Exists (putsKey k) (map journalOf ws))) as [Hex|Hnex].
  - rewrite decide_True; [reflexivity | now apply putsKey_elem_of].
  - destruct (decide (k ∈ map key (map journalOf ws))) as [Hin|_];
      [ | reflexivity].
    apply (doWrites_no_put k ws t0 d Hf0 Hall Hnex). now right.
Qed.

(** C1.  [Discard] undoes the writes of a transaction in the trie of chain
    [0] only, the journal entries carrying no chain: the trie of any other
    chain stays as the writes of the transaction left it. *)
Theorem Discard_keeps_writes_of_other_chains
    (d : Database) (t0 : Transaction) (ws : list write) (c : Z) :
  BeginTransaction d = Some t0 ->
  c <> 0 ->
  let td := doWrites ws (t0, d) in
  finished (fst (Discard (fst td) (snd td))) = true
  /\ tries (snd (Discard (fst td) (snd td))) !! c = tries (snd td) !! c.
Proof.
  intros Hb Hc. cbv zeta.
  assert (Hf0 : finished t0 = false /\ journals t0 = []).
  { unfold BeginTransaction in Hb. destruct (ldbClosed (db d)); [discriminate | ].
    inversion Hb; subst. now split. }
  destruct Hf0 as [Hf0 Hj0].
  destruct (doWrites_journal ws t0 d Hf0) as (Hf & Hs & Hj).
  unfold Discard. rewrite Hf. simpl. split; [reflexivity | ].
  apply undo_other_chain; [ | exact Hc].
  rewrite Hj, Hj0. simpl. apply journalOf_chain0.
Qed.

(** On a database running chain [1], the key ["k"], absent from the
    snapshot, is put into the trie of chain [1]; after [Discard] it is
    still there. *)
Lemma Discard_keeps_writes_of_other_chains_witness :
  let d := NewDatabase 1 in
  let t0 := {| snapshot := ∅; finished := false; journals := []; values := ∅ |} in
  let td := doWrites [WPut "k" "v" 1] (t0, d) in
  snapshotGet (snapshot t0) "k" = None
  /\ trieGet 1 "k" d = None
  /\ trieGet 1 "k" (snd (Discard (fst td) (snd td))) = Some "v"
  /\ tries (snd (Discard (fst td) (snd td))) !! 0 = Some ∅.
Proof.
  cbv zeta.
  destruct (Discard_keeps_writes_of_other_chains (NewDatabase 1)
              {| snapshot := ∅; finished := false; journals := []; values := ∅ |}
              [WPut "k" "v" 1] 1) as [_ Htr].
  - reflexivity.
  - discriminate.
  - split; [reflexivity | ]. split; [reflexivity | ].
    split; [ | reflexivity].
    unfold trieGet. rewrite Htr. reflexivity.
Defined.

(** *** Reading inside a transaction, and what [Commit] stores *)

Definition keyOf (w : write) : bytes :=
  match w with WPut k _ _ => k | WDelete k _ => k end.

(** The value writes leave for the key [k], from the value [cell] it had:
    the value of the last put of [k], none after a delete of [k]. *)
Fixpoint written (k : bytes) (ws : list write) (cell : option bytes)
    : option bytes :=
  match ws with
  | [] => cell
  | w :: ws =>
      written k ws
        (if decide (keyOf w = k)
         then match w with WPut _ v _ => Some v | WDelete _ _ => None end
         else cell)
  end.

Lemma doWrite_db t d w :
  db (snd (doWrite (t, d) w)) = db d
  /\ runningChain (snd (doWrite (t, d) w)) = runningChain d.
Proof.
  destruct w; cbn [doWrite fst snd]; unfold Put, Delete;
    destruct (finished t); split; reflexivity.
Qed.

Lemma doWrites_db ws : forall t d,
  db (snd (doWrites ws (t, d))) = db d
  /\ runningChain (snd (doWrites ws (t, d))) = runningChain d.
Proof.
  induction ws as [|w ws IH]; intros t d; [split; reflexivity | ].
  unfold doWrites in *. cbn [fold_left].
  pose proof (doWrite_db t d w) as [Hw Hr].
  destruct (doWrite (t, d) w) as [t' d']. cbn [snd] in *.
  destruct (IH t' d') as [-> ->]. now split.
Qed.

Lemma doWrite_values t d w k :
  finished t = false ->
  values (fst (doWrite (t, d) w)) !! k
  = if decide (keyOf w = k)
    then match w with WPut _ v _ => Some v | WDelete _ _ => None end
    else values t !! k.
Proof.
  intros Hf. destruct w as [k' v c|k' c]; cbn [doWrite fst snd keyOf];
    unfold Put, Delete; rewrite Hf; cbn [fst values];
    (destruct (decide (k' = k)) as [<-|Hne];
     [rewrite ?lookup_insert_eq, ?lookup_delete_eq; reflexivity
     |rewrite ?lookup_insert_ne, ?lookup_delete_ne by exact Hne; reflexivity]).
Qed.

Lemma doWrites_values k ws : forall t d,
  finished t = false ->
  values (fst (doWrites ws (t, d))) !! k = written k ws (values t !! k).
Proof.
  induction ws as [|w ws IH]; intros t d Hf; [reflexivity | ].
  unfold doWrites in *. cbn [fold_left written].
  destruct (doWrite_unfinished t d w Hf) as (Hf' & _ & _).
  pose proof (doWrite_values t d w k Hf) as Hv.
  destruct (doWrite (t, d) w) as [t' d']. cbn [fst] in *.
  rewrite (IH t' d' Hf'), Hv. reflexivity.
Qed.

Lemma applyJournal_written k ws : forall data,
  fold_left applyJournal (map journalOf ws) data !! k = written k ws (data !! k).
Proof.
  induction ws as [|w ws IH]; intros data; [reflexivity | ].
  cbn [map fold_left written]. rewrite IH. f_equal.
  destruct w as [k' v c|k' c]; unfold applyJournal; cbn [journalOf action key value keyOf];
    (destruct (decide (k' = k)) as [<-|Hne];
     [rewrite ?lookup_insert_eq, ?lookup_delete_eq; reflexivity
     |rewrite ?lookup_insert_ne, ?lookup_delete_ne by exact Hne; reflexivity]).
Qed.

Lemma BeginTransaction_Some d t0 :
  BeginTransaction d = Some t0 ->
  ldbClosed (db d) = false /\ finished t0 = false /\ journals t0 = []
  /\ values t0 = ∅ /\ snapshot t0 = ldbData (db d).
Proof.
  unfold BeginTransaction. destruct (ldbClosed (db d)); [discriminate | ].
  intros H; inversion H; subst. now repeat split.
Qed.

(** X15.  Inside a transaction, [Get] returns for a key the value of the last
    put of the key, when no delete of the key came after it, and otherwise
    what the database held for the key when the transaction began: also
    after the transaction deleted the key. *)
Theorem Get_after_writes (d : Database) (t0 : Transaction) (ws : list write)
    (k : bytes) :
  BeginTransaction d = Some t0 ->
  Get k (fst (doWrites ws (t0, d)))
  = match written k ws None with
    | Some v => Some v
    | None => dbGet k d
    end.
Proof.
  intros Hb.
  destruct (BeginTransaction_Some d t0 Hb) as (Hc & Hf0 & _ & Hv0 & Hs0).
  destruct (doWrites_journal ws t0 d Hf0) as (Hf & Hs & _).
  unfold Get. rewrite Hf, (doWrites_values k ws t0 d Hf0), Hv0, lookup_empty.
  destruct (written k ws None); [reflexivity | ].
  unfold snapshotGet, dbGet. now rewrite Hs, Hs0, Hc.
Qed.

Lemma Get_after_writes_witness :
  let d := snd (dbPut "k" "old" 0 (NewDatabase 0)) in
  let t0 := {| snapshot := {["k" := "old"]}; finished := false;
               journals := []; values := ∅ |} in
  Get "k" (fst (doWrites [WPut "k" "new" 0; WDelete "k" 0] (t0, d))) = Some "old".
Proof.
  cbv zeta.
  rewrite (Get_after_writes (snd (dbPut "k" "old" 0 (NewDatabase 0)))).
  - reflexivity.
  - reflexivity.
Defined.

(** X16.  [Commit] leaves in the database, for every key, what the writes of the
    transaction made of the value the key had: the value of its last put,
    nothing after a delete, and the old value for a key that was not
    written. *)
Theorem Commit_stores_writes (d : Database) (t0 : Transaction)
    (ws : list write) (k : bytes) :
  BeginTransaction d = Some t0 ->
  let td := doWrites ws (t0, d) in
  dbGet k (snd (Commit (fst td) (snd td))) = written k ws (dbGet k d).
Proof.
  intros Hb. cbv zeta.
  destruct (BeginTransaction_Some d t0 Hb) as (Hc & Hf0 & Hj0 & _ & _).
  destruct (doWrites_journal ws t0 d Hf0) as (Hf & _ & Hj).
  destruct (doWrites_db ws t0 d) as [Hdb _].
  unfold Commit, dbGet. rewrite Hf, Hdb, Hc. cbn [snd db ldbClosed ldbData].
  rewrite Hj, Hj0. cbn [app]. apply applyJournal_written.
Qed.

Lemma Commit_stores_writes_witness :
  let d := snd (dbPut "k" "old" 0 (NewDatabase 0)) in
  let t0 := {| snapshot := {["k" := "old"]}; finished := false;
               journals := []; values := ∅ |} in
  let td := doWrites [WPut "k" "new" 0; WDelete "k" 0; WPut "j" "x" 0] (t0, d) in
  dbGet "k" (snd (Commit (fst td) (snd td))) = None
  /\ dbGet "j" (snd (Commit (fst td) (snd td))) = Some "x".
Proof.
  cbv zeta. split.
  - rewrite (Commit_stores_writes (snd (dbPut "k" "old" 0 (NewDatabase 0)))
               {| snapshot := {["k" := "old"]}; finished := false;
                  journals := []; values := ∅ |});
      reflexivity.
  - rewrite (Commit_stores_writes (snd (dbPut "k" "old" 0 (NewDatabase 0)))
               {| snapshot := {["k" := "old"]}; finished := false;
                  journals := []; values := ∅ |});
      reflexivity.
Defined.

(** *** A transaction that is finished *)

(** X17.  After [Commit] or [Discard] a transaction is finished: [Put], [Delete],
    [Commit] and [Discard] do nothing more, and [Get] returns nil.  This
    holds too when [Commit] could not open the LevelDB transaction, in which
    case nothing was stored and nothing can be stored later. *)
Theorem finished_transaction_is_inert (t : Transaction) (d : Database) :
  forall td, td = Commit t d \/ td = Discard t d ->
    finished (fst td) = true
    /\ (forall w, doWrite td w = td)
    /\ (forall k, Get k (fst td) = None)
    /\ Commit (fst td) (snd td) = td
    /\ Discard (fst td) (snd td) = td
    /\ (finished t = false -> ldbClosed (db d) = true ->
        td = Commit t d -> snd td = d).
Proof.
  assert (Hfin : forall td : Transaction * Database, finished (fst td) = true ->
            (forall w, doWrite td w = td)
            /\ (forall k, Get k (fst td) = None)
            /\ Commit (fst td) (snd td) = td
            /\ Discard (fst td) (snd td) = td).
  { intros [t' d'] Hf. cbn [fst snd] in *. repeat split.
    - intros w. destruct w; cbn [doWrite fst snd]; unfold Put, Delete;
        now rewrite Hf.
    - intros k. unfold Get. now rewrite Hf.
    - unfold Commit. now rewrite Hf.
    - unfold Discard. now rewrite Hf. }
  intros td Htd.
  assert (Hf : finished (fst td) = true).
  { destruct Htd as [-> | ->]; unfold Commit, Discard;
      destruct (finished t) eqn:Hft; try exact Hft; try reflexivity.
    now destruct (ldbClosed (db d)). }
  split; [exact Hf | ].
  destruct (Hfin td Hf) as (Hw & Hg & Hc & Hd).
  repeat split; try assumption.
  intros Hft Hcl ->. unfold Commit. now rewrite Hft, Hcl.
Qed.

Lemma finished_transaction_is_inert_witness :
  let t0 := {| snapshot := ∅; finished := false; journals := []; values := ∅ |} in
  let td := Commit (fst (Put "k" "v" 0 t0 (NewDatabase 0)))
                   (snd (Put "k" "v" 0 t0 (NewDatabase 0))) in
  doWrite td (WPut "j" "x" 0) = td /\ Get "k" (fst td) = None.
Proof.
  cbv zeta.
  destruct (finished_transaction_is_inert
              (fst (Put "k" "v" 0
                      {| snapshot := ∅; finished := false; journals := [];
                         values := ∅ |} (NewDatabase 0)))
              (snd (Put "k" "v" 0
                      {| snapshot := ∅; finished := false; journals := [];
                         values := ∅ |} (NewDatabase 0)))
              _ (or_introl eq_refl)) as (_ & Hw & Hg & _).
  split; [apply Hw | apply Hg].
Defined.

(** *** What the operations leave alone *)

(** X18.  The writes of a transaction and [Discard] work on the tries only: the
    LevelDB store is as it was.  [Commit] works on the LevelDB store only:
    the tries are as they were. *)
Theorem writes_leave_the_store (t : Transaction) (d : Database)
    (ws : list write) :
  db (snd (doWrites ws (t, d))) = db d
  /\ db (snd (Discard t d)) = db d
  /\ tries (snd (Commit t d)) = tries d.
Proof.
  split; [apply doWrites_db | ]. split.
  - unfold Discard. destruct (finished t); [reflexivity | ]. cbn [snd].
    generalize (journals t). intros js. revert d.
    induction js as [|j js IH]; intros d; [reflexivity | ].
    cbn [fold_left]. rewrite IH. unfold undoJournal.
    destruct (action j), (snapshotGet (snapshot t) (key j)); reflexivity.
  - unfold Commit. destruct (finished t); [reflexivity | ].
    destruct (ldbClosed (db d)); reflexivity.
Qed.

(** *** [put] and [get] of the database *)

(** X19.  On an open store [put] succeeds; afterwards [get] returns the value,
    the trie of the chain holds it, and the other keys and the tries of the
    other chains are as before.  On a closed store [put] fails and changes
    nothing, and [get] returns nil. *)
Theorem dbPut_dbGet (k v : bytes) (chain : Z) (d : Database) :
  (ldbClosed (db d) = false ->
   fst (dbPut k v chain d) = true
   /\ dbGet k (snd (dbPut k v chain d)) = Some v
   /\ trieGet chain k (snd (dbPut k v chain d)) = Some v
   /\ (forall k', k' <> k ->
         dbGet k' (snd (dbPut k v chain d)) = dbGet k' d
         /\ trieGet chain k' (snd (dbPut k v chain d)) = trieGet chain k' d)
   /\ (forall c, c <> chain ->
         tries (snd (dbPut k v chain d)) !! c = tries d !! c))
  /\ (ldbClosed (db d) = true ->
      dbPut k v chain d = (false, d) /\ forall k', dbGet k' d = None).
Proof.
  unfold dbPut, dbGet. split; intros Hc; rewrite Hc.
  - cbn [fst snd]. split; [reflexivity | ].
    split; [cbn; now rewrite lookup_insert_eq | ].
    split; [rewrite trieGet_updateTrie; unfold trieInsert;
            now rewrite lookup_insert_eq | ].
    split.
    + intros k' Hne. split.
      * cbn. now rewrite lookup_insert_ne by congruence.
      * rewrite trieGet_updateTrie. unfold trieInsert.
        rewrite lookup_insert_ne by congruence.
        rewrite trieGet_default. reflexivity.
    + intros c Hne. now rewrite tries_updateTrie_ne by congruence.
  - split; [reflexivity | ]. intros k'. reflexivity.
Qed.

Lemma dbPut_dbGet_witness :
  dbGet "k" (snd (dbPut "k" "v" 0 (NewDatabase 0))) = Some "v".
Proof.
  destruct (dbPut_dbGet "k" "v" 0 (NewDatabase 0)) as [H _].
  destruct (H eq_refl) as (_ & Hg & _). exact Hg.
Defined.

Lemma Discard_restores_chain0_witness :
  let d := snd (dbPut "k" "old" 0 (NewDatabase 0)) in
  let t0 := {| snapshot := {["k" := "old"]}; finished := false;
               journals := []; values := ∅ |} in
  let td := doWrites [WPut "k" "new" 0; WPut "j" "x" 0] (t0, d) in
  trieGet 0 "k" (snd td) = Some "new"
  /\ trieGet 0 "k" (snd (Discard (fst td) (snd td))) = Some "old"
  /\ trieGet 0 "j" (snd (Discard (fst td) (snd td))) = None.
Proof.
  cbv zeta. split; [reflexivity | ]. split.
  - rewrite (Discard_restores_chain0 (snd (dbPut "k" "old" 0 (NewDatabase 0)))
               {| snapshot := {["k" := "old"]}; finished := false;
                  journals := []; values := ∅ |}).
    + reflexivity.
    + reflexivity.
    + repeat constructor.
  - rewrite (Discard_restores_chain0 (snd (dbPut "k" "old" 0 (NewDatabase 0)))
               {| snapshot := {["k" := "old"]}; finished := false;
                  journals := []; values := ∅ |}).
    + reflexivity.
    + reflexivity.
    + repeat constructor.
Defined.

End Database.

(** ** The chain service: ProcessBlock, acceptBlock and the reorganization *)

Module ChainService.

(** [crypto.Hash] (32 bytes) and [crypto.CommonAddress] (20 bytes) are map
    keys and are compared for equality; a state root is compared with
    [bytes.Equal].  Each is modelled by the number its bytes encode. *)
Abbreviation Hash := N.
Abbreviation Address := N.
Abbreviation Root := N.

(** A transaction, as far as the chain service looks at it: its sender
    [tx.From()]; the rest of it is for the executor. *)
Record Transaction := mkTransaction {
  From : Address;
  payload : N
}.

(** [chainTypes.BlockHeader]; [hHash] is the value of [Header.Hash()]. *)
Record BlockHeader := mkBlockHeader {
  hHash : Hash;
  PreviousHash : Hash;
  Height : Z;
  StateRoot : Root
}.

Record Block := mkBlock {
  Header : BlockHeader;
  TxList : list Transaction
}.

(** [chainTypes.BlockNode] without its [Status] field.  Nodes are shared by
    pointer between the index, the best chain and the lists of a
    reorganization, and only [Status] is ever written, so the status of the
    nodes lives in the service ([nodeStatus] below, by the hash of the
    node) and a node value stands for the pointer.  Two pointers are equal
    when their nodes have the same hash. *)
#[local] Unset Elimination Schemes.
Inductive BlockNode := mkBlockNode {
  nHash : Hash;
  nHeight : Z;
  Parent : option BlockNode
}.
#[local] Set Elimination Schemes.

(** Modelled from the spec: package chainTypes is not among the source
    files.  By section 3 the status of a node is a set of the flags
    [DataStored], [Valid], [ValidateFailed] and [InvalidAncestor]; they are
    the bits of an integer. *)
Definition StatusDataStored : Z := 1.
Definition StatusValid : Z := 2.
Definition StatusValidateFailed : Z := 4.
Definition StatusInvalidAncestor : Z := 8.

Definition KnownValid (status : Z) : bool :=
  negb (Z.land status StatusValid =? 0).

Definition KnownInvalid (status : Z) : bool :=
  negb (Z.land status (Z.lor StatusValidateFailed StatusInvalidAncestor) =? 0).

(** [chainTypes.NewBlockNode(header, parent)]. *)
Definition NewBlockNode (header : BlockHeader) (parent : option BlockNode)
    : BlockNode :=
  {| nHash := hHash header; nHeight := Height header; Parent := parent |}.

(** [chainTypes.BestState], without the median time. *)
Record BestState := mkBestState {
  bsHash : Hash;
  bsHeight : Z
}.

Definition NewBestState (node : BlockNode) : BestState :=
  {| bsHash := nHash node; bsHeight := nHeight node |}.

Record OrphanBlock := mkOrphanBlock { oBlock : Block }.

(** The errors the service returns. *)
Inductive error :=
  | ErrAlreadyHaveBlock (h : Hash)
  | ErrAlreadyHaveOrphan (h : Hash)
  | ErrDatabase (code : N)
  | ErrExecute (code : N).

(** The operations of [DatabaseService], and the methods of the service
    that only work on it ([execute], [ExecuteTransactions],
    [CheckStateRoot]); none of them is among the source files, so the
    service is modelled over any implementation of them.  An
    [option error] is the returned error, [None] being nil.  [FlushIndex]
    is [Index.FlushToDB(DatabaseService.PutBlockNode)]: the nodes of the
    index and their status written through [PutBlockNode]. *)
Class DatabaseOps (DB : Type) := {
  PutBlock : Block -> DB -> option error * DB;
  GetBlock : Hash -> DB -> error + Block;
  FlushIndex : gmap N BlockNode -> gmap N Z -> DB -> option error * DB;
  Rollback2Block : Z -> DB -> DB;
  BeginTransaction : DB -> DB;
  Commit : DB -> DB;
  Discard : DB -> DB;
  GetStateRoot : DB -> Root;
  PutChainState : BestState -> DB -> DB;
  RecordBlockJournal : Z -> DB -> DB;
  execute : Transaction -> DB -> DB;
  ExecuteTransactions : Block -> DB -> option error * DB;
  CheckStateRoot : Block -> DB -> bool * DB
}.

Section Service.

Context {DB : Type} `{DatabaseOps DB}.

(** [ChainService]: the database service, the block index with the status
    of its nodes, the tip of the best chain, the orphans by their hash and
    by the hash of their parent, the state snapshot and what was sent on
    the feed of new blocks. *)
Record ChainService := mkChainService {
  DatabaseService : DB;
  Index : gmap N BlockNode;
  nodeStatus : gmap N Z;
  BestChain : BlockNode;
  orphans : gmap N OrphanBlock;
  prevOrphans : gmap N (list OrphanBlock);
  StateSnapshot : BestState;
  newBlockFeed : list (list Address)
}.

Definition setDatabase (d : DB) (cs : ChainService) : ChainService :=
  {| DatabaseService := d; Index := Index cs; nodeStatus := nodeStatus cs;
     BestChain := BestChain cs; orphans := orphans cs;
     prevOrphans := prevOrphans cs; StateSnapshot := StateSnapshot cs;
     newBlockFeed := newBlockFeed cs |}.

Definition setIndex (i : gmap N BlockNode) (s : gmap N Z)
    (cs : ChainService) : ChainService :=
  {| DatabaseService := DatabaseService cs; Index := i; nodeStatus := s;
     BestChain := BestChain cs; orphans := orphans cs;
     prevOrphans := prevOrphans cs; StateSnapshot := StateSnapshot cs;
     newBlockFeed := newBlockFeed cs |}.

Definition setOrphans (o : gmap N OrphanBlock) (p : gmap N (list OrphanBlock))
    (cs : ChainService) : ChainService :=
  {| DatabaseService := DatabaseService cs; Index := Index cs;
     nodeStatus := nodeStatus cs; BestChain := BestChain cs; orphans := o;
     prevOrphans := p; StateSnapshot := StateSnapshot cs;
     newBlockFeed := newBlockFeed cs |}.

(** What a call leaves behind: its results and the service, or a panic. *)
Inductive outcome (A : Type) :=
  | Returned (a : A) (cs : ChainService)
  | Panicked (cs : ChainService).

Arguments Returned {A} a cs.
Arguments Panicked {A} cs.

Definition serviceOf {A} (o : outcome A) : ChainService :=
  match o with Returned _ cs => cs | Panicked cs => cs end.

(** *** The block index and the best chain *)

(** Modelled from the spec: the block index and the chain view are not
    among the source files.  By section 4.E the index is a map from hashes
    to nodes; [NodeStatus] reads the status of a node (no flag for a node
    without one), [SetStatusFlags] adds flags to it, [Tip] and [SetTip]
    read and write the tip, and [FindFork] is the nearest ancestor of a
    node that is on the best chain. *)
Definition LookupNode (h : Hash) (cs : ChainService) : option BlockNode :=
  Index cs !! h.

Definition AddNode (node : BlockNode) (status : Z) (cs : ChainService)
    : ChainService :=
  setIndex (<[nHash node := node]> (Index cs))
           (<[nHash node := status]> (nodeStatus cs)) cs.

Definition NodeStatus (node : option BlockNode) (cs : ChainService) : Z :=
  match node with
  | Some n => default 0 (nodeStatus cs !! nHash n)
  | None => 0
  end.

Definition SetStatusFlags (node : BlockNode) (flags : Z) (cs : ChainService)
    : ChainService :=
  setIndex (Index cs)
           (<[nHash node := Z.lor (NodeStatus (Some node) cs) flags]> (nodeStatus cs))
           cs.

Definition Tip (cs : ChainService) : BlockNode := BestChain cs.

Definition SetTip (node : BlockNode) (cs : ChainService) : ChainService :=
  {| DatabaseService := DatabaseService cs; Index := Index cs;
     nodeStatus := nodeStatus cs; BestChain := node; orphans := orphans cs;
     prevOrphans := prevOrphans cs; StateSnapshot := StateSnapshot cs;
     newBlockFeed := newBlockFeed cs |}.

(** A node, its parent, the parent of its parent, and so on. *)
Fixpoint ancestors (n : BlockNode) : list BlockNode :=
  match n with
  | mkBlockNode _ _ p =>
      n :: match p with Some q => ancestors q | None => [] end
  end.

(** [n == m] for a node and a pointer that may be nil. *)
Definition sameNode (n : BlockNode) (m : option BlockNode) : bool :=
  match m with
  | Some m => (nHash n =? nHash m)%N
  | None => false
  end.

Definition onBestChain (n : BlockNode) (cs : ChainService) : bool :=
  existsb (fun a => (nHash n =? nHash a)%N) (ancestors (Tip cs)).

Definition FindFork (node : BlockNode) (cs : ChainService) : option BlockNode :=
  find (fun a => onBestChain a cs) (ancestors node).

(** [for n := start; n != nil && n != forkNode; n = n.Parent]: the nodes
    the loop visits. *)
Fixpoint untilFork (forkNode : option BlockNode) (path : list BlockNode)
    : list BlockNode :=
  match path with
  | [] => []
  | n :: rest => if sameNode n forkNode then [] else n :: untilFork forkNode rest
  end.

(** [Index.FlushToDB(DatabaseService.PutBlockNode)]. *)
Definition FlushToDB (cs : ChainService) : option error * ChainService :=
  let '(err, d) := FlushIndex (Index cs) (nodeStatus cs) (DatabaseService cs) in
  (err, setDatabase d cs).

(** [flushIndexState]: the error is logged and dropped. *)
Definition flushIndexState (cs : ChainService) : ChainService :=
  snd (FlushToDB cs).

(** [markState]. *)
Definition markState (blockNode : BlockNode) (cs : ChainService) : ChainService :=
  let state := NewBestState blockNode in
  let cs := setDatabase (PutChainState state (DatabaseService cs)) cs in
  let cs := SetTip blockNode cs in
  let cs :=
    {| DatabaseService := DatabaseService cs; Index := Index cs;
       nodeStatus := nodeStatus cs; BestChain := BestChain cs;
       orphans := orphans cs; prevOrphans := prevOrphans cs;
       StateSnapshot := state; newBlockFeed := newBlockFeed cs |} in
  setDatabase (RecordBlockJournal (bsHeight state) (DatabaseService cs)) cs.

(** *** getReorganizeNodes *)

(** The first loop of [getReorganizeNodes]: the nodes are pushed to the
    front of [attachNodes] until a known invalid one is met. *)
Fixpoint collectAttach (cs : ChainService) (path attachNodes : list BlockNode)
    : bool * list BlockNode :=
  match path with
  | [] => (false, attachNodes)
  | n :: rest =>
      if KnownInvalid (NodeStatus (Some n) cs) then (true, attachNodes)
      else collectAttach cs rest (n :: attachNodes)
  end.

(** [getReorganizeNodes]: the detach list, the attach list, and the service
    with the flags the function set. *)
Definition getReorganizeNodes (node : BlockNode) (cs : ChainService)
    : list BlockNode * list BlockNode * ChainService :=
  if KnownInvalid (NodeStatus (Parent node) cs) then
    ([], [], SetStatusFlags node StatusInvalidAncestor cs)
  else
    let forkNode := FindFork node cs in
    let '(invalidChain, attachNodes) :=
      collectAttach cs (untilFork forkNode (ancestors node)) [] in
    if invalidChain then
      ([], [],
       fold_left (fun cs n => SetStatusFlags n StatusInvalidAncestor cs)
                 attachNodes cs)
    else
      (untilFork forkNode (ancestors (Tip cs)), attachNodes, cs).

(** *** reorganizeChain *)

(** The loop of [reorganizeChain] over the nodes to attach: [inl err] when
    [GetBlock] failed (the function returns at once), otherwise whether
    every block matched its state root. *)
Fixpoint attachLoop (attachNodes : list BlockNode) (cs : ChainService)
    : (error + bool) * ChainService :=
  match attachNodes with
  | [] => (inr true, cs)
  | bkn :: rest =>
      match GetBlock (nHash bkn) (DatabaseService cs) with
      | inl err => (inl err, cs)
      | inr bk =>
          let cs := setDatabase (fold_left (fun d t => execute t d) (TxList bk)
                                           (DatabaseService cs)) cs in
          if (StateRoot (Header bk) =? GetStateRoot (DatabaseService cs))%N
          then attachLoop rest (markState bkn cs)
          else (inr false, cs)
      end
  end.

(** The steps of [reorganizeChain] before its loop: the state is rolled
    back to the height below [lastBlock], [lastBlock] is marked as the
    state, and the transaction is begun. *)
Definition rollbackAndBegin (lastBlock : BlockNode) (cs : ChainService)
    : ChainService :=
  let height := i64 (nHeight lastBlock - 1) in
  let cs := setDatabase (Rollback2Block height (DatabaseService cs)) cs in
  let cs := markState lastBlock cs in
  setDatabase (BeginTransaction (DatabaseService cs)) cs.

(** [reorganizeChain].  [detachNodes.Back()] of an empty list is nil, and
    [elem.Value] of nil is a nil pointer dereference. *)
Definition reorganizeChain (detachNodes attachNodes : list BlockNode)
    (cs : ChainService) : outcome (option error) :=
  match last detachNodes with
  | None => Panicked cs
  | Some lastBlock =>
      let cs := rollbackAndBegin lastBlock cs in
      match attachLoop attachNodes cs with
      | (inl err, cs) => Returned (Some err) cs
      | (inr success, cs) =>
          if success
          then Returned None (setDatabase (Commit (DatabaseService cs)) cs)
          else Returned None (setDatabase (Discard (DatabaseService cs)) cs)
      end
  end.

(** *** acceptBlock *)

Definition acceptBlock (block : Block) (cs : ChainService)
    : outcome (bool * option error) :=
  let prevNode := LookupNode (PreviousHash (Header block)) cs in
  match PutBlock block (DatabaseService cs) with
  | (Some err, d) => Returned (false, Some err) (setDatabase d cs)
  | (None, d) =>
      let cs := setDatabase d cs in
      let newNode := NewBlockNode (Header block) prevNode in
      let cs := AddNode newNode StatusDataStored cs in
      match FlushToDB cs with
      | (Some err, cs) => Returned (false, Some err) cs
      | (None, cs) =>
          if (PreviousHash (Header block) =? nHash (Tip cs))%N then
            let '(ok, d) := CheckStateRoot block (DatabaseService cs) in
            let cs := setDatabase d cs in
            let cs :=
              if ok then SetStatusFlags newNode StatusValid cs
              else SetStatusFlags newNode StatusValidateFailed cs in
            let cs := flushIndexState cs in
            match ExecuteTransactions block (DatabaseService cs) with
            | (Some err, d) =>
                let cs := setDatabase d cs in
                let cs := SetStatusFlags newNode StatusValidateFailed cs in
                Returned (false, Some err) (flushIndexState cs)
            | (None, d) =>
                let cs := setDatabase d cs in
                let cs := markState newNode cs in
                let cs :=
                  if KnownValid (NodeStatus (Some newNode) cs)
                  then flushIndexState (SetStatusFlags newNode StatusValid cs)
                  else cs in
                Returned (true, None) cs
            end
          else if i64 (Height (Header block) - nHeight (Tip cs)) <=? 0 then
            Returned (false, None) cs
          else
            let '(detachNodes, attachNodes, cs) := getReorganizeNodes newNode cs in
            match reorganizeChain detachNodes attachNodes cs with
            | Panicked cs => Panicked cs
            | Returned err cs =>
                let cs := snd (FlushToDB cs) in
                Returned (match err with None => true | Some _ => false end, err) cs
            end
      end
  end.

(** *** Orphans *)

(** Modelled from the spec: [blockExists], [addOrphanBlock] and
    [removeOrphanBlock] are not among the source files.  By section 4.H a
    block exists when the service has it, that is when the index has a node
    for its hash; an orphan is queued under its own hash and under the hash
    of its parent, and is taken out of both when it is removed. *)
Definition blockExists (h : Hash) (cs : ChainService) : bool :=
  bool_decide (is_Some (Index cs !! h)).

Definition addOrphanBlock (block : Block) (cs : ChainService) : ChainService :=
  let o := {| oBlock := block |} in
  let prev := PreviousHash (Header block) in
  setOrphans (<[hHash (Header block) := o]> (orphans cs))
             (<[prev := default [] (prevOrphans cs !! prev) ++ [o]]> (prevOrphans cs))
             cs.

Definition removeOrphanBlock (orphan : OrphanBlock) (cs : ChainService)
    : ChainService :=
  let orphanHash := hHash (Header (oBlock orphan)) in
  let prev := PreviousHash (Header (oBlock orphan)) in
  let left :=
    List.filter (fun o => negb (hHash (Header (oBlock o)) =? orphanHash)%N)
                (default [] (prevOrphans cs !! prev)) in
  setOrphans (delete orphanHash (orphans cs))
             (match left with
              | [] => delete prev (prevOrphans cs)
              | _ => <[prev := left]> (prevOrphans cs)
              end)
             cs.

(** [processOrphans].  [processHashes] is the queue of the outer loop, with
    the hash the inner loop is working on at its head: the inner loop
    always takes the first orphan waiting for that hash, removes it from
    the pool, accepts its block and queues its hash, and it moves on to the
    next hash of the queue when none is waiting.  [None] is a run that did
    not come to its end within [fuel] iterations. *)
Fixpoint processOrphansLoop (fuel : nat) (processHashes : list Hash)
    (cs : ChainService) : option (outcome (option error)) :=
  match fuel with
  | O => None
  | S fuel =>
      match processHashes with
      | [] => Some (Returned None cs)
      | processHash :: rest =>
          match default [] (prevOrphans cs !! processHash) with
          | [] => processOrphansLoop fuel rest cs
          | orphan :: _ =>
              let orphanHash := hHash (Header (oBlock orphan)) in
              let cs := removeOrphanBlock orphan cs in
              match acceptBlock (oBlock orphan) cs with
              | Panicked cs => Some (Panicked cs)
              | Returned (_, Some err) cs => Some (Returned (Some err) cs)
              | Returned (_, None) cs =>
                  processOrphansLoop fuel (processHash :: rest ++ [orphanHash]) cs
              end
          end
      end
  end.

Definition processOrphans (fuel : nat) (h : Hash) (cs : ChainService)
    : option (outcome (option error)) :=
  processOrphansLoop fuel [h] cs.

(** The senders of the transactions of a block, each once, in the order of
    their first transaction. *)
Definition senders (txs : list Transaction) : list Address :=
  fold_left (fun addrs tx =>
               if bool_decide (From tx ∈ addrs) then addrs else addrs ++ [From tx])
            txs [].

Definition feedSend (addrs : list Address) (cs : ChainService) : ChainService :=
  {| DatabaseService := DatabaseService cs; Index := Index cs;
     nodeStatus := nodeStatus cs; BestChain := BestChain cs;
     orphans := orphans cs; prevOrphans := prevOrphans cs;
     StateSnapshot := StateSnapshot cs;
     newBlockFeed := newBlockFeed cs ++ [addrs] |}.

(** [ProcessBlock]: the results are [isMainChain], [isOrphan] and the
    error. *)
Definition ProcessBlock (fuel : nat) (block : Block) (cs : ChainService)
    : option (outcome (bool * bool * option error)) :=
  let blockHash := hHash (Header block) in
  if blockExists blockHash cs then
    Some (Returned (false, false, Some (ErrAlreadyHaveBlock blockHash)) cs)
  else if bool_decide (is_Some (orphans cs !! blockHash)) then
    Some (Returned (false, false, Some (ErrAlreadyHaveOrphan blockHash)) cs)
  else
    let prevHash := PreviousHash (Header block) in
    if negb (blockExists prevHash cs) then
      Some (Returned (false, true, None) (addOrphanBlock block cs))
    else
      match acceptBlock block cs with
      | Panicked cs => Some (Panicked cs)
      | Returned (_, Some err) cs => Some (Returned (false, false, Some err) cs)
      | Returned (isMainChain, None) cs =>
          let cs :=
            if isMainChain then
              match senders (TxList block) with
              | [] => cs
              | addrs => feedSend addrs cs
              end
            else cs in
          match processOrphans fuel blockHash cs with
          | None => None
          | Some (Panicked cs) => Some (Panicked cs)
          | Some (Returned (Some err) cs) =>
              Some (Returned (false, false, Some err) cs)
          | Some (Returned None cs) =>
              Some (Returned (isMainChain, false, None) cs)
          end
      end.

(** The service after [acceptBlock] stored a block and added its node to
    the index. *)
Definition withStoredBlock (block : Block) (cs : ChainService) : ChainService :=
  AddNode (NewBlockNode (Header block) (LookupNode (PreviousHash (Header block)) cs))
          StatusDataStored
          (setDatabase (snd (PutBlock block (DatabaseService cs))) cs).

(** The database after the transactions of a block were executed. *)
Definition executeAll (bk : Block) (d : DB) : DB :=
  fold_left (fun d t => execute t d) (TxList bk) d.

(** *** Duplicate blocks *)

(** C7.  [ProcessBlock] of a block whose hash the service already has, or
    has queued as an orphan, returns the error of a duplicate, with both
    flags false, and the service it returns is the service it was called
    on: the block store, the index, the orphans, the tip and the state are
    what they were. *)
Theorem ProcessBlock_duplicate (fuel : nat) (block : Block) (cs : ChainService) :
  blockExists (hHash (Header block)) cs = true
  \/ is_Some (orphans cs !! hHash (Header block)) ->
  exists err,
    ProcessBlock fuel block cs = Some (Returned (false, false, Some err) cs)
    /\ (err = ErrAlreadyHaveBlock (hHash (Header block))
        \/ err = ErrAlreadyHaveOrphan (hHash (Header block))).
Proof.
  intros Hdup. unfold ProcessBlock.
  destruct (blockExists (hHash (Header block)) cs) eqn:He.
  - eexists. split; [reflexivity | now left].
  - destruct Hdup as [Hdup|Hdup]; [discriminate | ].
    rewrite bool_decide_eq_true_2 by exact Hdup.
    eexists. split; [reflexivity | now right].
Qed.

(** *** The reorganization *)

Lemma nodeStatus_markState n cs : nodeStatus (markState n cs) = nodeStatus cs.
Proof. reflexivity. Qed.

Lemma BestChain_markState n cs : BestChain (markState n cs) = n.
Proof. reflexivity. Qed.

(** The loop over the nodes to attach writes no status. *)
Lemma nodeStatus_attachLoop attachNodes : forall cs,
  nodeStatus (snd (attachLoop attachNodes cs)) = nodeStatus cs.
Proof.
  induction attachNodes as [|bkn rest IH]; intros cs; simpl; [reflexivity | ].
  destruct (GetBlock (nHash bkn) (DatabaseService cs)) as [err|bk];
    [reflexivity | ].
  destruct (_ =? _)%N; [ | reflexivity].
  rewrite IH. reflexivity.
Qed.

(** [reorganizeChain] writes no status, whatever happens in it. *)
Lemma nodeStatus_reorganizeChain detachNodes attachNodes cs :
  nodeStatus (serviceOf (reorganizeChain detachNodes attachNodes cs))
  = nodeStatus cs.
Proof.
  unfold reorganizeChain. destruct (last detachNodes) as [lastBlock|];
    [ | reflexivity].
  pose proof (nodeStatus_attachLoop attachNodes (rollbackAndBegin lastBlock cs))
    as Hs.
  destruct (attachLoop attachNodes (rollbackAndBegin lastBlock cs))
    as [[err|[|]] cs']; simpl in *; exact Hs.
Qed.

(** C2.  When the first block to attach does not give the state root of its
    header, [reorganizeChain] discards the transaction and returns nil; the
    status of no node has changed, so the failing node is not marked
    [ValidateFailed], and the tip is the last node of the detach list, the
    one next to the fork, whatever the tip was before.  The roll back, and
    what [markState] wrote for that node, were done before the transaction
    began. *)
Theorem reorganizeChain_mismatch
    (detachNodes rest : list BlockNode) (lastBlock bkn : BlockNode)
    (bk : Block) (cs : ChainService) :
  last detachNodes = Some lastBlock ->
  let cs1 := rollbackAndBegin lastBlock cs in
  GetBlock (nHash bkn) (DatabaseService cs1) = inr bk ->
  StateRoot (Header bk) <> GetStateRoot (executeAll bk (DatabaseService cs1)) ->
  exists cs',
    reorganizeChain detachNodes (bkn :: rest) cs = Returned None cs'
    /\ DatabaseService cs' = Discard (executeAll bk (DatabaseService cs1))
    /\ nodeStatus cs' = nodeStatus cs
    /\ NodeStatus (Some bkn) cs' = NodeStatus (Some bkn) cs
    /\ BestChain cs' = lastBlock
    /\ StateSnapshot cs' = NewBestState lastBlock.
Proof.
  intros Hlast cs1 Hget Hroot. subst cs1.
  unfold reorganizeChain. rewrite Hlast. cbv zeta.
  cbn [attachLoop]. rewrite Hget. cbv zeta.
  cbn [DatabaseService setDatabase].
  apply N.eqb_neq in Hroot. unfold executeAll in Hroot. rewrite Hroot.
  eexists. split; [reflexivity | ].
  repeat split.
Qed.

(** When every block to attach gives the state root of its header,
    [reorganizeChain] commits: this is the loop for one block. *)
Lemma reorganizeChain_match_one
    (detachNodes : list BlockNode) (lastBlock bkn : BlockNode)
    (bk : Block) (cs : ChainService) :
  last detachNodes = Some lastBlock ->
  let cs1 := rollbackAndBegin lastBlock cs in
  GetBlock (nHash bkn) (DatabaseService cs1) = inr bk ->
  StateRoot (Header bk) = GetStateRoot (executeAll bk (DatabaseService cs1)) ->
  exists cs',
    reorganizeChain detachNodes [bkn] cs = Returned None cs'
    /\ BestChain cs' = bkn
    /\ DatabaseService cs'
       = Commit (RecordBlockJournal (nHeight bkn)
                   (PutChainState (NewBestState bkn)
                      (executeAll bk (DatabaseService cs1)))).
Proof.
  intros Hlast cs1 Hget Hroot. subst cs1.
  unfold reorganizeChain. rewrite Hlast. cbv zeta.
  cbn [attachLoop]. rewrite Hget. cbv zeta.
  cbn [DatabaseService setDatabase].
  apply N.eqb_eq in Hroot. unfold executeAll in Hroot. rewrite Hroot.
  eexists. split; [reflexivity | ]. split; reflexivity.
Qed.

(** *** The nil dereference of [reorganizeChain] *)

Lemma getReorganizeNodes_invalid_parent node cs :
  KnownInvalid (NodeStatus (Parent node) cs) = true ->
  getReorganizeNodes node cs
  = ([], [], SetStatusFlags node StatusInvalidAncestor cs).
Proof. intros Hinv. unfold getReorganizeNodes. now rewrite Hinv. Qed.

(** With an invalid node on the way to the fork, the lists are empty as
    well. *)
Lemma getReorganizeNodes_invalid_chain node cs attachNodes :
  KnownInvalid (NodeStatus (Parent node) cs) = false ->
  collectAttach cs (untilFork (FindFork node cs) (ancestors node)) []
    = (true, attachNodes) ->
  fst (getReorganizeNodes node cs) = ([], []).
Proof.
  intros Hp Hc. unfold getReorganizeNodes. rewrite Hp, Hc. reflexivity.
Qed.

Lemma last_is_Some {A} (l : list A) : l <> [] -> is_Some (last l).
Proof.
  induction l as [|x [|y l] IH]; intros Hne; [congruence | now eexists | ].
  apply IH. discriminate.
Qed.

(** C10.  [reorganizeChain] on an empty detach list dereferences nil; on a
    detach list that is not empty it returns; and [acceptBlock] gets to
    [reorganizeChain] with empty lists, and so to the dereference, for a
    block that is higher than the tip and whose parent, not the tip, is
    known to be invalid. *)
Theorem reorganizeChain_nil_dereference :
  (forall attachNodes cs,
     reorganizeChain [] attachNodes cs = Panicked cs)
  /\ (forall detachNodes attachNodes cs,
        detachNodes <> [] ->
        exists err cs',
          reorganizeChain detachNodes attachNodes cs = Returned err cs')
  /\ (forall block cs p,
        let newNode := NewBlockNode (Header block) (Some p) in
        LookupNode (PreviousHash (Header block)) cs = Some p ->
        nHash p <> hHash (Header block) ->
        KnownInvalid (NodeStatus (Some p) cs) = true ->
        fst (PutBlock block (DatabaseService cs)) = None ->
        fst (FlushToDB (withStoredBlock block cs)) = None ->
        PreviousHash (Header block) <> nHash (Tip cs) ->
        0 < i64 (Height (Header block) - nHeight (Tip cs)) ->
        getReorganizeNodes newNode (snd (FlushToDB (withStoredBlock block cs)))
          = ([], [], SetStatusFlags newNode StatusInvalidAncestor
                       (snd (FlushToDB (withStoredBlock block cs))))
        /\ acceptBlock block cs
           = Panicked (SetStatusFlags newNode StatusInvalidAncestor
                         (snd (FlushToDB (withStoredBlock block cs))))).
Proof.
  split; [reflexivity | split].
  - intros detachNodes attachNodes cs Hne.
    unfold reorganizeChain.
    destruct (last_is_Some detachNodes Hne) as [lastBlock ->].
    destruct (attachLoop attachNodes (rollbackAndBegin lastBlock cs))
      as [[err|[|]] cs']; eauto.
  - intros block cs p newNode Hp Hne Hinv Hput Hflush Htip Hheight.
    assert (Hinv' : KnownInvalid
              (NodeStatus (Parent newNode) (snd (FlushToDB (withStoredBlock block cs))))
              = true).
    { rewrite <- Hinv. f_equal. unfold FlushToDB, withStoredBlock.
      destruct (FlushIndex _ _ _) as [e d]. simpl.
      now rewrite lookup_insert_ne by (intros E; apply Hne; symmetry; exact E). }
    split; [now apply getReorganizeNodes_invalid_parent | ].
    unfold acceptBlock.
    destruct (PutBlock block (DatabaseService cs)) as [e d] eqn:HP.
    simpl in Hput. subst e.
    assert (Hw : AddNode (NewBlockNode (Header block)
                            (LookupNode (PreviousHash (Header block)) cs))
                         StatusDataStored (setDatabase d cs)
                 = withStoredBlock block cs).
    { unfold withStoredBlock. now rewrite HP. }
    rewrite Hw.
    assert (Htip' : Tip (snd (FlushToDB (withStoredBlock block cs))) = Tip cs).
    { unfold FlushToDB. now destruct (FlushIndex _ _ _). }
    destruct (FlushToDB (withStoredBlock block cs)) as [e cs2] eqn:HF.
    simpl in Hflush, Hinv', Htip'. subst e. rewrite Htip'.
    apply N.eqb_neq in Htip. rewrite Htip.
    destruct (i64 (Height (Header block) - nHeight (Tip cs)) <=? 0) eqn:Hle;
      [apply Z.leb_le in Hle; lia | ].
    rewrite Hp. fold newNode.
    rewrite (getReorganizeNodes_invalid_parent newNode cs2 Hinv').
    reflexivity.
Qed.

(** *** A block on the tip, and a block on a side branch *)

(** The node [acceptBlock] makes for a block. *)
Definition nodeOf (block : Block) (cs : ChainService) : BlockNode :=
  NewBlockNode (Header block) (LookupNode (PreviousHash (Header block)) cs).

(** The service after [acceptBlock] stored the block and flushed the
    index, and after it checked the state root of the block and flagged
    its node. *)
Definition stored (block : Block) (cs : ChainService) : ChainService :=
  snd (FlushToDB (withStoredBlock block cs)).

Definition checked (block : Block) (cs : ChainService) : ChainService :=
  let cs2 := stored block cs in
  let '(ok, d) := CheckStateRoot block (DatabaseService cs2) in
  flushIndexState
    (SetStatusFlags (nodeOf block cs)
       (if ok then StatusValid else StatusValidateFailed) (setDatabase d cs2)).

Lemma FlushToDB_frame cs :
  Index (snd (FlushToDB cs)) = Index cs
  /\ nodeStatus (snd (FlushToDB cs)) = nodeStatus cs
  /\ BestChain (snd (FlushToDB cs)) = BestChain cs
  /\ StateSnapshot (snd (FlushToDB cs)) = StateSnapshot cs
  /\ orphans (snd (FlushToDB cs)) = orphans cs
  /\ prevOrphans (snd (FlushToDB cs)) = prevOrphans cs
  /\ newBlockFeed (snd (FlushToDB cs)) = newBlockFeed cs.
Proof. unfold FlushToDB. destruct (FlushIndex _ _ _). now repeat split. Qed.

Lemma stored_frame block cs :
  Index (stored block cs) = <[hHash (Header block) := nodeOf block cs]> (Index cs)
  /\ nodeStatus (stored block cs)
     = <[hHash (Header block) := StatusDataStored]> (nodeStatus cs)
  /\ BestChain (stored block cs) = BestChain cs
  /\ StateSnapshot (stored block cs) = StateSnapshot cs
  /\ orphans (stored block cs) = orphans cs
  /\ prevOrphans (stored block cs) = prevOrphans cs
  /\ newBlockFeed (stored block cs) = newBlockFeed cs.
Proof.
  unfold stored.
  destruct (FlushToDB_frame (withStoredBlock block cs))
    as (-> & -> & -> & -> & -> & -> & ->).
  now repeat split.
Qed.

Lemma checked_frame block cs :
  nodeStatus (checked block cs)
  = <[hHash (Header block) :=
        Z.lor StatusDataStored
          (if fst (CheckStateRoot block (DatabaseService (stored block cs)))
           then StatusValid else StatusValidateFailed)]>
      (nodeStatus cs)
  /\ BestChain (checked block cs) = BestChain cs
  /\ StateSnapshot (checked block cs) = StateSnapshot cs
  /\ orphans (checked block cs) = orphans cs
  /\ prevOrphans (checked block cs) = prevOrphans cs
  /\ newBlockFeed (checked block cs) = newBlockFeed cs.
Proof.
  unfold checked, flushIndexState.
  destruct (stored_frame block cs) as (_ & Hs & Hb & Hsn & Ho & Hp & Hf).
  destruct (CheckStateRoot block (DatabaseService (stored block cs))) as [ok d].
  cbn [fst].
  match goal with
  | |- context [FlushToDB ?c] =>
      destruct (FlushToDB_frame c) as (_ & -> & -> & -> & -> & -> & ->)
  end.
  cbn [nodeStatus BestChain StateSnapshot orphans prevOrphans newBlockFeed
       SetStatusFlags setIndex setDatabase NodeStatus nodeOf NewBlockNode nHash].
  rewrite Hs, Hb, Hsn, Ho, Hp, Hf. rewrite lookup_insert_eq.
  cbn [default from_option id]. rewrite insert_insert_eq.
  now repeat split.
Qed.

(** [acceptBlock] once the block is stored and the index flushed. *)
Lemma acceptBlock_stored block cs :
  fst (PutBlock block (DatabaseService cs)) = None ->
  fst (FlushToDB (withStoredBlock block cs)) = None ->
  acceptBlock block cs
  = if (PreviousHash (Header block) =? nHash (Tip cs))%N then
      match ExecuteTransactions block (DatabaseService (checked block cs)) with
      | (Some err, d) =>
          Returned (false, Some err)
            (flushIndexState
               (SetStatusFlags (nodeOf block cs) StatusValidateFailed
                  (setDatabase d (checked block cs))))
      | (None, d) =>
          let cs' := markState (nodeOf block cs) (setDatabase d (checked block cs)) in
          Returned (true, None)
            (if KnownValid (NodeStatus (Some (nodeOf block cs)) cs')
             then flushIndexState (SetStatusFlags (nodeOf block cs) StatusValid cs')
             else cs')
      end
    else if i64 (Height (Header block) - nHeight (Tip cs)) <=? 0 then
      Returned (false, None) (stored block cs)
    else
      let '(detachNodes, attachNodes, cs') :=
        getReorganizeNodes (nodeOf block cs) (stored block cs) in
      match reorganizeChain detachNodes attachNodes cs' with
      | Panicked cs' => Panicked cs'
      | Returned err cs' =>
          Returned (match err with None => true | Some _ => false end, err)
                   (snd (FlushToDB cs'))
      end.
Proof.
  intros Hput Hflush. unfold acceptBlock, checked, stored, nodeOf.
  destruct (PutBlock block (DatabaseService cs)) as [e d] eqn:HP.
  cbn [fst] in Hput. subst e.
  assert (Hw : AddNode (NewBlockNode (Header block)
                          (LookupNode (PreviousHash (Header block)) cs))
                       StatusDataStored (setDatabase d cs)
               = withStoredBlock block cs).
  { unfold withStoredBlock. now rewrite HP. }
  rewrite Hw.
  assert (Htip : Tip (snd (FlushToDB (withStoredBlock block cs))) = Tip cs).
  { unfold FlushToDB. now destruct (FlushIndex _ _ _). }
  destruct (FlushToDB (withStoredBlock block cs)) as [e cs2] eqn:HF.
  cbn [fst snd] in *. subst e. rewrite Htip.
  destruct (PreviousHash (Header block) =? nHash (Tip cs))%N; [ | reflexivity].
  destruct (CheckStateRoot block (DatabaseService cs2)) as [ok d3].
  destruct ok; reflexivity.
Qed.

Lemma KnownValid_stored_flag (ok : bool) :
  KnownValid (Z.lor StatusDataStored (if ok then StatusValid else StatusValidateFailed))
  = ok.
Proof. now destruct ok. Qed.

Lemma acceptBlock_extends_tip_aux block cs :
  fst (PutBlock block (DatabaseService cs)) = None ->
  fst (FlushToDB (withStoredBlock block cs)) = None ->
  PreviousHash (Header block) = nHash (Tip cs) ->
  fst (ExecuteTransactions block (DatabaseService (checked block cs))) = None ->
  exists cs',
    acceptBlock block cs = Returned (true, None) cs'
    /\ Tip cs' = nodeOf block cs
    /\ StateSnapshot cs' = NewBestState (nodeOf block cs)
    /\ NodeStatus (Some (nodeOf block cs)) cs'
       = Z.lor StatusDataStored
           (if fst (CheckStateRoot block (DatabaseService (stored block cs)))
            then StatusValid else StatusValidateFailed)
    /\ orphans cs' = orphans cs
    /\ prevOrphans cs' = prevOrphans cs
    /\ newBlockFeed cs' = newBlockFeed cs.
Proof.
  intros Hput Hflush Hprev Hexec.
  rewrite (acceptBlock_stored block cs Hput Hflush).
  apply N.eqb_eq in Hprev. rewrite Hprev.
  destruct (checked_frame block cs) as (Hs & Hb & Hsn & Ho & Hp & Hf).
  destruct (ExecuteTransactions block (DatabaseService (checked block cs)))
    as [e d] eqn:HE.
  cbn [fst] in Hexec. subst e. cbv zeta.
  set (ok := fst (CheckStateRoot block (DatabaseService (stored block cs)))) in *.
  assert (Hst : NodeStatus (Some (nodeOf block cs))
                  (markState (nodeOf block cs) (setDatabase d (checked block cs)))
                = Z.lor StatusDataStored
                    (if ok then StatusValid else StatusValidateFailed)).
  { unfold NodeStatus. rewrite nodeStatus_markState. cbn [nodeStatus setDatabase].
    rewrite Hs. cbn [nodeOf NewBlockNode nHash]. now rewrite lookup_insert_eq. }
  rewrite Hst, KnownValid_stored_flag.
  destruct ok.
  - eexists. split; [reflexivity | ]. unfold flushIndexState, NodeStatus, Tip.
    match goal with
    | |- context [FlushToDB ?c] =>
        destruct (FlushToDB_frame c) as (_ & Hs' & Hb' & Hsn' & Ho' & Hp' & Hf')
    end.
    rewrite Hs', Hb', Hsn', Ho', Hp', Hf'.
    cbn [nodeStatus BestChain StateSnapshot orphans prevOrphans newBlockFeed
         SetStatusFlags setIndex setDatabase markState SetTip NodeStatus].
    rewrite Hs. cbn [nodeOf NewBlockNode nHash].
    rewrite !lookup_insert_eq. cbn [default from_option id].
    repeat split; assumption.
  - eexists. split; [reflexivity | ].
    split; [reflexivity | ]. split; [reflexivity | ]. split; [exact Hst | ].
    cbn [orphans prevOrphans newBlockFeed markState setDatabase SetTip].
    repeat split; assumption.
Qed.

(** X20.  A block on the tip that is stored and whose transactions execute
    becomes the tip and the state of the service, and [acceptBlock] returns
    true, whether or not the state root of the block checks: its node is
    flagged [Valid] when the root checks and [ValidateFailed] when it does
    not. *)
Theorem acceptBlock_extends_tip block cs :
  fst (PutBlock block (DatabaseService cs)) = None ->
  fst (FlushToDB (withStoredBlock block cs)) = None ->
  PreviousHash (Header block) = nHash (Tip cs) ->
  fst (ExecuteTransactions block (DatabaseService (checked block cs))) = None ->
  exists cs',
    acceptBlock block cs = Returned (true, None) cs'
    /\ Tip cs' = nodeOf block cs
    /\ StateSnapshot cs' = NewBestState (nodeOf block cs)
    /\ NodeStatus (Some (nodeOf block cs)) cs'
       = Z.lor StatusDataStored
           (if fst (CheckStateRoot block (DatabaseService (stored block cs)))
            then StatusValid else StatusValidateFailed)
    /\ orphans cs' = orphans cs
    /\ prevOrphans cs' = prevOrphans cs
    /\ newBlockFeed cs' = newBlockFeed cs.
Proof. exact (acceptBlock_extends_tip_aux block cs). Qed.

(** X21.  When the transactions of a block on the tip do not execute,
    [acceptBlock] returns the error; the tip and the state stay, and the
    node of the block is known invalid, besides being known valid when its
    state root had checked. *)
Theorem acceptBlock_execution_fails block cs err :
  fst (PutBlock block (DatabaseService cs)) = None ->
  fst (FlushToDB (withStoredBlock block cs)) = None ->
  PreviousHash (Header block) = nHash (Tip cs) ->
  fst (ExecuteTransactions block (DatabaseService (checked block cs))) = Some err ->
  exists cs',
    acceptBlock block cs = Returned (false, Some err) cs'
    /\ Tip cs' = Tip cs
    /\ StateSnapshot cs' = StateSnapshot cs
    /\ KnownInvalid (NodeStatus (Some (nodeOf block cs)) cs') = true
    /\ KnownValid (NodeStatus (Some (nodeOf block cs)) cs')
       = fst (CheckStateRoot block (DatabaseService (stored block cs))).
Proof.
  intros Hput Hflush Hprev Hexec.
  rewrite (acceptBlock_stored block cs Hput Hflush).
  apply N.eqb_eq in Hprev. rewrite Hprev.
  destruct (checked_frame block cs) as (Hs & Hb & Hsn & _).
  destruct (ExecuteTransactions block (DatabaseService (checked block cs)))
    as [e d] eqn:HE.
  cbn [fst] in Hexec. subst e.
  eexists. split; [reflexivity | ]. unfold flushIndexState.
  match goal with
  | |- context [FlushToDB ?c] =>
      destruct (FlushToDB_frame c) as (_ & Hs' & Hb' & Hsn' & _)
  end.
  unfold NodeStatus, Tip. rewrite Hs', Hb', Hsn'.
  cbn [nodeStatus BestChain StateSnapshot SetStatusFlags setIndex setDatabase
       NodeStatus].
  rewrite Hs. cbn [nodeOf NewBlockNode nHash].
  rewrite !lookup_insert_eq. cbn [default from_option id].
  split; [exact Hb | ]. split; [exact Hsn | ].
  destruct (fst (CheckStateRoot block (DatabaseService (stored block cs))));
    split; reflexivity.
Qed.

(** A block that is not on the tip and is not higher than the tip is
    stored, with a node in the index that is flagged [DataStored] only, and
    nothing else happens: the tip and the state stay. *)
Theorem acceptBlock_side_branch block cs :
  fst (PutBlock block (DatabaseService cs)) = None ->
  fst (FlushToDB (withStoredBlock block cs)) = None ->
  PreviousHash (Header block) <> nHash (Tip cs) ->
  i64 (Height (Header block) - nHeight (Tip cs)) <= 0 ->
  exists cs',
    acceptBlock block cs = Returned (false, None) cs'
    /\ Tip cs' = Tip cs
    /\ StateSnapshot cs' = StateSnapshot cs
    /\ LookupNode (hHash (Header block)) cs' = Some (nodeOf block cs)
    /\ NodeStatus (Some (nodeOf block cs)) cs' = StatusDataStored
    /\ DatabaseService cs'
       = snd (FlushIndex (Index cs') (nodeStatus cs')
                (snd (PutBlock block (DatabaseService cs)))).
Proof.
  intros Hput Hflush Hprev Hheight.
  rewrite (acceptBlock_stored block cs Hput Hflush).
  apply N.eqb_neq in Hprev. rewrite Hprev.
  apply Z.leb_le in Hheight. rewrite Hheight.
  destruct (stored_frame block cs) as (Hi & Hs & Hb & Hsn & _).
  eexists. split; [reflexivity | ].
  unfold Tip, LookupNode, NodeStatus. rewrite Hi, Hs, Hb, Hsn.
  cbn [nodeOf NewBlockNode nHash]. rewrite !lookup_insert_eq.
  repeat split.
  unfold stored, FlushToDB, withStoredBlock, nodeOf.
  cbn [AddNode setIndex setDatabase Index nodeStatus DatabaseService
       NewBlockNode nHash].
  now destruct (FlushIndex _ _ _).
Qed.

(** *** The lists of a reorganization *)

(** No node of a path is known invalid. *)
Definition noneInvalid (cs : ChainService) (path : list BlockNode) : Prop :=
  Forall (fun n => KnownInvalid (NodeStatus (Some n) cs) = false) path.

Lemma collectAttach_valid cs path : forall attachNodes,
  noneInvalid cs path ->
  collectAttach cs path attachNodes = (false, rev path ++ attachNodes).
Proof.
  induction path as [|n path IH]; intros attachNodes Hall; [reflexivity | ].
  inversion Hall as [|? ? Hn Hrest]; subst.
  cbn [collectAttach rev]. rewrite Hn, IH by exact Hrest.
  now rewrite <- app_assoc.
Qed.

Lemma collectAttach_invalid cs before n after : forall attachNodes,
  noneInvalid cs before ->
  KnownInvalid (NodeStatus (Some n) cs) = true ->
  collectAttach cs (before ++ n :: after) attachNodes
  = (true, rev before ++ attachNodes).
Proof.
  induction before as [|m before IH]; intros attachNodes Hall Hinv.
  - cbn [app collectAttach rev]. now rewrite Hinv.
  - inversion Hall as [|? ? Hm Hrest]; subst.
    cbn [app collectAttach rev]. rewrite Hm, IH by assumption.
    now rewrite <- app_assoc.
Qed.

Lemma getReorganizeNodes_valid node cs :
  KnownInvalid (NodeStatus (Parent node) cs) = false ->
  noneInvalid cs (untilFork (FindFork node cs) (ancestors node)) ->
  getReorganizeNodes node cs
  = (untilFork (FindFork node cs) (ancestors (Tip cs)),
     rev (untilFork (FindFork node cs) (ancestors node)),
     cs).
Proof.
  intros Hp Hall. unfold getReorganizeNodes. rewrite Hp.
  rewrite collectAttach_valid by exact Hall. now rewrite app_nil_r.
Qed.

(** X22.  When neither the parent of a node nor a node on its branch down to the
    fork is known invalid, [getReorganizeNodes] changes no status and
    returns, to detach, the best chain from the tip down to the node above
    the fork and, to attach, the branch of the node from the node above
    the fork up to the node itself. *)
Theorem getReorganizeNodes_lists node cs :
  KnownInvalid (NodeStatus (Parent node) cs) = false ->
  noneInvalid cs (untilFork (FindFork node cs) (ancestors node)) ->
  getReorganizeNodes node cs
  = (untilFork (FindFork node cs) (ancestors (Tip cs)),
     rev (untilFork (FindFork node cs) (ancestors node)),
     cs).
Proof. exact (getReorganizeNodes_valid node cs). Qed.

Lemma KnownInvalid_flagged (status : Z) :
  KnownInvalid (Z.lor status StatusInvalidAncestor) = true.
Proof.
  unfold KnownInvalid. apply negb_true_iff, Z.eqb_neq. intros Hz.
  apply (f_equal (fun z => Z.testbit z 3)) in Hz.
  rewrite Z.land_spec, Z.lor_spec in Hz.
  cbn in Hz. rewrite orb_true_r in Hz. discriminate.
Qed.

Lemma flagged_status (flags : Z) (l : list BlockNode) : forall cs h,
  nodeStatus (fold_left (fun cs n => SetStatusFlags n flags cs) l cs) !! h
  = if decide (h ∈ map nHash l)
    then Some (Z.lor (default 0 (nodeStatus cs !! h)) flags)
    else nodeStatus cs !! h.
Proof.
  induction l as [|n l IH]; intros cs h; cbn [fold_left map].
  - rewrite decide_False; [reflexivity | apply not_elem_of_nil].
  - rewrite IH. cbn [SetStatusFlags setIndex nodeStatus NodeStatus].
    destruct (decide (h ∈ map nHash l)) as [Hin|Hnin].
    + rewrite decide_True by (apply elem_of_cons; now right).
      destruct (decide (nHash n = h)) as [<-|Hne].
      * rewrite lookup_insert_eq. cbn [default from_option id].
        f_equal. rewrite <- Z.lor_assoc. now rewrite Z.lor_diag.
      * now rewrite lookup_insert_ne.
    + destruct (decide (nHash n = h)) as [<-|Hne].
      * rewrite decide_True by (apply elem_of_cons; now left).
        now rewrite lookup_insert_eq.
      * rewrite decide_False.
        -- now rewrite lookup_insert_ne.
        -- intros Hin. apply elem_of_cons in Hin.
           destruct Hin; [congruence | contradiction].
Qed.

Lemma flagged_tip (flags : Z) (l : list BlockNode) : forall cs,
  Tip (fold_left (fun cs n => SetStatusFlags n flags cs) l cs) = Tip cs.
Proof.
  induction l as [|m l IH]; intros cs; cbn [fold_left]; [reflexivity | ].
  now rewrite IH.
Qed.

(** X23.  When a node on the branch of [node] down to the fork is known invalid,
    while its parent is not, [getReorganizeNodes] returns two empty lists,
    and flags the nodes of the branch above the invalid one as
    [InvalidAncestor], which makes them known invalid; the status of the
    other nodes stays. *)
Theorem getReorganizeNodes_invalid_ancestor node cs before n after :
  KnownInvalid (NodeStatus (Parent node) cs) = false ->
  untilFork (FindFork node cs) (ancestors node) = before ++ n :: after ->
  noneInvalid cs before ->
  KnownInvalid (NodeStatus (Some n) cs) = true ->
  exists cs',
    getReorganizeNodes node cs = ([], [], cs')
    /\ (forall m, m ∈ before -> KnownInvalid (NodeStatus (Some m) cs') = true)
    /\ (forall h, h ∉ map nHash before ->
          nodeStatus cs' !! h = nodeStatus cs !! h)
    /\ Tip cs' = Tip cs.
Proof.
  intros Hp Hpath Hall Hinv. unfold getReorganizeNodes.
  rewrite Hp, Hpath, (collectAttach_invalid cs before n after [] Hall Hinv).
  rewrite app_nil_r.
  eexists. split; [reflexivity | ]. split; [ | split].
  - intros m Hm. unfold NodeStatus. rewrite flagged_status.
    rewrite decide_True.
    + cbn [default from_option id]. apply KnownInvalid_flagged.
    + rewrite map_rev. apply list_elem_of_In, in_rev.
      rewrite rev_involutive. apply in_map. now apply list_elem_of_In.
  - intros h Hh. rewrite flagged_status. rewrite decide_False; [reflexivity | ].
    intros Hin. apply Hh. rewrite map_rev in Hin.
    apply list_elem_of_In, in_rev in Hin. now apply list_elem_of_In.
  - apply flagged_tip.
Qed.

(** *** A branch that starts at the tip *)

Lemma untilFork_at_head forkNode n :
  sameNode n forkNode = true -> untilFork forkNode (ancestors n) = [].
Proof.
  intros Hs. destruct n as [h ht p]. cbn [ancestors untilFork].
  now rewrite Hs.
Qed.

Lemma acceptBlock_fork_at_tip_aux block cs :
  fst (PutBlock block (DatabaseService cs)) = None ->
  fst (FlushToDB (withStoredBlock block cs)) = None ->
  PreviousHash (Header block) <> nHash (Tip cs) ->
  0 < i64 (Height (Header block) - nHeight (Tip cs)) ->
  KnownInvalid (NodeStatus (Parent (nodeOf block cs)) (stored block cs)) = false ->
  noneInvalid (stored block cs)
    (untilFork (FindFork (nodeOf block cs) (stored block cs))
               (ancestors (nodeOf block cs))) ->
  sameNode (Tip cs) (FindFork (nodeOf block cs) (stored block cs)) = true ->
  acceptBlock block cs = Panicked (stored block cs).
Proof.
  intros Hput Hflush Hprev Hheight Hp Hall Hfork.
  rewrite (acceptBlock_stored block cs Hput Hflush).
  apply N.eqb_neq in Hprev. rewrite Hprev.
  destruct (Z.leb_spec (i64 (Height (Header block) - nHeight (Tip cs))) 0);
    [lia | ].
  rewrite (getReorganizeNodes_valid _ _ Hp Hall).
  destruct (stored_frame block cs) as (_ & _ & Hb & _).
  unfold Tip in *. rewrite Hb.
  rewrite (untilFork_at_head _ _ Hfork). reflexivity.
Qed.

(** X24.  A block that is higher than the tip, whose parent is not the tip, and
    whose branch leaves the best chain at the tip itself, with no node of
    it known invalid, leaves nothing to detach: [acceptBlock] stores the
    block and then dereferences nil in [reorganizeChain]. *)
Theorem acceptBlock_fork_at_tip block cs :
  fst (PutBlock block (DatabaseService cs)) = None ->
  fst (FlushToDB (withStoredBlock block cs)) = None ->
  PreviousHash (Header block) <> nHash (Tip cs) ->
  0 < i64 (Height (Header block) - nHeight (Tip cs)) ->
  KnownInvalid (NodeStatus (Parent (nodeOf block cs)) (stored block cs)) = false ->
  noneInvalid (stored block cs)
    (untilFork (FindFork (nodeOf block cs) (stored block cs))
               (ancestors (nodeOf block cs))) ->
  sameNode (Tip cs) (FindFork (nodeOf block cs) (stored block cs)) = true ->
  acceptBlock block cs = Panicked (stored block cs).
Proof. exact (acceptBlock_fork_at_tip_aux block cs). Qed.

(** *** The senders of a block *)

Lemma senders_fold txs : forall addrs,
  NoDup addrs ->
  NoDup (fold_left (fun addrs tx =>
                      if bool_decide (From tx ∈ addrs) then addrs
                      else addrs ++ [From tx]) txs addrs)
  /\ forall a,
       a ∈ fold_left (fun addrs tx =>
                        if bool_decide (From tx ∈ addrs) then addrs
                        else addrs ++ [From tx]) txs addrs
       <-> a ∈ addrs \/ a ∈ map From txs.
Proof.
  induction txs as [|tx txs IH]; intros addrs Hnd; cbn [fold_left map].
  - split; [exact Hnd | ]. intros a. split; [now left | ].
    intros [Ha|Ha]; [exact Ha | now apply elem_of_nil in Ha].
  - destruct (bool_decide_reflect (From tx ∈ addrs)) as [Hin|Hnin].
    + destruct (IH addrs Hnd) as [Hnd' Hmem]. split; [exact Hnd' | ].
      intros a. rewrite Hmem. rewrite elem_of_cons.
      split; [intros [Ha|Ha]; auto | intros [Ha|[->|Ha]]; auto].
    + assert (Hnd1 : NoDup (addrs ++ [From tx])).
      { apply NoDup_app. split; [exact Hnd | ]. split.
        - intros x Hx Hx'. apply list_elem_of_singleton in Hx'. congruence.
        - apply NoDup_singleton. }
      destruct (IH _ Hnd1) as [Hnd' Hmem]. split; [exact Hnd' | ].
      intros a. rewrite Hmem, elem_of_app, list_elem_of_singleton, elem_of_cons.
      tauto.
Qed.

(** The addresses [ProcessBlock] sends on the feed are the senders of the
    transactions of the block, each of them once. *)
Theorem senders_once (txs : list Transaction) :
  NoDup (senders txs)
  /\ forall a, a ∈ senders txs <-> exists tx, tx ∈ txs /\ From tx = a.
Proof.
  unfold senders.
  destruct (senders_fold txs [] (NoDup_nil_2)) as [Hnd Hmem].
  split; [exact Hnd | ]. intros a. rewrite Hmem. split.
  - intros [Ha|Ha]; [now apply elem_of_nil in Ha | ].
    apply list_elem_of_fmap in Ha. destruct Ha as (tx & -> & Htx). eauto.
  - intros (tx & Htx & <-). right. apply list_elem_of_fmap. eauto.
Qed.

(** *** Orphans *)

(** A block whose hash and whose parent the service does not know is
    queued as an orphan: [ProcessBlock] returns [(false, true, nil)], and
    the database, the index, the tip and the state stay.  Given again, the
    block is refused as an orphan the service already has. *)
Theorem ProcessBlock_orphan (fuel : nat) (block : Block) (cs : ChainService) :
  blockExists (hHash (Header block)) cs = false ->
  orphans cs !! hHash (Header block) = None ->
  blockExists (PreviousHash (Header block)) cs = false ->
  exists cs',
    ProcessBlock fuel block cs = Some (Returned (false, true, None) cs')
    /\ DatabaseService cs' = DatabaseService cs
    /\ Index cs' = Index cs
    /\ nodeStatus cs' = nodeStatus cs
    /\ Tip cs' = Tip cs
    /\ StateSnapshot cs' = StateSnapshot cs
    /\ ProcessBlock fuel block cs'
       = Some (Returned (false, false,
                         Some (ErrAlreadyHaveOrphan (hHash (Header block)))) cs').
Proof.
  intros Hb Ho Hp. unfold ProcessBlock at 1. rewrite Hb, Hp.
  rewrite bool_decide_eq_false_2 by (rewrite Ho; apply is_Some_None).
  cbn [negb]. eexists. split; [reflexivity | ].
  repeat split.
  unfold ProcessBlock.
  assert (Hb' : blockExists (hHash (Header block)) (addOrphanBlock block cs) = false)
    by exact Hb.
  rewrite Hb'.
  rewrite bool_decide_eq_true_2; [reflexivity | ].
  cbn [addOrphanBlock setOrphans orphans]. rewrite lookup_insert_eq. eauto.
Qed.

(** *** A reorganization that succeeds *)

Lemma attachLoop_tip attachNodes : forall cs,
  fst (attachLoop attachNodes cs) = inr true ->
  Tip (snd (attachLoop attachNodes cs)) = default (Tip cs) (last attachNodes)
  /\ StateSnapshot (snd (attachLoop attachNodes cs))
     = match last attachNodes with
       | Some n => NewBestState n
       | None => StateSnapshot cs
       end.
Proof.
  induction attachNodes as [|bkn rest IH]; intros cs Hok; [now split | ].
  cbn [attachLoop] in *.
  destruct (GetBlock (nHash bkn) (DatabaseService cs)) as [err|bk];
    [discriminate | ].
  cbv zeta in *.
  destruct (_ =? _)%N; [ | discriminate].
  destruct (IH _ Hok) as [Ht Hs]. rewrite Ht, Hs.
  destruct rest as [|m rest]; [now split | ].
  rewrite last_cons_cons.
  destruct (last_is_Some (m :: rest)) as [x Hx]; [discriminate | ].
  rewrite Hx. now split.
Qed.

(** X25.  When every block to attach is found and gives the state root of its
    header, [reorganizeChain] commits and returns nil, and the tip and the
    state of the service are the last node attached (the last node of the
    detach list when there is nothing to attach). *)
Theorem reorganizeChain_success
    (detachNodes attachNodes : list BlockNode) (lastBlock : BlockNode)
    (cs : ChainService) :
  last detachNodes = Some lastBlock ->
  fst (attachLoop attachNodes (rollbackAndBegin lastBlock cs)) = inr true ->
  exists cs',
    reorganizeChain detachNodes attachNodes cs = Returned None cs'
    /\ Tip cs' = default lastBlock (last attachNodes)
    /\ StateSnapshot cs' = NewBestState (default lastBlock (last attachNodes))
    /\ DatabaseService cs'
       = Commit (DatabaseService
                   (snd (attachLoop attachNodes (rollbackAndBegin lastBlock cs))))
    /\ nodeStatus cs' = nodeStatus cs.
Proof.
  intros Hlast Hok. unfold reorganizeChain. rewrite Hlast. cbv zeta.
  destruct (attachLoop_tip attachNodes _ Hok) as [Ht Hs].
  pose proof (nodeStatus_attachLoop attachNodes (rollbackAndBegin lastBlock cs))
    as Hst.
  destruct (attachLoop attachNodes (rollbackAndBegin lastBlock cs))
    as [r cs1]. cbn [fst snd] in *. subst r.
  eexists. split; [reflexivity | ].
  unfold Tip in *. cbn [BestChain StateSnapshot setDatabase DatabaseService nodeStatus].
  split; [exact Ht | ]. split; [ | split; [reflexivity | exact Hst]].
  rewrite Hs. now destruct (last attachNodes).
Qed.

(** *** A block on the tip, through [ProcessBlock] *)

Lemma processOrphans_none fuel h cs :
  prevOrphans cs !! h = None ->
  processOrphans (S (S fuel)) h cs = Some (Returned None cs).
Proof.
  intros Hn. unfold processOrphans. cbn [processOrphansLoop].
  now rewrite Hn.
Qed.

(** X26.  A new block on the tip, stored and executed, for which no orphan
    waits: [ProcessBlock] returns [(true, false, nil)], the block is the
    tip, and the senders of its transactions are sent on the feed, as one
    message, unless the block has no transaction. *)
Theorem ProcessBlock_extends_tip (fuel : nat) (block : Block) (cs : ChainService) :
  blockExists (hHash (Header block)) cs = false ->
  orphans cs !! hHash (Header block) = None ->
  blockExists (PreviousHash (Header block)) cs = true ->
  prevOrphans cs !! hHash (Header block) = None ->
  fst (PutBlock block (DatabaseService cs)) = None ->
  fst (FlushToDB (withStoredBlock block cs)) = None ->
  PreviousHash (Header block) = nHash (Tip cs) ->
  fst (ExecuteTransactions block (DatabaseService (checked block cs))) = None ->
  exists cs',
    ProcessBlock (S (S fuel)) block cs = Some (Returned (true, false, None) cs')
    /\ Tip cs' = nodeOf block cs
    /\ newBlockFeed cs'
       = newBlockFeed cs
         ++ match TxList block with
            | [] => []
            | _ => [senders (TxList block)]
            end.
Proof.
  intros Hb Ho Hp Hpo Hput Hflush Hprev Hexec.
  destruct (acceptBlock_extends_tip_aux block cs Hput Hflush Hprev Hexec)
    as (cs1 & Hacc & Htip & _ & _ & _ & Hpo1 & Hfeed).
  unfold ProcessBlock. rewrite Hb, Hp.
  rewrite bool_decide_eq_false_2 by (rewrite Ho; apply is_Some_None).
  cbn [negb]. rewrite Hacc.
  assert (Hs : senders (TxList block) = [] <-> TxList block = []).
  { split; [ | now intros ->].
    destruct (TxList block) as [|tx txs] eqn:Htx; [reflexivity | ].
    intros Hnil.
    destruct (senders_fold (tx :: txs) [] (NoDup_nil_2)) as [_ Hmem].
    assert (Hin : From tx ∈ senders (tx :: txs)).
    { apply Hmem. right. cbn [map]. apply elem_of_cons. now left. }
    rewrite Hnil in Hin. now apply elem_of_nil in Hin. }
  destruct (senders (TxList block)) as [|a addrs] eqn:Hsend.
  - rewrite (processOrphans_none fuel _ cs1) by (now rewrite Hpo1).
    eexists. split; [reflexivity | ]. split; [exact Htip | ].
    rewrite (proj1 Hs eq_refl), app_nil_r. exact Hfeed.
  - rewrite (processOrphans_none fuel _ (feedSend (a :: addrs) cs1))
      by (cbn [prevOrphans feedSend]; now rewrite Hpo1).
    eexists. split; [reflexivity | ]. split; [exact Htip | ].
    cbn [newBlockFeed feedSend]. rewrite Hfeed.
    destruct (TxList block) as [|tx txs]; [ | reflexivity].
    destruct Hs as [_ Hs]. specialize (Hs eq_refl). discriminate.
Qed.

End Service.

Arguments Returned {DB A} a cs.
Arguments Panicked {DB A} cs.

(** *** A small database service, for the examples *)

(** The state is a number, to which the executor adds the payload of a
    transaction, and which is its own state root.  The journal keeps the
    state of each recorded height, a transaction keeps the state at its
    beginning, and a transaction without payload cannot be executed. *)
Record ToyDB := mkToyDB {
  tRoot : N;
  tBlocks : gmap N Block;
  tSaved : option N;
  tJournal : gmap Z N;
  tChainState : option BestState
}.

Definition toyWithRoot (r : N) (saved : option N) (d : ToyDB) : ToyDB :=
  {| tRoot := r; tBlocks := tBlocks d; tSaved := saved;
     tJournal := tJournal d; tChainState := tChainState d |}.

Definition toyExecute (t : Transaction) (d : ToyDB) : ToyDB :=
  toyWithRoot (tRoot d + payload t) (tSaved d) d.

#[local] Instance toyOps : DatabaseOps ToyDB := {|
  PutBlock b d :=
    (None, {| tRoot := tRoot d; tBlocks := <[hHash (Header b) := b]> (tBlocks d);
              tSaved := tSaved d; tJournal := tJournal d;
              tChainState := tChainState d |});
  GetBlock h d :=
    match tBlocks d !! h with
    | Some b => inr b
    | None => inl (ErrDatabase 1)
    end;
  FlushIndex _ _ d := (None, d);
  Rollback2Block h d := toyWithRoot (default 0%N (tJournal d !! h)) (tSaved d) d;
  BeginTransaction d := toyWithRoot (tRoot d) (Some (tRoot d)) d;
  Commit d := toyWithRoot (tRoot d) None d;
  Discard d := toyWithRoot (default (tRoot d) (tSaved d)) None d;
  GetStateRoot d := tRoot d;
  PutChainState st d :=
    {| tRoot := tRoot d; tBlocks := tBlocks d; tSaved := tSaved d;
       tJournal := tJournal d; tChainState := Some st |};
  RecordBlockJournal h d :=
    {| tRoot := tRoot d; tBlocks := tBlocks d; tSaved := tSaved d;
       tJournal := <[h := tRoot d]> (tJournal d); tChainState := tChainState d |};
  execute := toyExecute;
  ExecuteTransactions b d :=
    if existsb (fun t => (payload t =? 0)%N) (TxList b)
    then (Some (ErrExecute 1), d)
    else (None, fold_left (fun d t => toyExecute t d) (TxList b) d);
  CheckStateRoot b d :=
    ((StateRoot (Header b)
      =? tRoot (fold_left (fun d t => toyExecute t d) (TxList b) d))%N, d)
|}.

(** The genesis node, with hash [0], and the service that has only it. *)
Definition genesisNode : BlockNode :=
  {| nHash := 0%N; nHeight := 0; Parent := None |}.

Definition genesisService : ChainService :=
  {| DatabaseService :=
       {| tRoot := 0%N; tBlocks := ∅; tSaved := None;
          tJournal := {[0 := 0%N]}; tChainState := None |};
     Index := {[0%N := genesisNode]};
     nodeStatus := {[0%N := Z.lor StatusDataStored StatusValid]};
     BestChain := genesisNode;
     orphans := ∅; prevOrphans := ∅;
     StateSnapshot := NewBestState genesisNode;
     newBlockFeed := [] |}.

(** A block with one transaction of the given payload. *)
Definition blockOf (h prev : N) (height : Z) (root pay : N) : Block :=
  {| Header := {| hHash := h; PreviousHash := prev; Height := height;
                  StateRoot := root |};
     TxList := [{| From := 100%N; payload := pay |}] |}.

(** The service after a list of blocks went through [ProcessBlock]. *)
Definition processAll (blocks : list Block) (cs : ChainService (DB := ToyDB))
    : ChainService :=
  fold_left (fun cs b =>
               match ProcessBlock 10 b cs with
               | Some o => serviceOf o
               | None => cs
               end) blocks cs.

(** The best chain [G <- T1 <- T2] and the side branch [G <- A1 <- A2], the
    header of [A1] carrying a state root its transaction does not give. *)
Definition blockT1 : Block := blockOf 1 0 1 10 10.
Definition blockT2 : Block := blockOf 2 1 2 30 20.
Definition blockA1 : Block := blockOf 11 0 1 999 5.
Definition blockA2 : Block := blockOf 12 11 2 12 7.
Definition blockA3 : Block := blockOf 13 12 3 20 8.

Definition forked : ChainService :=
  processAll [blockT1; blockT2; blockA1; blockA2] genesisService.

Definition nodeT1 : BlockNode := NewBlockNode (Header blockT1) (Some genesisNode).
Definition nodeT2 : BlockNode := NewBlockNode (Header blockT2) (Some nodeT1).
Definition nodeA1 : BlockNode := NewBlockNode (Header blockA1) (Some genesisNode).
Definition nodeA2 : BlockNode := NewBlockNode (Header blockA2) (Some nodeA1).
Definition nodeA3 : BlockNode := NewBlockNode (Header blockA3) (Some nodeA2).

(** A block whose parent is unknown, queued as an orphan. *)
Definition blockOrphan : Block := blockOf 32 31 5 0 1.

Definition withOrphan : ChainService :=
  processAll [blockOrphan] genesisService.

Lemma ProcessBlock_duplicate_witness :
  ProcessBlock 10 blockT1 forked
    = Some (Returned (false, false, Some (ErrAlreadyHaveBlock 1%N)) forked)
  /\ ProcessBlock 10 blockOrphan withOrphan
     = Some (Returned (false, false, Some (ErrAlreadyHaveOrphan 32%N)) withOrphan).
Proof.
  split.
  - destruct (ProcessBlock_duplicate 10 blockT1 forked) as (err & Hp & [He|He]).
    + left. vm_compute. reflexivity.
    + rewrite Hp, He. reflexivity.
    + rewrite He in Hp. vm_compute in Hp. discriminate.
  - destruct (ProcessBlock_duplicate 10 blockOrphan withOrphan)
      as (err & Hp & [He|He]).
    + right. vm_compute. eexists. reflexivity.
    + rewrite He in Hp. vm_compute in Hp. discriminate.
    + rewrite Hp, He. reflexivity.
Defined.

(** On the fork above, the reorganization to the side branch detaches [T2]
    and [T1] and fails at [A1]: it returns nil, [A1] keeps the status it
    had, which is not that of an invalid node, and the tip, which was
    [T2], is [T1]. *)
Lemma reorganizeChain_mismatch_witness :
  exists cs',
    reorganizeChain [nodeT2; nodeT1] [nodeA1; nodeA2; nodeA3] forked
      = Returned None cs'
    /\ NodeStatus (Some nodeA1) cs' = StatusDataStored
    /\ KnownInvalid (NodeStatus (Some nodeA1) cs') = false
    /\ BestChain forked = nodeT2
    /\ BestChain cs' = nodeT1.
Proof.
  destruct (reorganizeChain_mismatch [nodeT2; nodeT1] [nodeA2; nodeA3]
              nodeT1 nodeA1 blockA1 forked)
    as (cs' & Hr & _ & _ & Hst & Htip & _).
  - reflexivity.
  - vm_compute. reflexivity.
  - vm_compute. discriminate.
  - exists cs'. split; [exact Hr | ].
    assert (Hs : NodeStatus (Some nodeA1) cs' = StatusDataStored)
      by (rewrite Hst; vm_compute; reflexivity).
    split; [exact Hs | ]. split; [rewrite Hs; reflexivity | ].
    split; [vm_compute; reflexivity | exact Htip].
Defined.

(** The same through [ProcessBlock]: the block [A3], higher than the tip,
    is accepted as being on the main chain although the reorganization it
    caused failed; no node is marked and the tip moved from [T2] to
    [T1]. *)
Example ProcessBlock_failed_reorganization :
  exists cs',
    ProcessBlock 10 blockA3 forked = Some (Returned (true, false, None) cs')
    /\ nodeStatus cs' !! 11%N = Some StatusDataStored
    /\ nHash (BestChain cs') = 1%N
    /\ tRoot (DatabaseService cs') = 0%N.
Proof. eexists. vm_compute. repeat split. Qed.

(** A block [X] on the tip whose transaction cannot be executed is marked
    [ValidateFailed] and the tip stays; a block [Y] on top of [X] is then
    higher than the tip. *)
Definition blockX : Block := blockOf 21 0 1 5 0.
Definition blockY : Block := blockOf 22 21 2 9 9.

Definition withInvalid : ChainService := processAll [blockX] genesisService.

Definition nodeX : BlockNode := NewBlockNode (Header blockX) (Some genesisNode).
Definition nodeY : BlockNode := NewBlockNode (Header blockY) (Some nodeX).

Lemma reorganizeChain_nil_dereference_witness :
  getReorganizeNodes nodeY (snd (FlushToDB (withStoredBlock blockY withInvalid)))
    = ([], [], SetStatusFlags nodeY StatusInvalidAncestor
                 (snd (FlushToDB (withStoredBlock blockY withInvalid))))
  /\ acceptBlock blockY withInvalid
     = Panicked (SetStatusFlags nodeY StatusInvalidAncestor
                   (snd (FlushToDB (withStoredBlock blockY withInvalid))))
  /\ exists err cs',
       reorganizeChain [nodeT2; nodeT1] [] forked = Returned err cs'.
Proof.
  destruct (reorganizeChain_nil_dereference (DB := ToyDB)) as (_ & Hret & Hacc).
  destruct (Hacc blockY withInvalid nodeX) as [Hlists Hpanic].
  - reflexivity.
  - discriminate.
  - vm_compute. reflexivity.
  - reflexivity.
  - reflexivity.
  - discriminate.
  - vm_compute. reflexivity.
  - split; [exact Hlists | ]. split; [exact Hpanic | ].
    apply Hret. discriminate.
Defined.

(** *** More examples on the small database service *)

(** [A1], whose header carries a state root its transaction does not give,
    on the genesis block: it becomes the tip, flagged [ValidateFailed]. *)
Lemma acceptBlock_extends_tip_witness :
  exists cs',
    acceptBlock blockA1 genesisService = Returned (true, None) cs'
    /\ Tip cs' = nodeA1
    /\ NodeStatus (Some nodeA1) cs' = Z.lor StatusDataStored StatusValidateFailed.
Proof.
  destruct (acceptBlock_extends_tip blockA1 genesisService)
    as (cs' & Hacc & Htip & _ & Hst & _);
    [reflexivity | reflexivity | reflexivity | reflexivity | ].
  exists cs'. split; [exact Hacc | ]. split; [exact Htip | exact Hst].
Defined.

Lemma acceptBlock_execution_fails_witness :
  exists cs',
    acceptBlock blockX genesisService = Returned (false, Some (ErrExecute 1)) cs'
    /\ Tip cs' = genesisNode
    /\ KnownInvalid (NodeStatus (Some nodeX) cs') = true.
Proof.
  destruct (acceptBlock_execution_fails blockX genesisService (ErrExecute 1))
    as (cs' & Hacc & Htip & _ & Hinv & _);
    [reflexivity | reflexivity | reflexivity | reflexivity | ].
  exists cs'. split; [exact Hacc | ]. split; [exact Htip | exact Hinv].
Defined.

Lemma acceptBlock_side_branch_witness :
  exists cs',
    acceptBlock blockA1 (processAll [blockT1] genesisService)
      = Returned (false, None) cs'
    /\ Tip cs' = nodeT1
    /\ NodeStatus (Some nodeA1) cs' = StatusDataStored.
Proof.
  destruct (acceptBlock_side_branch blockA1 (processAll [blockT1] genesisService))
    as (cs' & Hacc & Htip & _ & _ & Hst & _).
  - reflexivity.
  - reflexivity.
  - vm_compute. discriminate.
  - vm_compute. discriminate.
  - exists cs'. split; [exact Hacc | ]. split; [exact Htip | exact Hst].
Defined.

(** On the fork [G <- T1 <- T2], [G <- A1 <- A2], for a node [A3] on
    [A2]: [T2] and [T1] are to detach, [A1], [A2] and [A3] to attach. *)
Lemma getReorganizeNodes_lists_witness :
  getReorganizeNodes nodeA3 forked
  = ([nodeT2; nodeT1], [nodeA1; nodeA2; nodeA3], forked).
Proof.
  rewrite (getReorganizeNodes_lists nodeA3 forked).
  - vm_compute. reflexivity.
  - vm_compute. reflexivity.
  - unfold noneInvalid.
    assert (Hp : untilFork (FindFork nodeA3 forked) (ancestors nodeA3)
                 = [nodeA3; nodeA2; nodeA1]) by (vm_compute; reflexivity).
    rewrite Hp. repeat constructor.
Defined.

(** The block [X] is known invalid; [Y] on it is on a side branch of
    [G <- T1 <- T2]; for a node [Z] on [Y], nothing is to detach or to
    attach, and [Z] and [Y] are flagged. *)
Definition blockZ : Block := blockOf 23 22 3 0 1.

Definition nodeZ : BlockNode := NewBlockNode (Header blockZ) (Some nodeY).

Definition withInvalidBranch : ChainService :=
  processAll [blockX; blockT1; blockT2; blockY] genesisService.

Lemma getReorganizeNodes_invalid_ancestor_witness :
  exists cs',
    getReorganizeNodes nodeZ withInvalidBranch = ([], [], cs')
    /\ KnownInvalid (NodeStatus (Some nodeY) withInvalidBranch) = false
    /\ KnownInvalid (NodeStatus (Some nodeY) cs') = true
    /\ KnownInvalid (NodeStatus (Some nodeZ) cs') = true.
Proof.
  destruct (getReorganizeNodes_invalid_ancestor nodeZ withInvalidBranch
              [nodeZ; nodeY] nodeX [])
    as (cs' & Hg & Hflag & _).
  - vm_compute. reflexivity.
  - vm_compute. reflexivity.
  - repeat constructor.
  - vm_compute. reflexivity.
  - exists cs'. split; [exact Hg | ]. split; [vm_compute; reflexivity | ].
    split; apply Hflag.
    + apply elem_of_cons. right. apply elem_of_cons. now left.
    + apply elem_of_cons. now left.
Defined.

(** After the reorganization to the side branch failed, the tip is [T1]
    and [T2] is still in the index; a block [T3] on [T2] is then higher
    than the tip and its branch leaves the best chain at the tip. *)
Definition blockT3 : Block := blockOf 3 2 3 60 30.

Definition afterFailure : ChainService := processAll [blockA3] forked.

Lemma acceptBlock_fork_at_tip_witness :
  Tip afterFailure = nodeT1
  /\ acceptBlock blockT3 afterFailure = Panicked (stored blockT3 afterFailure).
Proof.
  split; [vm_compute; reflexivity | ].
  apply (acceptBlock_fork_at_tip blockT3 afterFailure).
  - reflexivity.
  - reflexivity.
  - vm_compute. discriminate.
  - vm_compute. reflexivity.
  - vm_compute. reflexivity.
  - unfold noneInvalid.
    assert (Hp : untilFork (FindFork (nodeOf blockT3 afterFailure)
                              (stored blockT3 afterFailure))
                   (ancestors (nodeOf blockT3 afterFailure))
                 = [nodeOf blockT3 afterFailure; nodeT2])
      by (vm_compute; reflexivity).
    rewrite Hp. repeat constructor.
  - vm_compute. reflexivity.
Defined.

(** The branch [G <- B1 <- B2], whose blocks give the state roots of their
    headers, beside the best chain [G <- T1]. *)
Definition blockB1 : Block := blockOf 41 0 1 5 5.
Definition blockB2 : Block := blockOf 42 41 2 12 7.

Definition nodeB1 : BlockNode := NewBlockNode (Header blockB1) (Some genesisNode).
Definition nodeB2 : BlockNode := NewBlockNode (Header blockB2) (Some nodeB1).

Definition withBranch : ChainService :=
  stored blockB2 (processAll [blockT1; blockB1] genesisService).

Lemma reorganizeChain_success_witness :
  exists cs',
    reorganizeChain [nodeT1] [nodeB1; nodeB2] withBranch = Returned None cs'
    /\ Tip withBranch = nodeT1
    /\ Tip cs' = nodeB2
    /\ tRoot (DatabaseService cs') = 12%N.
Proof.
  destruct (reorganizeChain_success [nodeT1] [nodeB1; nodeB2] nodeT1 withBranch)
    as (cs' & Hr & Htip & _ & Hdb & _).
  - reflexivity.
  - vm_compute. reflexivity.
  - exists cs'. split; [exact Hr | ]. split; [vm_compute; reflexivity | ].
    split; [exact Htip | ]. rewrite Hdb. vm_compute. reflexivity.
Defined.

Lemma ProcessBlock_extends_tip_witness :
  exists cs',
    ProcessBlock 2 blockT1 genesisService = Some (Returned (true, false, None) cs')
    /\ Tip cs' = nodeT1
    /\ newBlockFeed cs' = [[100%N]].
Proof.
  destruct (ProcessBlock_extends_tip 0 blockT1 genesisService)
    as (cs' & Hp & Htip & Hfeed);
    try reflexivity.
  exists cs'. split; [exact Hp | ]. split; [exact Htip | exact Hfeed].
Defined.

Lemma ProcessBlock_orphan_witness :
  exists cs',
    ProcessBlock 10 blockOrphan genesisService
      = Some (Returned (false, true, None) cs')
    /\ Tip cs' = genesisNode
    /\ ProcessBlock 10 blockOrphan cs'
       = Some (Returned (false, false, Some (ErrAlreadyHaveOrphan 32%N)) cs').
Proof.
  destruct (ProcessBlock_orphan 10 blockOrphan genesisService)
    as (cs' & Hp & _ & _ & _ & Htip & _ & Hagain);
    [reflexivity | reflexivity | reflexivity | ].
  exists cs'. split; [exact Hp | ]. split; [exact Htip | exact Hagain].
Defined.

End ChainService.

(** ** crypto/address.go *)

Module Crypto.

#[local] Instance byte_eq : EqDecision byte := Byte.byte_eq_dec.

Definition AddressLength : nat := 20.

(** The builtin [copy(dst, src)]: the first [min(len(dst), len(src))]
    elements of [src] overwrite those of [dst]. *)
Definition copy (dst src : list byte) : list byte :=
  take (length dst) src ++ drop (length src) dst.

(** [CommonAddress{}]: the array of twenty zero bytes.  A [CommonAddress]
    is modelled by the list of its bytes. *)
Definition zeroAddress : list byte := replicate AddressLength x00.

(** [IsEmpty]. *)
Definition IsEmpty (addr : list byte) : bool :=
  bool_decide (addr = zeroAddress).

(** [SetBytes]: [addr] is the array before the call, the result the array
    after it.  [copy(addr[n:], b)] writes into the array from index [n]. *)
Definition SetBytes (b : list byte) (addr : list byte) : list byte :=
  if (length addr <? length b)%nat then
    copy addr (drop (length b - AddressLength) b)
  else
    take (AddressLength - length b) addr
      ++ copy (drop (AddressLength - length b) addr) b.

(** [Bytes2Address]; a nil slice has length zero and gives the zero address
    on either path, so nil is the empty list. *)
Definition Bytes2Address (b : list byte) : list byte :=
  match b with
  | [] => zeroAddress
  | _ => SetBytes b zeroAddress
  end.

(** [Bytes]. *)
Definition Bytes (addr : list byte) : list byte := addr.

(** [hex.EncodeToString] and [hex.DecodeString] of the Go library: two
    lower-case digits for a byte; decoding takes digits of either case and
    fails on any other character and on an odd number of digits. *)
Definition hexDigit (n : N) : Ascii.ascii :=
  if (n <? 10)%N then Ascii.ascii_of_N (48 + n) else Ascii.ascii_of_N (87 + n).

Definition hexValue (c : Ascii.ascii) : option N :=
  let n := Ascii.N_of_ascii c in
  if ((48 <=? n) && (n <=? 57))%N then Some (n - 48)%N
  else if ((97 <=? n) && (n <=? 102))%N then Some (n - 87)%N
  else if ((65 <=? n) && (n <=? 70))%N then Some (n - 55)%N
  else None.

Fixpoint EncodeToString (b : list byte) : string :=
  match b with
  | [] => EmptyString
  | x :: rest =>
      String (hexDigit (Byte.to_N x / 16))
        (String (hexDigit (Byte.to_N x mod 16)) (EncodeToString rest))
  end.

Fixpoint DecodeString (s : string) : option (list byte) :=
  match s with
  | EmptyString => Some []
  | String _ EmptyString => None
  | String hi (String lo rest) =>
      match hexValue hi, hexValue lo, DecodeString rest with
      | Some h, Some l, Some bs =>
          match Byte.of_N (16 * h + l) with
          | Some x => Some (x :: bs)
          | None => None
          end
      | _, _, _ => None
      end
  end.

(** [Hex2Address]. *)
Definition Hex2Address (s : string) : list byte :=
  match s with
  | EmptyString => zeroAddress
  | _ =>
      match DecodeString s with
      | None => zeroAddress
      | Some b => Bytes2Address b
      end
  end.

(** [Hex]. *)
Definition Hex (addr : list byte) : string := EncodeToString (Bytes addr).

(** [x.Bytes()] of a [big.Int]: the absolute value, big-endian, without
    leading zero bytes.  [natBytes] peels the bytes off from the low end;
    the number of bits of the value is enough fuel. *)
Fixpoint natBytes (fuel : nat) (n : N) (acc : list byte) : list byte :=
  match fuel with
  | O => acc
  | S fuel' =>
      if (n =? 0)%N then acc
      else natBytes fuel' (n / 256)
             (default x00 (Byte.of_N (n mod 256)) :: acc)
  end.

Definition bigBytes (x : Z) : list byte :=
  natBytes (N.to_nat (N.size (Z.abs_N x))) (Z.abs_N x) [].

(** [Big2Address] and [Big]; [Store.SetBytes] is [big.Int.SetBytes]. *)
Definition Big2Address (x : Z) : list byte := Bytes2Address (bigBytes x).

Definition Big (addr : list byte) : Z := Store.SetBytes (Bytes addr).

(** [PubKey2Address], from the digest [sha3.Keccak256(pubKey.Serialize())]. *)
Definition addressOfDigest (digest : list byte) : list byte :=
  Bytes2Address digest.

(** *** Addresses and byte slices *)

Lemma length_copy dst src : length (copy dst src) = length dst.
Proof.
  unfold copy. rewrite length_app, length_take, length_drop. lia.
Qed.

Lemma length_zeroAddress : length zeroAddress = AddressLength.
Proof. reflexivity. Qed.

Lemma SetBytes_copy (b addr : list byte) :
  length addr = AddressLength ->
  length (SetBytes b addr) = AddressLength
  /\ (AddressLength < length b ->
      SetBytes b addr = drop (length b - AddressLength) b)%nat
  /\ (length b <= AddressLength ->
      SetBytes b addr = take (AddressLength - length b) addr ++ b)%nat.
Proof.
  intros Hlen. unfold SetBytes. rewrite Hlen.
  destruct (AddressLength <? length b)%nat eqn:Hcmp.
  - apply Nat.ltb_lt in Hcmp. split; [ | split].
    + rewrite length_copy. exact Hlen.
    + intros _. unfold copy. rewrite length_drop, Hlen.
      replace (length b - (length b - AddressLength))%nat with AddressLength by lia.
      rewrite (drop_ge addr) by lia. rewrite app_nil_r.
      apply take_ge. rewrite length_drop. lia.
    + lia.
  - apply Nat.ltb_ge in Hcmp.
    assert (Hc : copy (drop (AddressLength - length b) addr) b = b).
    { unfold copy. rewrite length_drop, Hlen.
      replace (AddressLength - (AddressLength - length b))%nat with (length b) by lia.
      rewrite take_ge by lia. rewrite drop_ge by (rewrite length_drop; lia).
      apply app_nil_r. }
    rewrite Hc. split; [ | split].
    + rewrite length_app, length_take. lia.
    + lia.
    + reflexivity.
Qed.

(** X27.  [SetBytes] on an address: a longer slice gives its last twenty bytes; a
    slice of at most twenty bytes is written flush right and the bytes of
    the address to its left stay what they were. *)
Theorem SetBytes_result (b addr : list byte) :
  length addr = AddressLength ->
  length (SetBytes b addr) = AddressLength
  /\ (AddressLength < length b ->
      SetBytes b addr = drop (length b - AddressLength) b)%nat
  /\ (length b <= AddressLength ->
      SetBytes b addr = take (AddressLength - length b) addr ++ b)%nat.
Proof. exact (SetBytes_copy b addr). Qed.

Lemma SetBytes_result_witness :
  SetBytes [x01; x02] (replicate 20 xff) = replicate 18 xff ++ [x01; x02]
  /\ SetBytes (x09 :: replicate 20 x07) (replicate 20 xff) = replicate 20 x07.
Proof.
  destruct (SetBytes_result [x01; x02] (replicate 20 xff) eq_refl) as (_ & _ & H1).
  destruct (SetBytes_result (x09 :: replicate 20 x07) (replicate 20 xff) eq_refl)
    as (_ & H2 & _).
  split.
  - rewrite H1 by (simpl; unfold AddressLength; lia). reflexivity.
  - rewrite H2 by (simpl; unfold AddressLength; lia). reflexivity.
Defined.

(** [Bytes2Address] always gives twenty bytes: the last twenty of a longer
    slice, and a slice of at most twenty bytes filled up with zero bytes on
    the left. *)
Theorem Bytes2Address_result (b : list byte) :
  length (Bytes2Address b) = AddressLength
  /\ (AddressLength < length b ->
      Bytes2Address b = drop (length b - AddressLength) b)%nat
  /\ (length b <= AddressLength ->
      Bytes2Address b = replicate (AddressLength - length b) x00 ++ b)%nat.
Proof.
  destruct b as [|x b].
  - split; [reflexivity | split].
    + simpl. intros H. inversion H.
    + intros _. reflexivity.
  - destruct (SetBytes_copy (x :: b) zeroAddress length_zeroAddress)
      as (Hl & Hlong & Hshort).
    change (Bytes2Address (x :: b)) with (SetBytes (x :: b) zeroAddress).
    split; [exact Hl | split; [exact Hlong | ]].
    intros Hle. rewrite (Hshort Hle). f_equal.
    unfold zeroAddress. rewrite take_replicate. f_equal. lia.
Qed.

(** An address read back from its own bytes is the same address. *)
Theorem Bytes2Address_Bytes (addr : list byte) :
  length addr = AddressLength -> Bytes2Address (Bytes addr) = addr.
Proof.
  intros Hlen. destruct (Bytes2Address_result addr) as (_ & _ & Hshort).
  unfold Bytes. rewrite Hshort by lia. rewrite Hlen, Nat.sub_diag. reflexivity.
Qed.

Lemma Bytes2Address_Bytes_witness :
  Bytes2Address (Bytes (replicate 20 xab)) = replicate 20 xab.
Proof. apply (Bytes2Address_Bytes (replicate 20 xab)). reflexivity. Defined.

(** *** Hex *)

Lemma hex_byte (x : byte) :
  hexValue (hexDigit (Byte.to_N x / 16)) = Some (Byte.to_N x / 16)%N
  /\ hexValue (hexDigit (Byte.to_N x mod 16)) = Some (Byte.to_N x mod 16)%N
  /\ Byte.of_N (16 * (Byte.to_N x / 16) + Byte.to_N x mod 16) = Some x.
Proof. destruct x; vm_compute; auto. Qed.

Lemma DecodeString_EncodeToString (b : list byte) :
  DecodeString (EncodeToString b) = Some b.
Proof.
  induction b as [|x b IH]; [reflexivity | ].
  destruct (hex_byte x) as (Hh & Hl & Hx).
  cbn [EncodeToString DecodeString]. rewrite Hh, Hl, IH, Hx. reflexivity.
Qed.

Lemma length_EncodeToString (b : list byte) :
  String.length (EncodeToString b) = (2 * length b)%nat.
Proof. induction b as [|x b IH]; simpl; [reflexivity | rewrite IH; lia]. Qed.

(** X28.  The hex form of an address has forty digits and reads back as the
    address. *)
Theorem Hex2Address_Hex (addr : list byte) :
  length addr = AddressLength ->
  String.length (Hex addr) = 40%nat /\ Hex2Address (Hex addr) = addr.
Proof.
  intros Hlen. unfold Hex, Bytes. split.
  - rewrite length_EncodeToString, Hlen. reflexivity.
  - unfold Hex2Address. rewrite DecodeString_EncodeToString.
    destruct addr as [|x addr]; [discriminate | ].
    cbn [EncodeToString]. now apply Bytes2Address_Bytes.
Qed.

Lemma Hex2Address_Hex_witness :
  Hex (replicate 19 x00 ++ [x1f]) = "000000000000000000000000000000000000001f"%string
  /\ Hex2Address (Hex (replicate 19 x00 ++ [x1f])) = replicate 19 x00 ++ [x1f].
Proof.
  destruct (Hex2Address_Hex (replicate 19 x00 ++ [x1f]) eq_refl) as [_ H].
  split; [reflexivity | exact H].
Defined.

(** The characters of a string. *)
Fixpoint chars (s : string) : list Ascii.ascii :=
  match s with
  | EmptyString => []
  | String c rest => c :: chars rest
  end.

Lemma DecodeString_Some_aux (n : nat) : forall s b,
  (String.length s <= n)%nat ->
  DecodeString s = Some b ->
  Nat.Even (String.length s) /\ Forall (fun c => is_Some (hexValue c)) (chars s).
Proof.
  induction n as [|n IH]; intros s b Hn Hd.
  - destruct s; [ | simpl in Hn; lia]. split; [exists 0%nat; reflexivity | constructor].
  - destruct s as [|hi [|lo rest]]; [ | discriminate | ].
    + split; [exists 0%nat; reflexivity | constructor].
    + cbn [DecodeString] in Hd.
      destruct (hexValue hi) as [h|] eqn:Hh; [ | discriminate].
      destruct (hexValue lo) as [l|] eqn:Hl; [ | discriminate].
      destruct (DecodeString rest) as [bs|] eqn:Hr; [ | discriminate].
      destruct (IH rest bs) as [[k Hk] Hall]; [simpl in Hn; lia | exact Hr | ].
      split.
      * exists (S k). simpl. rewrite Hk. lia.
      * simpl. constructor; [rewrite Hh; eauto | ].
        constructor; [rewrite Hl; eauto | exact Hall].
Qed.

(** X29.  [Hex2Address] gives the zero address for every string that is not made
    of an even number of hex digits: for a string of odd length, and for a
    string with any other character in it, such as the [x] of a [0x] in
    front. *)
Theorem Hex2Address_malformed (s : string) :
  Nat.Odd (String.length s)
  \/ Exists (fun c => hexValue c = None) (chars s) ->
  Hex2Address s = zeroAddress.
Proof.
  intros Hbad. unfold Hex2Address.
  destruct s as [|c s]; [reflexivity | ].
  destruct (DecodeString (String c s)) as [b|] eqn:Hd; [ | reflexivity].
  exfalso.
  destruct (DecodeString_Some_aux _ _ b (le_n _) Hd) as [Heven Hall].
  destruct Hbad as [Hodd|Hex].
  - apply (Nat.Even_Odd_False _ Heven Hodd).
  - apply Exists_exists in Hex. destruct Hex as (x & Hin & Hx).
    rewrite Forall_forall in Hall. specialize (Hall x Hin).
    rewrite Hx in Hall. destruct Hall as [? Hn]. discriminate.
Qed.

Lemma Hex2Address_malformed_witness :
  Hex2Address "0x000000000000000000000000000000000000001f" = zeroAddress
  /\ Hex2Address "1f0" = zeroAddress.
Proof.
  split.
  - apply Hex2Address_malformed. right.
    apply Exists_cons_tl, Exists_cons_hd. reflexivity.
  - apply Hex2Address_malformed. left. exists 1%nat. reflexivity.
Defined.

(** *** Addresses and big integers *)

Lemma SetBytes_fold (l : list byte) : forall acc,
  fold_left (fun acc x => acc * 256 + Z.of_N (Byte.to_N x)) l acc
  = acc * 256 ^ Z.of_nat (length l) + Store.SetBytes l.
Proof.
  unfold Store.SetBytes.
  induction l as [|x l IH]; intros acc.
  - simpl. lia.
  - cbn [fold_left]. rewrite IH. rewrite (IH (0 * 256 + _)).
    cbn [length]. rewrite Nat2Z.inj_succ, Z.pow_succ_r by lia. lia.
Qed.

Lemma SetBytes_app (l1 l2 : list byte) :
  Store.SetBytes (l1 ++ l2)
  = Store.SetBytes l1 * 256 ^ Z.of_nat (length l2) + Store.SetBytes l2.
Proof.
  unfold Store.SetBytes at 1. rewrite fold_left_app.
  fold (Store.SetBytes l1). apply SetBytes_fold.
Qed.

Lemma SetBytes_cons (x : byte) (l : list byte) :
  Store.SetBytes (x :: l)
  = Z.of_N (Byte.to_N x) * 256 ^ Z.of_nat (length l) + Store.SetBytes l.
Proof. apply (SetBytes_app [x] l). Qed.

Lemma SetBytes_bound (l : list byte) :
  0 <= Store.SetBytes l < 256 ^ Z.of_nat (length l).
Proof.
  induction l as [|x l IH].
  - unfold Store.SetBytes. simpl. lia.
  - rewrite SetBytes_cons. cbn [length].
    rewrite Nat2Z.inj_succ, Z.pow_succ_r by lia.
    pose proof (Byte.to_N_bounded x) as Hx.
    assert (0 < 256 ^ Z.of_nat (length l)) by (apply Z.pow_pos_nonneg; lia).
    nia.
Qed.

Lemma SetBytes_zeros (n : nat) : Store.SetBytes (replicate n x00) = 0.
Proof.
  induction n as [|n IH]; [reflexivity | ].
  cbn [replicate]. rewrite SetBytes_cons, IH. reflexivity.
Qed.

(** A number below [256 ^ fuel] is peeled off completely. *)
Lemma natBytes_value (fuel : nat) : forall n acc,
  (Z.of_N n < 256 ^ Z.of_nat fuel) ->
  Store.SetBytes (natBytes fuel n acc)
  = Z.of_N n * 256 ^ Z.of_nat (length acc) + Store.SetBytes acc.
Proof.
  induction fuel as [|fuel IH]; intros n acc Hn.
  - simpl in *. assert (n = 0%N) by lia. subst. simpl. lia.
  - cbn [natBytes]. destruct (n =? 0)%N eqn:Hz.
    + apply N.eqb_eq in Hz. subst. simpl. lia.
    + rewrite Nat2Z.inj_succ, Z.pow_succ_r in Hn by lia.
      pose proof (N.mod_lt n 256) as Hm.
      assert (Hlt : (n mod 256 < 256)%N) by (apply Hm; discriminate).
      destruct (Byte.of_N (n mod 256)) as [x|] eqn:Hx.
      * apply Byte.to_of_N in Hx. simpl default.
        rewrite IH.
        -- rewrite SetBytes_cons, Hx. cbn [length].
           rewrite Nat2Z.inj_succ, Z.pow_succ_r by lia.
           rewrite (N.div_mod n 256) at 3 by discriminate.
           rewrite N2Z.inj_add, N2Z.inj_mul. simpl (Z.of_N 256). lia.
        -- rewrite N2Z.inj_div. simpl (Z.of_N 256).
           apply Z.div_lt_upper_bound; lia.
      * apply Byte.of_N_None_iff in Hx. lia.
Qed.

Lemma bigBytes_value (x : Z) : Store.SetBytes (bigBytes x) = Z.abs x.
Proof.
  unfold bigBytes. rewrite natBytes_value.
  - change (Store.SetBytes []) with 0. change (Z.of_nat (length (@nil byte))) with 0.
    rewrite N2Z.inj_abs_N, Z.pow_0_r. lia.
  - set (n := Z.abs_N x).
    destruct (N.eq_dec n 0%N) as [->|Hn]; [simpl; lia | ].
    pose proof (N.size_gt n) as Hs.
    rewrite N_nat_Z.
    assert (Z.of_N n < 2 ^ Z.of_N (N.size n)).
    { rewrite <- (N2Z.inj_pow 2). lia. }
    assert (2 ^ Z.of_N (N.size n) <= 256 ^ Z.of_N (N.size n)).
    { apply Z.pow_le_mono_l. lia. }
    lia.
Qed.

(** Twenty bytes are the digits of a number below [2^160]. *)
Lemma pow_address : 256 ^ Z.of_nat AddressLength = 2 ^ 160.
Proof. reflexivity. Qed.

Lemma Big_of_bytes (x : Z) :
  Big (Big2Address x) = Z.abs x mod 2 ^ 160.
Proof.
  unfold Big, Big2Address, Bytes.
  destruct (Bytes2Address_result (bigBytes x)) as (_ & Hlong & Hshort).
  pose proof (bigBytes_value x) as Hv.
  destruct (le_lt_dec (length (bigBytes x)) AddressLength) as [Hle|Hlt].
  - rewrite (Hshort Hle), SetBytes_app, SetBytes_zeros, Hv.
    pose proof (SetBytes_bound (bigBytes x)) as Hb. rewrite Hv in Hb.
    assert (256 ^ Z.of_nat (length (bigBytes x)) <= 256 ^ Z.of_nat AddressLength)
      by (apply Z.pow_le_mono_r; lia).
    rewrite pow_address in *. rewrite Z.mod_small; lia.
  - rewrite (Hlong Hlt).
    pose proof (take_drop (length (bigBytes x) - AddressLength) (bigBytes x)) as Hsplit.
    rewrite <- Hsplit in Hv at 1. rewrite SetBytes_app in Hv.
    pose proof (SetBytes_bound (drop (length (bigBytes x) - AddressLength) (bigBytes x)))
      as Hb.
    assert (Hl : length (drop (length (bigBytes x) - AddressLength) (bigBytes x))
                 = AddressLength) by (rewrite length_drop; lia).
    rewrite Hl in *. rewrite pow_address in *.
    rewrite <- Hv. rewrite Z.add_comm, Z.mod_add by lia.
    rewrite Z.mod_small; lia.
Qed.

(** X30.  [Big] of [Big2Address x] is the absolute value of [x] cut to its low
    160 bits; the sign of [x] is lost. *)
Theorem Big_Big2Address (x : Z) :
  Big (Big2Address x) = Z.abs x mod 2 ^ 160.
Proof. exact (Big_of_bytes x). Qed.

(** Two byte strings of one length with the same value are equal. *)
Lemma SetBytes_inj (l1 : list byte) : forall l2,
  length l1 = length l2 -> Store.SetBytes l1 = Store.SetBytes l2 -> l1 = l2.
Proof.
  induction l1 as [|x l1 IH]; intros [|y l2] Hlen Hv; try discriminate;
    [reflexivity | ].
  injection Hlen as Hlen. rewrite !SetBytes_cons, Hlen in Hv.
  pose proof (SetBytes_bound l1) as H1. pose proof (SetBytes_bound l2) as H2.
  rewrite Hlen in H1.
  assert (Hp : 0 < 256 ^ Z.of_nat (length l2)) by (apply Z.pow_pos_nonneg; lia).
  assert (Hxy : Z.of_N (Byte.to_N x) = Z.of_N (Byte.to_N y)) by nia.
  assert (Hrest : Store.SetBytes l1 = Store.SetBytes l2) by nia.
  apply N2Z.inj in Hxy.
  assert (x = y).
  { pose proof (Byte.of_to_N x) as Hx. rewrite Hxy, Byte.of_to_N in Hx. congruence. }
  subst. f_equal. now apply IH.
Qed.

(** An address read back from its own number is the same address. *)
Theorem Big2Address_Big (addr : list byte) :
  length addr = AddressLength -> Big2Address (Big addr) = addr.
Proof.
  intros Hlen. apply SetBytes_inj.
  - destruct (Bytes2Address_result (bigBytes (Big addr))) as (Hl & _ & _).
    unfold Big2Address. rewrite Hl, Hlen. reflexivity.
  - pose proof (Big_of_bytes (Big addr)) as Hb. unfold Big, Bytes in Hb |- *.
    rewrite Hb. pose proof (SetBytes_bound addr) as Hbound.
    rewrite Hlen, pow_address in Hbound.
    rewrite Z.abs_eq by lia. apply Z.mod_small. lia.
Qed.

Lemma Big2Address_Big_witness :
  Big2Address (Big (replicate 19 x00 ++ [x1f])) = replicate 19 x00 ++ [x1f].
Proof. apply (Big2Address_Big (replicate 19 x00 ++ [x1f])). reflexivity. Defined.

End Crypto.
